(** * Relative position embeddings (positional_embedding/rel_pos_embd.py)

    A shallow embedding of the relative-position index generator, the
    log-coordinate transform, the two bias heads and the one-hot lookup
    tensor builder, together with the properties stated about them.

    Conventions of the embedding.
    - Python integers are [Z]; positions inside a list are [nat].
    - A call that raises in Python/PyTorch returns [Err e]; a call that
      returns gives [Ok v].
    - An integer tensor of rank one or two is an [itensor]; a tensor axis
      of extent two (the (row, col) channel axis) is a Rocq pair.
    - PyTorch primitives are modelled by their documented behaviour:
      [torch.arange], [torch.meshgrid] (ij indexing), [flatten],
      broadcasting subtraction, [permute], [view], [torch.unique] with
      [dim=0] (rows returned in ascending lexicographic order, the inverse
      index a rank-one tensor with one entry per input row), and [F.pad]
      (which refuses a pad list longer than twice the rank).
    - A float32 is a real number, an infinity or NaN; rounding is left
      out, division by zero follows IEEE 754.
    - The random numbers drawn by dropout come from an explicit generator
      that is threaded through the calls. *)

From Stdlib Require Import ZArith List Lia Bool String Reals Lra Sorted.
From stdpp Require Import base list.

Local Open Scope Z_scope.

(** ** Outcomes of a call *)

Inductive error : Set :=
| RuntimeError      (* raised by a PyTorch primitive *)
| AssertionError    (* a failed Python assert *)
| IndexError.       (* an index outside the tensor *)

Inductive result (A : Type) : Type :=
| Ok (a : A)
| Err (e : error).

Arguments Ok {A} a.
Arguments Err {A} e.

Definition bind {A B : Type} (c : result A) (k : A -> result B) : result B :=
  match c with
  | Ok a => k a
  | Err e => Err e
  end.

Notation "'let*' x ':=' c 'in' k" := (bind c (fun x => k))
  (at level 10, x pattern, c at level 200, k at level 200).

(** A loop body run over a list, stopping at the first exception. *)
Fixpoint map_result {A B : Type} (f : A -> result B) (l : list A) : result (list B) :=
  match l with
  | [] => Ok []
  | x :: t => let* y := f x in let* ys := map_result f t in Ok (y :: ys)
  end.

Fixpoint fold_result {A S : Type} (f : S -> A -> result S) (l : list A) (s : S)
  : result S :=
  match l with
  | [] => Ok s
  | x :: t => let* s' := f s x in fold_result f t s'
  end.

(** An elementwise operation on a tensor of rank two or three. *)
Definition map2d {A B : Type} (f : A -> B) (t : list (list A)) : list (list B) :=
  (fun row : list A => f <$> row) <$> t.

Definition map3d {A B : Type} (f : A -> B) (t : list (list (list A)))
  : list (list (list B)) :=
  (fun m : list (list A) => map2d f m) <$> t.

(** ** Integer tensors *)

Inductive itensor : Type :=
| T1 (v : list Z)              (* shape (len v,) *)
| T2 (m : list (list Z)).      (* shape (rows, cols) *)

(** [tensor.view(-1)] *)
Definition view_flat (t : itensor) : list Z :=
  match t with
  | T1 v => v
  | T2 m => concat m
  end.

(** [torch.arange(n)]: 0, 1, ..., n-1; a negative bound raises. *)
Definition arange (n : Z) : result (list Z) :=
  if n <? 0 then Err RuntimeError
  else Ok (fmap Z.of_nat (seq 0 (Z.to_nat n))).

(** [torch.meshgrid([xs, ys])] with the default ij indexing. *)
Definition meshgrid {A : Type} (xs ys : list A) : list (list A) * list (list A) :=
  (fmap (fun x => fmap (fun _ => x) ys) xs, fmap (fun _ => ys) xs).

(** [torch.stack(torch.meshgrid([arange(s0), arange(s1)])).flatten(1)]:
    the two channels (rows, cols) of the flattened coordinate grid. *)
Definition grid_coords (size : Z * Z) : result (list Z * list Z) :=
  let* r := arange (fst size) in
  let* c := arange (snd size) in
  let g := meshgrid r c in
  Ok (concat (fst g), concat (snd g)).

(** [q[:, None] - k[None, :]] on one channel. *)
Definition outer_sub (q k : list Z) : list (list Z) :=
  fmap (fun a => fmap (fun b => a - b) k) q.

(** [q_coords[:, :, None] - k_coords[:, None, :]], shape (2, Nq, Nk). *)
Definition relative_coords_of (q k : list Z * list Z)
  : list (list Z) * list (list Z) :=
  (outer_sub (fst q) (fst k), outer_sub (snd q) (snd k)).

(** [t.permute(1, 2, 0)] on a (2, Nq, Nk) tensor: shape (Nq, Nk, 2). *)
Definition permute_120 (t : list (list Z) * list (list Z)) : list (list (Z * Z)) :=
  zip_with (zip_with pair) (fst t) (snd t).

(** [t.view(-1, 2)] on a contiguous (Nq, Nk, 2) tensor: the rows, one
    after the other.  The known extent is 2, so the extent standing for -1
    is always inferred; on a tensor without elements it is 0. *)
Definition view_rows (t : list (list (Z * Z))) : result (list (Z * Z)) :=
  Ok (concat t).

(** Lexicographic order on the rows of a (_, 2) tensor. *)
Definition row_ltb (a b : Z * Z) : bool :=
  (fst a <? fst b) || ((fst a =? fst b) && (snd a <? snd b)).

Definition row_eqb (a b : Z * Z) : bool :=
  (fst a =? fst b) && (snd a =? snd b).

(** Insertion of a row in an ascending list without repetition. *)
Fixpoint insert_row (r : Z * Z) (l : list (Z * Z)) : list (Z * Z) :=
  match l with
  | [] => [r]
  | x :: t =>
      if row_ltb r x then r :: l
      else if row_eqb r x then l
      else x :: insert_row r t
  end.

(** The distinct rows, ascending. *)
Definition unique_rows (rows : list (Z * Z)) : list (Z * Z) :=
  foldr insert_row [] rows.

(** Position of the first row equal to [r]. *)
Fixpoint index_of (r : Z * Z) (l : list (Z * Z)) : nat :=
  match l with
  | [] => O
  | x :: t => if row_eqb r x then O else S (index_of r t)
  end.

(** [torch.unique(rows, return_inverse=True, dim=0)]: the sorted distinct
    rows and, for every input row, its position among them.  The inverse
    has shape (len rows,). *)
Definition unique_dim0 (rows : list (Z * Z)) : list (Z * Z) * itensor :=
  let u := unique_rows rows in
  (u, T1 (fmap (fun r => Z.of_nat (index_of r u)) rows)).

(** [F.pad(t, [1, 0, 1, 0])]: one zero column on the left of the last
    axis and one zero row on top of the axis before it.  Four pad widths
    need a tensor of rank two at least. *)
Definition pad_1010 (t : itensor) : result itensor :=
  match t with
  | T1 _ => Err RuntimeError
  | T2 m =>
      let cols := match m with [] => O | r :: _ => length r end in
      Ok (T2 (replicate (S cols) 0 :: fmap (cons 0) m))
  end.

(** [t[0, 0:] = c] *)
Definition set_row0 (c : Z) (t : itensor) : result itensor :=
  match t with
  | T2 (r :: m) => Ok (T2 (fmap (fun _ => c) r :: m))
  | _ => Err IndexError
  end.

(** [t[0:, 0] = c] *)
Definition set_col0 (c : Z) (t : itensor) : result itensor :=
  match t with
  | T2 m =>
      if forallb (fun r => match r with [] => false | _ => true end) m
      then Ok (T2 (fmap (fun r => <[O := c]> r) m))
      else Err IndexError
  | T1 _ => Err IndexError
  end.

(** [t[0, 0] = c] *)
Definition set_00 (c : Z) (t : itensor) : result itensor :=
  match t with
  | T2 ((_ :: r) :: m) => Ok (T2 ((c :: r) :: m))
  | _ => Err IndexError
  end.

(** ** gen_relative_position_index *)

Definition gen_relative_position_index
  (q_size : Z * Z) (k_size : option (Z * Z)) (class_token : bool)
  : result itensor :=
  let* q_coords := grid_coords q_size in
  let* kk :=
    match k_size with
    | None => Ok (q_coords, q_size)
    | Some ks => let* k_coords := grid_coords ks in Ok (k_coords, ks)
    end in
  let '(k_coords, k_size) := kk in
  let relative_coords := relative_coords_of q_coords k_coords in
  let relative_coords := permute_120 relative_coords in
  let* rows := view_rows relative_coords in
  let relative_position_index := snd (unique_dim0 rows) in
  if class_token then
    let max_size := (Z.max (fst q_size) (fst k_size),
                     Z.max (snd q_size) (snd k_size)) in
    let num_relative_distance :=
      (2 * fst max_size - 1) * (2 * snd max_size - 1) + 3 in
    let* t := pad_1010 relative_position_index in
    let* t := set_row0 (num_relative_distance - 3) t in
    let* t := set_col0 (num_relative_distance - 2) t in
    let* t := set_00 (num_relative_distance - 1) t in
    Ok t
  else Ok relative_position_index.


(** ** Floating-point values

    A float32 is a real number or one of the three special values.
    Rounding is not modelled: every finite operation returns the exact
    real result, no finite operation overflows, and the two zeros are
    identified.  The properties below are therefore stated in a form that
    rounding to nearest does not disturb: exact values only where the
    float32 result is exact (zeros, signs, special values, negation),
    weak inequalities with room for the rounding error, and nothing that
    needs a product or a sum of arbitrary finite values to stay finite. *)

Inductive f32 : Type :=
| Fin (r : R)
| PInf
| NInf
| NaN.

Definition f32_of_Z (z : Z) : f32 := Fin (IZR z).

Definition Rsign (r : R) : R :=
  if Rlt_dec 0 r then 1%R else if Rlt_dec r 0 then (-1)%R else 0%R.

(** The infinity carrying the sign of [r]; no value for a zero [r]. *)
Definition inf_of_sign (r : R) : f32 :=
  if Rlt_dec 0 r then PInf else if Rlt_dec r 0 then NInf else NaN.

Definition fadd (x y : f32) : f32 :=
  match x, y with
  | NaN, _ | _, NaN => NaN
  | Fin a, Fin b => Fin (a + b)
  | PInf, NInf | NInf, PInf => NaN
  | PInf, _ | _, PInf => PInf
  | NInf, _ | _, NInf => NInf
  end.

Definition fmul (x y : f32) : f32 :=
  match x, y with
  | NaN, _ | _, NaN => NaN
  | Fin a, Fin b => Fin (a * b)
  | Fin a, PInf | PInf, Fin a => inf_of_sign a
  | Fin a, NInf | NInf, Fin a => inf_of_sign (- a)
  | PInf, PInf | NInf, NInf => PInf
  | PInf, NInf | NInf, PInf => NInf
  end.

(** Division; a zero divisor is the positive zero. *)
Definition fdiv (x y : f32) : f32 :=
  match x, y with
  | NaN, _ | _, NaN => NaN
  | Fin a, Fin b => if Req_dec_T b 0 then inf_of_sign a else Fin (a / b)
  | Fin _, _ => Fin 0
  | PInf, Fin b => if Rlt_dec b 0 then NInf else PInf
  | NInf, Fin b => if Rlt_dec b 0 then PInf else NInf
  | _, _ => NaN
  end.

(** [torch.sign]; on NaN the kernel's comparisons are both false. *)
Definition fsign (x : f32) : f32 :=
  match x with
  | Fin r => Fin (Rsign r)
  | PInf => Fin 1
  | NInf => Fin (-1)
  | NaN => Fin 0
  end.

Definition fabs (x : f32) : f32 :=
  match x with
  | Fin r => Fin (Rabs r)
  | PInf | NInf => PInf
  | NaN => NaN
  end.

(** Natural logarithm, [torch.log]. *)
Definition flog (x : f32) : f32 :=
  match x with
  | Fin r =>
      if Rlt_dec 0 r then Fin (ln r)
      else if Rlt_dec r 0 then NaN else NInf
  | PInf => PInf
  | NInf | NaN => NaN
  end.

(** [math.log2] on a positive Python float. *)
Definition math_log2 (r : R) : R := (ln r / ln 2)%R.

(** [torch.log2] *)
Definition flog2 (x : f32) : f32 :=
  match x with
  | Fin r =>
      if Rlt_dec 0 r then Fin (math_log2 r)
      else if Rlt_dec r 0 then NaN else NInf
  | PInf => PInf
  | NInf | NaN => NaN
  end.

(** [nn.ReLU] *)
Definition frelu (x : f32) : f32 :=
  match x with
  | Fin r => Fin (Rmax 0 r)
  | PInf => PInf
  | NInf => Fin 0
  | NaN => NaN
  end.

(** [nn.Sigmoid] *)
Definition fsigmoid (x : f32) : f32 :=
  match x with
  | Fin r => Fin (1 / (1 + exp (- r)))
  | PInf => Fin 1
  | NInf => Fin 0
  | NaN => NaN
  end.

(** ** gen_relative_log_coords *)

(** [torch.arange(a, b, dtype=torch.float32)]; an upper bound below the
    lower one raises. *)
Definition arange_f (a b : Z) : result (list f32) :=
  if b <? a then Err RuntimeError
  else Ok (fmap (fun i => f32_of_Z (a + Z.of_nat i)) (seq 0 (Z.to_nat (b - a)))).

(** [torch.stack(torch.meshgrid([hs, ws])).permute(1, 2, 0).contiguous()] *)
Definition coords_table (hs ws : list f32) : list (list (f32 * f32)) :=
  let g := meshgrid hs ws in
  zip_with (zip_with pair) (fst g) (snd g).

(** [t[:, :, 0] op= ...] and [t[:, :, 1] op= ...] *)
Definition map_ch0 (f : f32 -> f32) (t : list (list (f32 * f32)))
  : list (list (f32 * f32)) :=
  map2d (fun c => (f (fst c), snd c)) t.

Definition map_ch1 (f : f32 -> f32) (t : list (list (f32 * f32)))
  : list (list (f32 * f32)) :=
  map2d (fun c => (fst c, f (snd c))) t.

(** An elementwise operation on the whole (_, _, 2) tensor. *)
Definition map_all (f : f32 -> f32) (t : list (list (f32 * f32)))
  : list (list (f32 * f32)) :=
  map2d (fun c => (f (fst c), f (snd c))) t.

Definition gen_relative_log_coords
  (win_size pretrained_win_size : Z * Z) (mode : string)
  : result (list (list (f32 * f32))) :=
  if negb (String.eqb mode "swin" || String.eqb mode "cr") then Err AssertionError
  else
    let* relative_coords_h := arange_f (- (fst win_size - 1)) (fst win_size) in
    let* relative_coords_w := arange_f (- (snd win_size - 1)) (snd win_size) in
    let relative_coords_table := coords_table relative_coords_h relative_coords_w in
    if String.eqb mode "swin" then
      let relative_coords_table :=
        if fst pretrained_win_size >? 0 then
          let t := map_ch0 (fun x => fdiv x (f32_of_Z (fst pretrained_win_size - 1)))
                     relative_coords_table in
          map_ch1 (fun x => fdiv x (f32_of_Z (snd pretrained_win_size - 1))) t
        else
          let t := map_ch0 (fun x => fdiv x (f32_of_Z (fst win_size - 1)))
                     relative_coords_table in
          map_ch1 (fun x => fdiv x (f32_of_Z (snd win_size - 1))) t in
      let relative_coords_table :=
        map_all (fun x => fmul x (Fin 8)) relative_coords_table in
      Ok (map_all
            (fun x => fdiv (fmul (fsign x) (flog2 (fadd (Fin 1) (fabs x))))
                        (Fin (math_log2 8)))
            relative_coords_table)
    else
      Ok (map_all (fun x => fmul (fsign x) (flog (fadd (Fin 1) (fabs x))))
            relative_coords_table).

(** ** Float tensors: creation, gather, reshape *)

(** [torch.zeros(d0, d1)]; a negative extent raises. *)
Definition zeros2 (d0 d1 : Z) : result (list (list f32)) :=
  if (d0 <? 0) || (d1 <? 0) then Err RuntimeError
  else Ok (replicate (Z.to_nat d0) (replicate (Z.to_nat d1) (Fin 0))).

(** [torch.zeros(d0, d1, d2)] *)
Definition zeros3 (d0 d1 d2 : Z) : result (list (list (list f32))) :=
  if (d0 <? 0) || (d1 <? 0) || (d2 <? 0) then Err RuntimeError
  else Ok (replicate (Z.to_nat d0)
             (replicate (Z.to_nat d1) (replicate (Z.to_nat d2) (Fin 0)))).

(** An index into an axis of extent [n]: negative indices count from the
    end, anything outside [-n, n) raises. *)
Definition norm_index (n : nat) (i : Z) : result nat :=
  if (0 <=? i) && (i <? Z.of_nat n) then Ok (Z.to_nat i)
  else if (- Z.of_nat n <=? i) && (i <? 0) then Ok (Z.to_nat (i + Z.of_nat n))
  else Err IndexError.

(** [table[idx]] for a rank-one integer index: the selected rows. *)
Definition index_select {A : Type} (table : list A) (idx : list Z) : result (list A) :=
  map_result
    (fun i =>
       let* k := norm_index (length table) i in
       match table !! k with
       | Some row => Ok row
       | None => Err IndexError
       end)
    idx.

(** [k] consecutive blocks of [n] elements. *)
Fixpoint chunks {A : Type} (n : nat) (k : nat) (l : list A) : list (list A) :=
  match k with
  | O => []
  | S k' => take n l :: chunks n k' (drop n l)
  end.

(** [t.view(d0, d1, d2)] on a contiguous tensor given by its rows: the
    number of elements must agree, and no extent is negative. *)
Definition view3 {A : Type} (shape : Z * Z * Z) (t : list (list A))
  : result (list (list (list A))) :=
  let '(d0, d1, d2) := shape in
  let flat := concat t in
  if (d0 <? 0) || (d1 <? 0) || (d2 <? 0) then Err RuntimeError
  else if negb (Z.of_nat (length flat) =? d0 * d1 * d2) then Err RuntimeError
  else
    Ok (fmap (chunks (Z.to_nat d2) (Z.to_nat d1))
          (chunks (Z.to_nat d1 * Z.to_nat d2) (Z.to_nat d0) flat)).

(** [t.permute(2, 0, 1)] on a (d0, d1, d2) tensor. *)
Definition permute_201 (d2 : nat) (t : list (list (list f32)))
  : list (list (list f32)) :=
  (fun c => map2d (fun cell => nth c cell (Fin 0)) t) <$> seq 0 d2.

(** ** RelPosBias *)

(** Modelled from the spec: [trunc_normal_] (models/smart_vit/weight_init.py)
    is not among the source files; it overwrites every entry of the table
    with a sample, here [sample i j]. *)
Definition trunc_normal_ (sample : nat -> nat -> f32) (t : list (list f32))
  : list (list f32) :=
  imap (fun i row => imap (fun j _ => sample i j) row) t.

Module RelPosBias.

Record t : Type := Build {
  window_size : Z * Z;
  window_area : Z;
  bias_shape : Z * Z * Z;
  relative_position_bias_table : list (list f32);
  relative_position_index : itensor
}.

Definition init_weights (sample : nat -> nat -> f32) (table : list (list f32)) :=
  trunc_normal_ sample table.

(** [__init__(window_size, num_heads, prefix_tokens)] *)
Definition init (window_size : Z * Z) (num_heads prefix_tokens : Z)
  (sample : nat -> nat -> f32) : result t :=
  if negb (prefix_tokens <=? 1) then Err AssertionError
  else
    let window_area := fst window_size * snd window_size in
    let bias_shape :=
      (window_area + prefix_tokens, window_area + prefix_tokens, num_heads) in
    let num_relative_distance :=
      (2 * fst window_size - 1) * (2 * snd window_size - 1) + 3 * prefix_tokens in
    let* table := zeros2 num_relative_distance num_heads in
    let* index :=
      gen_relative_position_index window_size None (prefix_tokens >? 0) in
    Ok (Build window_size window_area bias_shape
          (init_weights sample table) index).

Definition get_bias (self : t) : result (list (list (list (list f32)))) :=
  let* relative_position_bias :=
    index_select (relative_position_bias_table self)
      (view_flat (relative_position_index self)) in
  let* relative_position_bias :=
    view3 (bias_shape self) relative_position_bias in
  let relative_position_bias :=
    permute_201 (Z.to_nat (snd (bias_shape self))) relative_position_bias in
  Ok [relative_position_bias].

End RelPosBias.

(** ** The random generator and dropout *)

(** The global generator: an unbounded supply of keep/drop decisions and
    the number of them already consumed. *)
Record generator : Type := Gen {
  draws : nat -> bool;
  cursor : nat
}.

Definition advance (n : nat) (g : generator) : generator :=
  Gen (draws g) (cursor g + n).

(** One element through dropout with rate [p]: kept and rescaled by
    [1 / (1 - p)], or multiplied by zero. *)
Definition drop_elem (p : R) (keep : bool) (x : f32) : f32 :=
  if keep then fmul x (Fin (1 / (1 - p))) else fmul x (Fin 0).

(** [nn.Dropout(p)] on a (_, _, width) tensor.  In evaluation mode the
    layer is the identity and the generator is left alone; in training
    mode one decision is consumed per element, in row-major order. *)
Definition dropout (p : R) (training : bool) (width : nat)
  (x : list (list (list f32))) (g : generator)
  : list (list (list f32)) * generator :=
  if training then
    let cols := match x with [] => O | r :: _ => length r end in
    (imap (fun i row =>
             imap (fun j cell =>
                     imap (fun k v =>
                             drop_elem p
                               (draws g (cursor g + ((i * cols + j) * width + k))%nat) v)
                       cell)
               row)
       x,
     advance (length x * cols * width) g)
  else (x, g).

(** ** LinearMLP *)

(** Modelled from the spec: [LinearMLP] (mlp/base_mlp.py) is not among the
    source files.  It is the two-layer projection of the specification:
    linear, activation, dropout, linear, applied to the last axis; the
    second linear layer has a bias only when asked for. *)
Module LinearMLP.

Record t : Type := Build {
  fc1_weight : list (f32 * f32);      (* hidden_features rows of 2 *)
  fc1_bias : list f32;                (* hidden_features *)
  fc2_weight : list (list f32);       (* out_features rows of hidden_features *)
  fc2_bias : option (list f32);       (* out_features *)
  drop1 : R
}.

Definition dot (xs ws : list f32) : f32 :=
  foldr fadd (Fin 0) (zip_with fmul xs ws).

Definition fc1 (self : t) (c : f32 * f32) : list f32 :=
  zip_with (fun w b => fadd (fadd (fmul (fst c) (fst w)) (fmul (snd c) (snd w))) b)
    (fc1_weight self) (fc1_bias self).

Definition fc2 (self : t) (h : list f32) : list f32 :=
  match fc2_bias self with
  | Some bs => zip_with (fun w b => fadd (dot h w) b) (fc2_weight self) bs
  | None => fmap (fun w => dot h w) (fc2_weight self)
  end.

Definition forward (self : t) (training : bool)
  (x : list (list (f32 * f32))) (g : generator)
  : list (list (list f32)) * generator :=
  let h := map2d (fun c => frelu <$> fc1 self c) x in
  let '(h, g) := dropout (drop1 self) training (length (fc1_weight self)) h g in
  (map2d (fc2 self) h, g).

(** Modelled from the spec: the constructor, called with 2 input features
    (a weight row of the first layer is a pair).  It allocates the two
    linear layers, [hidden_features] units of 2 weights and [out_features]
    units of [hidden_features] weights; allocating a tensor with a negative
    extent raises.  The values the parameters hold are [w1 k], [b1 k],
    [w2 o k] and [b2 o]; [bias] says which layers have a bias, and the
    first layer has one in both settings this file uses. *)
Definition init (hidden_features out_features : Z) (bias : bool * bool) (drop : R)
  (w1 : nat -> f32 * f32) (b1 : nat -> f32) (w2 : nat -> nat -> f32) (b2 : nat -> f32)
  : result t :=
  if (hidden_features <? 0) || (out_features <? 0) then Err RuntimeError
  else
    let hid := seq 0 (Z.to_nat hidden_features) in
    let out := seq 0 (Z.to_nat out_features) in
    Ok (Build (w1 <$> hid) (b1 <$> hid) ((fun o => w2 o <$> hid) <$> out)
          (if snd bias then Some (b2 <$> out) else None) drop).

End LinearMLP.

(** ** RelPosMlp *)

(** [F.pad(t, [p, 0, p, 0])] on the last two axes of a (_, rows, cols)
    tensor; a negative width removes entries instead. *)
Definition pad_low (p : Z) (t : list (list (list f32)))
  : result (list (list (list f32))) :=
  if 0 <=? p then
    Ok (fmap (fun m =>
               let cols := match m with [] => O | r :: _ => length r end in
               replicate (Z.to_nat p) (replicate (Z.to_nat p + cols) (Fin 0))
                 ++ fmap (fun r => replicate (Z.to_nat p) (Fin 0) ++ r) m)
          t)
  else
    if forallb (fun m => (Z.to_nat (- p) <=? length m)%nat
                         && forallb (fun r => (Z.to_nat (- p) <=? length r)%nat) m) t
    then Ok (fmap (fun m => fmap (drop (Z.to_nat (- p))) (drop (Z.to_nat (- p)) m)) t)
    else Err RuntimeError.

(** [t.view(-1, n)] on a contiguous rank-three tensor: rows of [n]
    elements.  The known extent [n] must be positive and divide the number
    of elements ([n = 0] leaves the other extent undetermined or does not
    fit, a negative [n] is no extent). *)
Definition view_cells {A : Type} (n : Z) (t : list (list (list A)))
  : result (list (list A)) :=
  let flat := concat (concat t) in
  if n <=? 0 then Err RuntimeError
  else if negb (Z.of_nat (length flat) mod n =? 0) then Err RuntimeError
  else Ok (chunks (Z.to_nat n) (length flat / Z.to_nat n)%nat flat).

Module RelPosMlp.

Record t : Type := Build {
  training : bool;                    (* nn.Module.training *)
  window_size : Z * Z;
  window_area : Z;
  prefix_tokens : Z;
  num_heads : Z;
  bias_shape : Z * Z * Z;
  bias_act : f32 -> f32;
  bias_gain : option Z;
  mlp : LinearMLP.t;
  relative_position_index : itensor;
  rel_coords_log : list (list (f32 * f32))
}.

(** [__init__]; the values held by the parameters of the projection are
    given by [w1 b1 w2 b2], and a fresh module is in training mode. *)
Definition init (window_size : Z * Z) (num_heads hidden_dim prefix_tokens : Z)
  (mode : string) (pretrained_window_size : Z * Z)
  (w1 : nat -> f32 * f32) (b1 : nat -> f32) (w2 : nat -> nat -> f32) (b2 : nat -> f32)
  : result t :=
  let window_area := fst window_size * snd window_size in
  let bias_shape := (window_area, window_area, num_heads) in
  let '(bias_act, bias_gain, mlp_bias) :=
    if String.eqb mode "swin" then (fsigmoid, Some 16, (true, false))
    else (fun x : f32 => x, None, (true, true)) in
  let* mlp := LinearMLP.init hidden_dim num_heads mlp_bias 0.125 w1 b1 w2 b2 in
  let* index := gen_relative_position_index window_size None false in
  let* coords := gen_relative_log_coords window_size pretrained_window_size mode in
  Ok (Build true window_size window_area prefix_tokens num_heads bias_shape
        bias_act bias_gain mlp index coords).

Definition get_bias (self : t) (g : generator)
  : result (list (list (list (list f32)))) * generator :=
  let '(relative_position_bias, g) :=
    LinearMLP.forward (mlp self) (training self) (rel_coords_log self) g in
  (let* cells := view_cells (num_heads self) relative_position_bias in
   let* relative_position_bias :=
     index_select cells (view_flat (relative_position_index self)) in
   let* relative_position_bias :=
     view3 (bias_shape self) relative_position_bias in
   let relative_position_bias :=
     permute_201 (Z.to_nat (snd (bias_shape self))) relative_position_bias in
   let relative_position_bias :=
     map3d (bias_act self) relative_position_bias in
   let relative_position_bias :=
     match bias_gain self with
     | Some gain => map3d (fmul (f32_of_Z gain)) relative_position_bias
     | None => relative_position_bias
     end in
   let* relative_position_bias :=
     if prefix_tokens self =? 0 then Ok relative_position_bias
     else pad_low (prefix_tokens self) relative_position_bias in
   Ok [relative_position_bias],
   g).

End RelPosMlp.

(** ** generate_lookup_tensor *)

(** [range(n)] *)
Definition range (n : Z) : list Z := fmap Z.of_nat (seq 0 (Z.to_nat n)).

(** [ret[i, x, v] = c] *)
Definition setitem3 (ret : list (list (list f32))) (i x v : Z) (c : f32)
  : result (list (list (list f32))) :=
  let* i' := norm_index (length ret) i in
  match ret !! i' with
  | None => Err IndexError
  | Some plane =>
      let* x' := norm_index (length plane) x in
      match plane !! x' with
      | None => Err IndexError
      | Some slice =>
          let* v' := norm_index (length slice) v in
          Ok (<[i' := <[x' := <[v' := c]> slice]> plane]> ret)
      end
  end.

Definition generate_lookup_tensor (length : Z) (max_relative_position : option Z)
  : result (list (list (list f32))) :=
  let max_relative_position :=
    match max_relative_position with
    | None => length - 1
    | Some m => m
    end in
  let vocab_size := 2 * max_relative_position + 1 in
  let* ret := zeros3 length length vocab_size in
  fold_result
    (fun ret i =>
       fold_result
         (fun ret x =>
            let v := x - i + max_relative_position in
            if Z.abs (x - i) >? max_relative_position then Ok ret
            else setitem3 ret i x v (Fin 1))
         (range length) ret)
    (range length) ret.


(** ** Closed forms used in the statements *)

(** A rectangular table listed row by row. *)
Definition table2 {B : Type} (n m : nat) (f : nat -> nat -> B) : list B :=
  concat ((fun a => f a <$> seq 0 m) <$> seq 0 n).

(** Row and column of the [a]-th position of a window of width [w]. *)
Definition coord_row (w : Z) (a : nat) : Z := Z.of_nat a / w.
Definition coord_col (w : Z) (a : nat) : Z := Z.of_nat a mod w.

(** Coordinate difference of the pair (query [a], key [b]). *)
Definition coord_diff (w : Z) (a b : nat) : Z * Z :=
  (coord_row w a - coord_row w b, coord_col w a - coord_col w b).

(** Rank of the offset [(dr, dc)] among all offsets of an (h, w) window,
    in ascending lexicographic order. *)
Definition offset_rank (h w : Z) (d : Z * Z) : Z :=
  (fst d + h - 1) * (2 * w - 1) + (snd d + w - 1).

(** All offsets of an (h, w) window in ascending lexicographic order. *)
Definition offsets (h w : Z) : list (Z * Z) :=
  (fun i => (Z.of_nat i / (2 * w - 1) - (h - 1),
             Z.of_nat i mod (2 * w - 1) - (w - 1)))
    <$> seq 0 (Z.to_nat ((2 * h - 1) * (2 * w - 1))).

(** Number of positions of a window. *)
Definition area (h w : Z) : nat := Z.to_nat (h * w).

(** The offsets an (h, w) window can produce. *)
Definition in_range (h w : Z) (d : Z * Z) : Prop :=
  - (h - 1) <= fst d <= h - 1 /\ - (w - 1) <= snd d <= w - 1.

(** The class id of every (query, key) pair, listed row by row. *)
Definition index_closed (h w : Z) : list Z :=
  table2 (area h w) (area h w) (fun a b => offset_rank h w (coord_diff w a b)).

(** Entry of the pair (query [a], key [b]) in a table with [n] keys, read
    the way [get_bias] reads it: through [view(-1)], row by row. *)
Definition pair_entry (t : itensor) (n a b : nat) : option Z :=
  view_flat t !! (a * n + b)%nat.

(** Entry [t[i, j]] of a tensor whose last axis is a pair. *)
Definition lookup2 {A : Type} (t : list (list A)) (i j : nat) : option A :=
  match t !! i with
  | Some row => row !! j
  | None => None
  end.

(** The (2h-1, 2w-1, 2) grid of offsets with [f] applied to the row
    offsets and [g] to the column offsets. *)
Definition offset_table (h w : Z) (f g : f32 -> f32) : list (list (f32 * f32)) :=
  (fun i => (fun j => (f (f32_of_Z (- (h - 1) + Z.of_nat i)),
                       g (f32_of_Z (- (w - 1) + Z.of_nat j))))
              <$> seq 0 (Z.to_nat (2 * w - 1)))
    <$> seq 0 (Z.to_nat (2 * h - 1)).

(** What the "swin" branch does to one coordinate, for the divisor [n]. *)
Definition swin_squash (n : Z) (x : f32) : f32 :=
  let y := fmul (fdiv x (f32_of_Z n)) (Fin 8) in
  fdiv (fmul (fsign y) (flog2 (fadd (Fin 1) (fabs y)))) (Fin (math_log2 8)).

(** What the "cr" branch does to one coordinate. *)
Definition cr_squash (x : f32) : f32 :=
  fmul (fsign x) (flog (fadd (Fin 1) (fabs x))).

(** The "swin" squash on a finite, already normalised coordinate. *)
Definition swin_real (X : R) : R :=
  (Rsign X * math_log2 (1 + Rabs X) / math_log2 8)%R.

(** The largest magnitude the "swin" squash reaches: log2(9) / log2(8). *)
Definition swin_bound : R := (math_log2 9 / math_log2 8)%R.

(** A value that is neither infinite nor NaN. *)
Definition is_finite (x : f32) : Prop := exists r, x = Fin r.

(** Two calls of [RelPosMlp.get_bias] in a row on the same module: the
    second call sees the generator as the first one left it. *)
Definition get_bias_twice (self : RelPosMlp.t) (g : generator)
  : result (list (list (list (list f32)))) * result (list (list (list (list f32)))) :=
  let '(first, g) := RelPosMlp.get_bias self g in
  let '(second, _) := RelPosMlp.get_bias self g in
  (first, second).

(** A generator whose first decision is "keep" and all later ones "drop". *)
Definition keep_then_drop : generator := Gen (fun k => Nat.eqb k 0) 0.

(** Entry [t[i, x, v]] of a rank-three tensor. *)
Definition lookup3 {A : Type} (t : list (list (list A))) (i x v : nat) : option A :=
  match t !! i with
  | Some plane =>
      match plane !! x with
      | Some slice => slice !! v
      | None => None
      end
  | None => None
  end.

(** A tensor of shape (d0, d1, d2). *)
Definition shape3 {A : Type} (d0 d1 d2 : nat) (t : list (list (list A))) : Prop :=
  length t = d0
  /\ Forall (fun plane => length plane = d1
                          /\ Forall (fun slice => length slice = d2) plane) t.

(** The indicator [1{v = x - i + m and |x - i| <= m}]. *)
Definition one_hot (m i x v : Z) : f32 :=
  if (Z.abs (x - i) <=? m) && (v =? x - i + m) then Fin 1 else Fin 0.

(** State of the lookup tensor once the pairs selected by [done] have
    been processed by the loops. *)
Definition filled (L V : nat) (m : Z) (done : nat -> nat -> bool)
  (ret : list (list (list f32))) : Prop :=
  shape3 L L V ret
  /\ forall i x v, (i < L)%nat -> (x < L)%nat -> (v < V)%nat ->
      lookup3 ret i x v
      = Some (if done i x then one_hot m (Z.of_nat i) (Z.of_nat x) (Z.of_nat v)
              else Fin 0).

Definition row_lt (a b : Z * Z) : Prop :=
  fst a < fst b \/ (fst a = fst b /\ snd a < snd b).

(** ** Query and key windows of different sizes *)

(** Coordinate difference of the pair (query [a], key [b]) when the
    query window has width [wq] and the key window width [wk]. *)
Definition coord_diff2 (wq wk : Z) (a b : nat) : Z * Z :=
  (coord_row wq a - coord_row wk b, coord_col wq a - coord_col wk b).

(** The offsets between an (hq, wq) query window and an (hk, wk) key
    window. *)
Definition in_range2 (hq wq hk wk : Z) (d : Z * Z) : Prop :=
  - (hk - 1) <= fst d <= hq - 1 /\ - (wk - 1) <= snd d <= wq - 1.

(** Rank of an offset among them, in ascending lexicographic order. *)
Definition offset_rank2 (wq hk wk : Z) (d : Z * Z) : Z :=
  (fst d + hk - 1) * (wq + wk - 1) + (snd d + wk - 1).

(** All of them, in ascending lexicographic order. *)
Definition offsets2 (hq wq hk wk : Z) : list (Z * Z) :=
  (fun i => (Z.of_nat i / (wq + wk - 1) - (hk - 1),
             Z.of_nat i mod (wq + wk - 1) - (wk - 1)))
    <$> seq 0 (Z.to_nat ((hq + hk - 1) * (wq + wk - 1))).

(** No side of the windows of a call of [gen_relative_position_index] is
    negative. *)
Definition sides_nonneg (q_size : Z * Z) (k_size : option (Z * Z)) : Prop :=
  0 <= fst q_size /\ 0 <= snd q_size
  /\ match k_size with
     | None => True
     | Some ks => 0 <= fst ks /\ 0 <= snd ks
     end.

(** ** Reading a bias tensor *)

(** Entry [t[0, c, a, b]] of the (1, heads, rows, cols) tensor returned by
    [get_bias]. *)
Definition bias_entry (t : list (list (list (list f32)))) (c a b : nat) : option f32 :=
  match t with
  | [out] => lookup3 out c a b
  | _ => None
  end.

(** Entry [table[k, c]] of a rank-two tensor given by its rows. *)
Definition table_entry (table : list (list f32)) (k : Z) (c : nat) : option f32 :=
  match table !! Z.to_nat k with
  | Some row => row !! c
  | None => None
  end.

(** ** Reading the log-coordinate table *)

(** [sign(x) * phi(1 + |x|)], the shape shared by both modes. *)
Definition signed_squash (phi : R -> R) (x : R) : R :=
  (Rsign x * phi (1 + Rabs x))%R.

(** The divisors the "swin" branch applies to the two axes. *)
Definition swin_divisors (win_size pretrained_win_size : Z * Z) : Z * Z :=
  if fst pretrained_win_size >? 0
  then (fst pretrained_win_size - 1, snd pretrained_win_size - 1)
  else (fst win_size - 1, snd win_size - 1).

(** Row and column offset of the cell [(i, j)] of the table. *)
Definition row_offset (h : Z) (i : nat) : Z := Z.of_nat i - (h - 1).
Definition col_offset (w : Z) (j : nat) : Z := Z.of_nat j - (w - 1).

(** ** Reading the bias of the MLP head *)

(** [module.train(mode)] of [nn.Module]: sets the training flag and leaves
    parameters and buffers alone; [module.eval()] is [train(False)]. *)
Definition mlp_train (mode : bool) (self : RelPosMlp.t) : RelPosMlp.t :=
  RelPosMlp.Build mode (RelPosMlp.window_size self) (RelPosMlp.window_area self)
    (RelPosMlp.prefix_tokens self) (RelPosMlp.num_heads self)
    (RelPosMlp.bias_shape self) (RelPosMlp.bias_act self) (RelPosMlp.bias_gain self)
    (RelPosMlp.mlp self) (RelPosMlp.relative_position_index self)
    (RelPosMlp.rel_coords_log self).

(** The projection applied to one cell of the coordinate table when
    dropout is inactive. *)
Definition mlp_cell (mlp : LinearMLP.t) (c : f32 * f32) : list f32 :=
  LinearMLP.fc2 mlp (frelu <$> LinearMLP.fc1 mlp c).

(** Activation and gain applied by [RelPosMlp.get_bias] to a projected
    value. *)
Definition bias_post (self : RelPosMlp.t) (y : f32) : f32 :=
  match RelPosMlp.bias_gain self with
  | Some gain => fmul (f32_of_Z gain) (RelPosMlp.bias_act self y)
  | None => RelPosMlp.bias_act self y
  end.

(** The padding step of [RelPosMlp.get_bias]. *)
Definition pad_prefix (p : Z) (t : list (list (list f32)))
  : result (list (list (list f32))) :=
  if p =? 0 then Ok t else pad_low p t.

(** A rank-three tensor given entry by entry. *)
Definition grid3 {A : Type} (d0 d1 d2 : nat) (f : nat -> nat -> nat -> A)
  : list (list (list A)) :=
  (fun c => (fun a => f c a <$> seq 0 d2) <$> seq 0 d1) <$> seq 0 d0.

(** * Properties *)

(** ** Lists *)

Section table2_facts.
Context {B : Type}.
Implicit Types (f : nat -> nat -> B).

Lemma length_concat_uniform (n : nat) (ls : list (list B)) :
  Forall (fun l => length l = n) ls -> length (concat ls) = (length ls * n)%nat.
Proof.
  induction 1 as [|l ls Hl _ IH]; simpl; [reflexivity|].
  rewrite length_app, IH, Hl. lia.
Qed.

Lemma lookup_concat_uniform (n : nat) (ls : list (list B)) (a b : nat) l :
  Forall (fun l => length l = n) ls -> (b < n)%nat -> ls !! a = Some l ->
  concat ls !! (a * n + b)%nat = l !! b.
Proof.
  intros Hall Hb. revert a. induction Hall as [|l0 ls Hl _ IH]; intros a Ha.
  - destruct a; discriminate.
  - destruct a as [|a]; simpl in *.
    + injection Ha as ->. apply lookup_app_l. lia.
    + rewrite lookup_app_r by lia.
      replace (n + a * n + b - length l0)%nat with (a * n + b)%nat by lia.
      apply IH, Ha.
Qed.

Lemma table2_rows_uniform n m f :
  Forall (fun l => length l = m) ((fun a => f a <$> seq 0 m) <$> seq 0 n).
Proof.
  apply Forall_forall. intros l Hl.
  apply list_elem_of_fmap in Hl as (a & -> & _).
  rewrite length_fmap. apply length_seq.
Qed.

Lemma length_table2 n m f : length (table2 n m f) = (n * m)%nat.
Proof.
  unfold table2. rewrite (length_concat_uniform m) by apply table2_rows_uniform.
  rewrite length_fmap, length_seq. reflexivity.
Qed.

Lemma lookup_table2 n m f a b :
  (a < n)%nat -> (b < m)%nat -> table2 n m f !! (a * m + b)%nat = Some (f a b).
Proof.
  intros Ha Hb. unfold table2.
  rewrite (lookup_concat_uniform m _ a b (f a <$> seq 0 m)).
  - rewrite list_lookup_fmap, lookup_seq_lt by exact Hb. reflexivity.
  - apply table2_rows_uniform.
  - exact Hb.
  - rewrite list_lookup_fmap, lookup_seq_lt by exact Ha. reflexivity.
Qed.

Lemma elem_of_table2 n m f x :
  x ∈ table2 n m f <-> exists a b, (a < n)%nat /\ (b < m)%nat /\ x = f a b.
Proof.
  unfold table2. rewrite list_elem_of_In, in_concat. split.
  - intros (l & Hl & Hx). apply list_elem_of_In, list_elem_of_fmap in Hl.
    destruct Hl as (a & -> & Ha). apply list_elem_of_In, list_elem_of_fmap in Hx.
    destruct Hx as (b & -> & Hb). apply elem_of_seq in Ha, Hb.
    exists a, b. repeat split; lia.
  - intros (a & b & Ha & Hb & ->). exists (f a <$> seq 0 m). split.
    + apply list_elem_of_In, list_elem_of_fmap. exists a. split; [reflexivity|].
      apply elem_of_seq. lia.
    + apply list_elem_of_In, list_elem_of_fmap. exists b. split; [reflexivity|].
      apply elem_of_seq. lia.
Qed.

Lemma fmap_table2 {C : Type} (g : B -> C) n m f :
  g <$> table2 n m f = table2 n m (fun a b => g (f a b)).
Proof.
  unfold table2. generalize (seq 0 n) as l. induction l as [|a l IH].
  - reflexivity.
  - rewrite !fmap_cons. cbn [concat]. rewrite fmap_app, IH, <- list_fmap_compose.
    reflexivity.
Qed.

End table2_facts.

Lemma table2_ext {B : Type} n m (f g : nat -> nat -> B) :
  (forall a b, (a < n)%nat -> (b < m)%nat -> f a b = g a b) ->
  table2 n m f = table2 n m g.
Proof.
  intros Hfg. apply list_eq. intros p.
  destruct (decide (p < n * m)%nat) as [Hp|Hp].
  - assert (Hm : (0 < m)%nat) by nia.
    pose proof (Nat.div_mod_eq p m) as Hdm.
    pose proof (Nat.mod_upper_bound p m ltac:(lia)) as Hmod.
    assert (Ha : (p / m < n)%nat) by (apply Nat.Div0.div_lt_upper_bound; lia).
    replace p with ((p / m) * m + p mod m)%nat at 1 2 by lia.
    rewrite !lookup_table2 by assumption. f_equal. apply Hfg; assumption.
  - rewrite !(proj2 (lookup_ge_None _ _)); [reflexivity| |];
      rewrite length_table2; lia.
Qed.

Lemma table2_linear {B : Type} n m (f : nat -> nat -> B) :
  table2 n m f = (fun p => f (p / m)%nat (p mod m)%nat) <$> seq 0 (n * m).
Proof.
  apply list_eq. intros p.
  destruct (decide (p < n * m)%nat) as [Hp|Hp].
  - assert (Hm : (0 < m)%nat) by nia.
    pose proof (Nat.div_mod_eq p m) as Hdm.
    pose proof (Nat.mod_upper_bound p m ltac:(lia)) as Hmod.
    assert (Ha : (p / m < n)%nat) by (apply Nat.Div0.div_lt_upper_bound; lia).
    rewrite list_lookup_fmap, lookup_seq_lt by exact Hp. simpl.
    replace p with ((p / m) * m + p mod m)%nat at 1 by lia.
    apply lookup_table2; assumption.
  - rewrite !(proj2 (lookup_ge_None _ _)); [reflexivity| |].
    + rewrite length_fmap, length_seq. lia.
    + rewrite length_table2. lia.
Qed.

Lemma zip_with_fmap_same {A B C D : Type} (f : B -> C -> D) (g : A -> B) (h : A -> C) l :
  zip_with f (g <$> l) (h <$> l) = (fun x => f (g x) (h x)) <$> l.
Proof. rewrite zip_with_fmap_l, zip_with_fmap_r. apply zip_with_diag. Qed.

(** ** Coordinates of a window *)

Lemma arange_nonneg n : 0 <= n -> arange n = Ok (Z.of_nat <$> seq 0 (Z.to_nat n)).
Proof. intros Hn. unfold arange. destruct (Z.ltb_spec n 0); [lia|reflexivity]. Qed.

Lemma arange_neg n : n < 0 -> arange n = Err RuntimeError.
Proof. intros Hn. unfold arange. destruct (Z.ltb_spec n 0); [reflexivity|lia]. Qed.

Lemma area_mul h w : 0 <= h -> 0 <= w -> area h w = (Z.to_nat h * Z.to_nat w)%nat.
Proof. intros. unfold area. apply Z2Nat.inj_mul; assumption. Qed.

Lemma grid_coords_linear h w :
  0 <= h -> 0 <= w ->
  grid_coords (h, w)
  = Ok (coord_row w <$> seq 0 (area h w), coord_col w <$> seq 0 (area h w)).
Proof.
  intros Hh Hw. unfold grid_coords. simpl fst; simpl snd.
  rewrite !arange_nonneg by assumption. cbn [bind meshgrid fst snd].
  rewrite area_mul by assumption.
  set (H := Z.to_nat h). set (W := Z.to_nat w).
  assert (Hrows : (fun x : Z => (fun _ : Z => x) <$> (Z.of_nat <$> seq 0 W))
                    <$> (Z.of_nat <$> seq 0 H)
                  = (fun a => (fun _ => Z.of_nat a) <$> seq 0 W) <$> seq 0 H).
  { rewrite <- list_fmap_compose. apply list_fmap_ext. intros _ a _. simpl.
    rewrite <- list_fmap_compose. reflexivity. }
  assert (Hcols : (fun _ : Z => Z.of_nat <$> seq 0 W) <$> (Z.of_nat <$> seq 0 H)
                  = (fun a => (fun b => Z.of_nat b) <$> seq 0 W) <$> seq 0 H).
  { rewrite <- list_fmap_compose. reflexivity. }
  rewrite Hrows, Hcols.
  change (concat ((fun a => (fun _ => Z.of_nat a) <$> seq 0 W) <$> seq 0 H))
    with (table2 H W (fun a _ => Z.of_nat a)).
  change (concat ((fun a => (fun b => Z.of_nat b) <$> seq 0 W) <$> seq 0 H))
    with (table2 H W (fun _ b => Z.of_nat b)).
  rewrite !table2_linear. f_equal. f_equal.
  - apply list_fmap_ext. intros i p Hp. apply list_elem_of_lookup_2, elem_of_seq in Hp.
    unfold coord_row. assert (0 < W)%nat by nia.
    rewrite Nat2Z.inj_div. unfold W. rewrite Z2Nat.id by assumption. reflexivity.
  - apply list_fmap_ext. intros i p Hp. apply list_elem_of_lookup_2, elem_of_seq in Hp.
    unfold coord_col. assert (0 < W)%nat by nia.
    rewrite Nat2Z.inj_mod. unfold W. rewrite Z2Nat.id by assumption. reflexivity.
Qed.

Lemma grid_coords_neg h w : h < 0 \/ w < 0 -> grid_coords (h, w) = Err RuntimeError.
Proof.
  intros Hneg. unfold grid_coords. simpl fst; simpl snd.
  destruct (Z.ltb_spec h 0) as [Hh|Hh].
  - rewrite (arange_neg h) by assumption. reflexivity.
  - rewrite (arange_nonneg h) by assumption. rewrite (arange_neg w) by lia. reflexivity.
Qed.

(** The rows handed to [torch.unique]. *)
Lemma relative_rows (qr qc kr kc : nat -> Z) (n m : nat) :
  concat (permute_120
            (relative_coords_of (qr <$> seq 0 n, qc <$> seq 0 n)
                                (kr <$> seq 0 m, kc <$> seq 0 m)))
  = table2 n m (fun a b => (qr a - kr b, qc a - kc b)).
Proof.
  unfold permute_120, relative_coords_of, outer_sub, table2. cbn [fst snd]. f_equal.
  rewrite <- !list_fmap_compose, zip_with_fmap_same.
  apply list_fmap_ext. intros _ a _. simpl.
  rewrite <- !list_fmap_compose, zip_with_fmap_same. reflexivity.
Qed.

(** ** Sorted distinct rows *)

Lemma row_ltb_spec a b : row_ltb a b = true <-> row_lt a b.
Proof.
  unfold row_ltb, row_lt.
  rewrite orb_true_iff, andb_true_iff, !Z.ltb_lt, Z.eqb_eq. reflexivity.
Qed.

Lemma row_eqb_spec a b : row_eqb a b = true <-> a = b.
Proof.
  unfold row_eqb. rewrite andb_true_iff, !Z.eqb_eq.
  destruct a, b; simpl. split; [intros [-> ->]; reflexivity | intros [= -> ->]; auto].
Qed.

Lemma row_eqb_refl a : row_eqb a a = true.
Proof. apply row_eqb_spec. reflexivity. Qed.

Lemma row_lt_irrefl a : ~ row_lt a a.
Proof. unfold row_lt. lia. Qed.

Lemma row_lt_trans a b c : row_lt a b -> row_lt b c -> row_lt a c.
Proof. unfold row_lt. lia. Qed.

Lemma row_lt_total a b : ~ row_lt a b -> a <> b -> row_lt b a.
Proof.
  unfold row_lt. destruct a as [a1 a2], b as [b1 b2]; simpl. intros Hn Hne.
  destruct (Z.lt_trichotomy a1 b1) as [?|[->|?]]; [lia| |lia].
  destruct (Z.lt_trichotomy a2 b2) as [?|[->|?]]; [lia|congruence|lia].
Qed.

Lemma elem_of_insert_row r l x : x ∈ insert_row r l <-> x = r \/ x ∈ l.
Proof.
  induction l as [|y l IH]; simpl.
  - rewrite list_elem_of_singleton. split; [auto|]. intros [?|H]; [assumption|inversion H].
  - destruct (row_ltb r y) eqn:Hlt.
    + apply elem_of_cons.
    + destruct (row_eqb r y) eqn:Heq.
      * apply row_eqb_spec in Heq as ->. rewrite elem_of_cons. tauto.
      * rewrite !elem_of_cons, IH. tauto.
Qed.

Lemma insert_row_sorted r l :
  StronglySorted row_lt l -> StronglySorted row_lt (insert_row r l).
Proof.
  induction 1 as [|y l Hs IH Hall]; simpl.
  - repeat constructor.
  - destruct (row_ltb r y) eqn:Hlt.
    + apply row_ltb_spec in Hlt. constructor; [constructor; assumption|].
      constructor; [assumption|].
      eapply Forall_impl; [exact Hall|]. intros z Hz. eapply row_lt_trans; eassumption.
    + destruct (row_eqb r y) eqn:Heq; [constructor; assumption|].
      constructor; [exact IH|].
      apply Forall_forall. intros z Hz. apply elem_of_insert_row in Hz as [->|Hz].
      * apply row_lt_total.
        -- intros Hc. apply row_ltb_spec in Hc. congruence.
        -- intros ->. rewrite row_eqb_refl in Heq. discriminate.
      * rewrite Forall_forall in Hall. apply Hall, Hz.
Qed.

Lemma unique_rows_sorted rows : StronglySorted row_lt (unique_rows rows).
Proof.
  induction rows as [|r rows IH]; simpl; [constructor|].
  apply insert_row_sorted, IH.
Qed.

Lemma elem_of_unique_rows rows x : x ∈ unique_rows rows <-> x ∈ rows.
Proof.
  induction rows as [|r rows IH]; simpl; [reflexivity|].
  rewrite elem_of_insert_row, elem_of_cons, IH. reflexivity.
Qed.

(** Two ascending lists without repetition holding the same rows are equal. *)
Lemma sorted_ext (l1 l2 : list (Z * Z)) :
  StronglySorted row_lt l1 -> StronglySorted row_lt l2 ->
  (forall x, x ∈ l1 <-> x ∈ l2) -> l1 = l2.
Proof.
  intros H1. revert l2. induction H1 as [|x l1 Hs1 IH Hall1]; intros l2 H2 Hext.
  - destruct l2 as [|y l2]; [reflexivity|].
    exfalso. assert (Hy : y ∈ (@nil (Z * Z))) by (apply Hext; left). inversion Hy.
  - destruct H2 as [|y l2 Hs2 Hall2].
    + exfalso. assert (Hx : x ∈ (@nil (Z * Z))) by (apply Hext; left). inversion Hx.
    + rewrite Forall_forall in Hall1, Hall2.
      assert (Hxy : x = y).
      { assert (Hx : x ∈ y :: l2) by (apply Hext; left).
        assert (Hy : y ∈ x :: l1) by (apply Hext; left).
        apply elem_of_cons in Hx as [?|Hx]; [assumption|].
        apply elem_of_cons in Hy as [?|Hy]; [congruence|].
        exfalso. apply (row_lt_irrefl x).
        eapply row_lt_trans; [apply Hall1, Hy | apply Hall2, Hx]. }
      subst y. f_equal. apply IH; [assumption|].
      intros z. split; intros Hz.
      * assert (Hz' : z ∈ x :: l2) by (apply Hext; right; assumption).
        apply elem_of_cons in Hz' as [->|?]; [|assumption].
        exfalso. apply (row_lt_irrefl x), Hall1, Hz.
      * assert (Hz' : z ∈ x :: l1) by (apply Hext; right; assumption).
        apply elem_of_cons in Hz' as [->|?]; [|assumption].
        exfalso. apply (row_lt_irrefl x), Hall2, Hz.
Qed.

Lemma index_of_lookup l i r :
  StronglySorted row_lt l -> l !! i = Some r -> index_of r l = i.
Proof.
  intros Hs. revert i. induction Hs as [|x l Hs IH Hall]; intros i Hi.
  - destruct i; discriminate.
  - destruct i as [|i]; simpl in *.
    + injection Hi as ->. rewrite row_eqb_refl. reflexivity.
    + destruct (row_eqb r x) eqn:Heq.
      * apply row_eqb_spec in Heq as ->. exfalso.
        rewrite Forall_forall in Hall.
        apply (row_lt_irrefl x), Hall. eapply list_elem_of_lookup_2, Hi.
      * f_equal. apply IH, Hi.
Qed.

Lemma fmap_seq_sorted (f : nat -> Z * Z) s n :
  (forall i j, (i < j)%nat -> row_lt (f i) (f j)) ->
  StronglySorted row_lt (f <$> seq s n).
Proof.
  intros Hmono. revert s. induction n as [|n IH]; intros s; simpl.
  - constructor.
  - constructor; [apply IH|].
    apply Forall_forall. intros x Hx.
    apply list_elem_of_fmap in Hx as (j & -> & Hj). apply elem_of_seq in Hj.
    apply Hmono. lia.
Qed.

(** ** The offsets of a window *)

Section offsets_facts.
Variables h w : Z.
Hypothesis Hh : 0 < h.
Hypothesis Hw : 0 < w.

Local Abbreviation in_range := (in_range h w).

Lemma offsets_sorted : StronglySorted row_lt (offsets h w).
Proof.
  apply fmap_seq_sorted. intros i j Hij. unfold row_lt. simpl.
  assert (HW : 0 < 2 * w - 1) by lia.
  pose proof (Z.div_mod (Z.of_nat i) (2 * w - 1) ltac:(lia)) as Hi.
  pose proof (Z.div_mod (Z.of_nat j) (2 * w - 1) ltac:(lia)) as Hj.
  pose proof (Z.mod_pos_bound (Z.of_nat i) (2 * w - 1) HW) as Bi.
  pose proof (Z.mod_pos_bound (Z.of_nat j) (2 * w - 1) HW) as Bj.
  destruct (Z.lt_trichotomy (Z.of_nat i / (2 * w - 1)) (Z.of_nat j / (2 * w - 1)))
    as [?|[Heq|?]]; [lia| |nia].
  right. split; [lia|]. rewrite Heq in Hi. lia.
Qed.

Lemma offset_rank_bounds d :
  in_range d -> 0 <= offset_rank h w d < (2 * h - 1) * (2 * w - 1).
Proof. unfold in_range, offset_rank. intros [H1 H2]. nia. Qed.

Lemma lookup_offsets d :
  in_range d -> offsets h w !! Z.to_nat (offset_rank h w d) = Some d.
Proof.
  intros Hd. pose proof (offset_rank_bounds d Hd) as Hb.
  unfold offsets. rewrite list_lookup_fmap, lookup_seq_lt by lia. simpl.
  rewrite Z2Nat.id by lia. destruct Hd as [H1 H2]. destruct d as [dr dc].
  unfold offset_rank in *. simpl in *. f_equal.
  assert (HW : 0 < 2 * w - 1) by lia.
  rewrite <- (Z.div_unique_pos ((dr + h - 1) * (2 * w - 1) + (dc + w - 1))
             (2 * w - 1) (dr + h - 1) (dc + w - 1)) by lia.
  rewrite <- (Z.mod_unique_pos ((dr + h - 1) * (2 * w - 1) + (dc + w - 1))
             (2 * w - 1) (dr + h - 1) (dc + w - 1)) by lia.
  f_equal; lia.
Qed.

Lemma elem_of_offsets d : d ∈ offsets h w <-> in_range d.
Proof.
  split.
  - unfold offsets. intros Hd. apply list_elem_of_fmap in Hd as (i & -> & Hi).
    apply elem_of_seq in Hi. unfold in_range. simpl.
    assert (HW : 0 < 2 * w - 1) by lia.
    pose proof (Z.div_mod (Z.of_nat i) (2 * w - 1) ltac:(lia)) as Hdm.
    pose proof (Z.mod_pos_bound (Z.of_nat i) (2 * w - 1) HW) as Bi.
    assert (Hlt : Z.of_nat i < (2 * h - 1) * (2 * w - 1)) by lia.
    assert (0 <= Z.of_nat i / (2 * w - 1)) by (apply Z.div_pos; lia).
    assert (Z.of_nat i / (2 * w - 1) < 2 * h - 1) by nia.
    lia.
  - intros Hd. eapply list_elem_of_lookup_2, lookup_offsets, Hd.
Qed.

Lemma length_offsets : length (offsets h w) = Z.to_nat ((2 * h - 1) * (2 * w - 1)).
Proof. unfold offsets. rewrite length_fmap. apply length_seq. Qed.

Lemma coord_bounds a :
  (a < area h w)%nat -> 0 <= coord_row w a < h /\ 0 <= coord_col w a < w.
Proof.
  unfold area, coord_row, coord_col. intros Ha.
  pose proof (Z.div_mod (Z.of_nat a) w ltac:(lia)) as Hdm.
  pose proof (Z.mod_pos_bound (Z.of_nat a) w Hw) as Bm.
  assert (0 <= Z.of_nat a / w) by (apply Z.div_pos; lia).
  assert (Z.of_nat a < h * w) by lia.
  split; [split; [assumption|nia] | assumption].
Qed.

Lemma coord_diff_in_range a b :
  (a < area h w)%nat -> (b < area h w)%nat -> in_range (coord_diff w a b).
Proof.
  intros Ha Hb. apply coord_bounds in Ha, Hb. unfold in_range, coord_diff. simpl. lia.
Qed.

(** Position of the cell [(r, c)] of the window. *)
Lemma coord_of_cell r c :
  0 <= r < h -> 0 <= c < w ->
  (Z.to_nat (r * w + c) < area h w)%nat
  /\ coord_row w (Z.to_nat (r * w + c)) = r
  /\ coord_col w (Z.to_nat (r * w + c)) = c.
Proof.
  intros Hr Hc. unfold area, coord_row, coord_col.
  rewrite Z2Nat.id by nia. repeat split.
  - apply Z2Nat.inj_lt; nia.
  - symmetry. apply (Z.div_unique_pos _ _ r c); lia.
  - symmetry. apply (Z.mod_unique_pos _ _ r c); lia.
Qed.

(** Every offset of the window is the difference of two positions. *)
Lemma coord_diff_onto d :
  in_range d ->
  exists a b, (a < area h w)%nat /\ (b < area h w)%nat /\ coord_diff w a b = d.
Proof.
  intros [H1 H2]. destruct d as [dr dc]. simpl in *.
  destruct (coord_of_cell (Z.max dr 0) (Z.max dc 0)) as (Ha & Har & Hac); [lia|lia|].
  destruct (coord_of_cell (Z.max (- dr) 0) (Z.max (- dc) 0)) as (Hb & Hbr & Hbc);
    [lia|lia|].
  eexists _, _. split; [exact Ha|]. split; [exact Hb|].
  unfold coord_diff. rewrite Har, Hac, Hbr, Hbc. f_equal; lia.
Qed.

Lemma unique_rows_offsets :
  unique_rows (table2 (area h w) (area h w) (coord_diff w)) = offsets h w.
Proof.
  apply sorted_ext; [apply unique_rows_sorted | apply offsets_sorted |].
  intros d. rewrite elem_of_unique_rows, elem_of_table2, elem_of_offsets. split.
  - intros (a & b & Ha & Hb & ->). apply coord_diff_in_range; assumption.
  - intros Hd. destruct (coord_diff_onto d Hd) as (a & b & Ha & Hb & <-). eauto.
Qed.

Lemma index_of_offsets d :
  in_range d -> Z.of_nat (index_of d (offsets h w)) = offset_rank h w d.
Proof.
  intros Hd. rewrite (index_of_lookup _ (Z.to_nat (offset_rank h w d))).
  - apply Z2Nat.id. apply offset_rank_bounds, Hd.
  - apply offsets_sorted.
  - apply lookup_offsets, Hd.
Qed.

End offsets_facts.

(** ** gen_relative_position_index: what it returns *)

Lemma grid_coords_err s e : grid_coords s = Err e -> e = RuntimeError.
Proof.
  unfold grid_coords, arange.
  destruct (fst s <? 0); simpl; [congruence|].
  destruct (snd s <? 0); simpl; congruence.
Qed.

(** With [class_token] set the call never returns: the inverse index that
    [torch.unique] hands back has rank one, and [F.pad] refuses it. *)
Lemma class_token_raises q k :
  gen_relative_position_index q k true = Err RuntimeError.
Proof.
  unfold gen_relative_position_index.
  destruct (grid_coords q) as [qc|e] eqn:Hq; simpl;
    [|apply grid_coords_err in Hq; subst; reflexivity].
  destruct k as [ks|]; simpl.
  - destruct (grid_coords ks) as [kc|e] eqn:Hk; simpl;
      [|apply grid_coords_err in Hk; subst; reflexivity].
    reflexivity.
  - reflexivity.
Qed.

Lemma view_rows_table2 n (qr qc kr kc : nat -> Z) :
  view_rows (permute_120
               (relative_coords_of (qr <$> seq 0 n, qc <$> seq 0 n)
                                   (kr <$> seq 0 n, kc <$> seq 0 n)))
  = Ok (table2 n n (fun a b => (qr a - kr b, qc a - kc b))).
Proof. unfold view_rows. rewrite relative_rows. reflexivity. Qed.

Lemma inverse_closed h w :
  0 < h -> 0 < w ->
  snd (unique_dim0 (table2 (area h w) (area h w) (coord_diff w)))
  = T1 (index_closed h w).
Proof.
  intros Hh Hw. unfold unique_dim0, index_closed. cbn [snd]. f_equal.
  rewrite unique_rows_offsets by assumption. rewrite fmap_table2.
  apply table2_ext. intros a b Ha Hb.
  apply index_of_offsets; [assumption..|]. apply coord_diff_in_range; assumption.
Qed.

(** The table for a window without prefix token, in closed form; the
    key size may be left out or be given equal to the query size. *)
Lemma gen_relative_position_index_closed h w :
  0 < h -> 0 < w ->
  gen_relative_position_index (h, w) None false = Ok (T1 (index_closed h w)).
Proof.
  intros Hh Hw. unfold gen_relative_position_index.
  rewrite grid_coords_linear by lia. cbn [bind].
  rewrite view_rows_table2. cbn [bind].
  change (fun a b => (coord_row w a - coord_row w b, coord_col w a - coord_col w b))
    with (coord_diff w).
  rewrite inverse_closed by assumption. reflexivity.
Qed.

Lemma gen_relative_position_index_closed_same h w :
  0 < h -> 0 < w ->
  gen_relative_position_index (h, w) (Some (h, w)) false = Ok (T1 (index_closed h w)).
Proof.
  intros Hh Hw. unfold gen_relative_position_index.
  rewrite grid_coords_linear by lia. cbn [bind].
  rewrite view_rows_table2. cbn [bind].
  change (fun a b => (coord_row w a - coord_row w b, coord_col w a - coord_col w b))
    with (coord_diff w).
  rewrite inverse_closed by assumption. reflexivity.
Qed.

Lemma pair_entry_closed h w a b :
  (a < area h w)%nat -> (b < area h w)%nat ->
  pair_entry (T1 (index_closed h w)) (area h w) a b
  = Some (offset_rank h w (coord_diff w a b)).
Proof.
  intros Ha Hb. unfold pair_entry, index_closed. simpl.
  apply (lookup_table2 _ _ (fun a b => offset_rank h w (coord_diff w a b)));
    assumption.
Qed.

Lemma elem_of_index_closed h w v :
  0 < h -> 0 < w ->
  v ∈ index_closed h w <-> 0 <= v < (2 * h - 1) * (2 * w - 1).
Proof.
  intros Hh Hw. unfold index_closed. rewrite elem_of_table2. split.
  - intros (a & b & Ha & Hb & ->).
    apply offset_rank_bounds; [assumption..|]. apply coord_diff_in_range; assumption.
  - intros Hv.
    assert (Hd : in_range h w (v / (2 * w - 1) - (h - 1), v mod (2 * w - 1) - (w - 1))).
    { apply elem_of_offsets; [assumption..|]. unfold offsets.
      apply list_elem_of_fmap. exists (Z.to_nat v). rewrite Z2Nat.id by lia.
      split; [reflexivity|]. apply elem_of_seq. lia. }
    destruct (coord_diff_onto h w Hh Hw _ Hd) as (a & b & Ha & Hb & Hab).
    exists a, b. split; [assumption|]. split; [assumption|].
    rewrite Hab. unfold offset_rank. simpl.
    pose proof (Z.div_mod v (2 * w - 1) ltac:(lia)). lia.
Qed.

(** A window with a side of extent 0 has no position; the call returns
    the empty index. *)
Lemma area_zero h w : 0 <= h -> 0 <= w -> (area h w = O <-> h = 0 \/ w = 0).
Proof.
  intros Hh Hw. unfold area. split; [nia|].
  intros [-> | ->]; [|rewrite Z.mul_0_r]; reflexivity.
Qed.

Lemma index_closed_empty h w : area h w = O -> index_closed h w = [].
Proof. intros Ha. unfold index_closed. rewrite Ha. reflexivity. Qed.

(** The closed form covers every window without a negative side. *)
Lemma gen_relative_position_index_closed_nonneg h w :
  0 <= h -> 0 <= w ->
  gen_relative_position_index (h, w) None false = Ok (T1 (index_closed h w)).
Proof.
  intros Hh Hw.
  destruct (decide (h = 0 \/ w = 0)) as [Hz|Hz];
    [|apply gen_relative_position_index_closed; lia].
  pose proof (proj2 (area_zero h w Hh Hw) Hz) as Ha.
  unfold gen_relative_position_index.
  rewrite grid_coords_linear by assumption. cbn [bind].
  rewrite view_rows_table2. cbn [bind].
  rewrite index_closed_empty by exact Ha. rewrite Ha. reflexivity.
Qed.

(** A call without prefix token returns exactly for the windows without a
    negative side. *)
Lemma gen_relative_position_index_returns h w t :
  gen_relative_position_index (h, w) None false = Ok t -> 0 <= h /\ 0 <= w.
Proof.
  intros Hok. destruct (Z.ltb_spec h 0) as [Hh|Hh].
  { unfold gen_relative_position_index in Hok.
    rewrite grid_coords_neg in Hok by lia. discriminate. }
  destruct (Z.ltb_spec w 0) as [Hw|Hw].
  { unfold gen_relative_position_index in Hok.
    rewrite grid_coords_neg in Hok by lia. discriminate. }
  lia.
Qed.



Lemma map_result_ok {A B : Type} (f : A -> result B) (g : A -> B) l :
  (forall x, x ∈ l -> f x = Ok (g x)) -> map_result f l = Ok (g <$> l).
Proof.
  induction l as [|x l IH]; intros Hf; simpl; [reflexivity|].
  rewrite Hf by left. simpl. rewrite IH; [reflexivity|].
  intros y Hy. apply Hf. right. exact Hy.
Qed.

Lemma norm_index_in_bounds n i :
  0 <= i < Z.of_nat n -> norm_index n i = Ok (Z.to_nat i).
Proof.
  intros Hi. unfold norm_index.
  destruct (Z.leb_spec 0 i); [|lia]. destruct (Z.ltb_spec i (Z.of_nat n)); [|lia].
  reflexivity.
Qed.

(** A gather with every index inside the table returns the selected rows. *)
Lemma index_select_in_bounds {A : Type} (d : A) (table : list A) idx :
  (forall i, i ∈ idx -> 0 <= i < Z.of_nat (length table)) ->
  index_select table idx = Ok ((fun i => nth (Z.to_nat i) table d) <$> idx).
Proof.
  intros Hidx. unfold index_select. apply map_result_ok. intros i Hi.
  specialize (Hidx i Hi). rewrite norm_index_in_bounds by assumption. simpl.
  destruct (table !! Z.to_nat i) as [row|] eqn:Hrow.
  - f_equal. symmetry. apply nth_lookup_Some with (d := d) in Hrow. exact Hrow.
  - apply lookup_ge_None in Hrow. lia.
Qed.

Lemma zeros2_ok d0 d1 t :
  zeros2 d0 d1 = Ok t ->
  0 <= d0 /\ 0 <= d1
  /\ t = replicate (Z.to_nat d0) (replicate (Z.to_nat d1) (Fin 0)).
Proof.
  unfold zeros2. destruct (Z.ltb_spec d0 0); [discriminate|].
  destruct (Z.ltb_spec d1 0); [discriminate|]. simpl. intros [= <-]. auto.
Qed.

Lemma trunc_normal_shape sample d0 d1 :
  length (trunc_normal_ sample (replicate d0 (replicate d1 (Fin 0)))) = d0
  /\ Forall (fun row => length row = d1)
       (trunc_normal_ sample (replicate d0 (replicate d1 (Fin 0)))).
Proof.
  unfold trunc_normal_. split.
  - rewrite length_imap. apply length_replicate.
  - apply Forall_forall. intros row Hrow.
    apply list_elem_of_lookup in Hrow as [i Hi].
    rewrite list_lookup_imap in Hi.
    destruct (replicate d0 (replicate d1 (Fin 0)) !! i) as [r|] eqn:Hr; [|discriminate].
    apply lookup_replicate in Hr as [-> _]. simpl in Hi. injection Hi as <-.
    rewrite length_imap. apply length_replicate.
Qed.

(** ** The index table *)

(** C1. For a window (h, w) with positive sides and no prefix token the
    call returns, and what it returns is the rank-one inverse index of
    [torch.unique]: h*w*h*w entries, not an (h*w, h*w) matrix.  Its
    entries are exactly the values 0 .. (2h-1)(2w-1)-1, each of which
    occurs, so there are (2h-1)(2w-1) distinct ones. *)
Theorem index_table_flat_all_classes h w :
  0 < h -> 0 < w ->
  exists v,
    gen_relative_position_index (h, w) None false = Ok (T1 v)
    /\ length v = (area h w * area h w)%nat
    /\ (forall x, x ∈ v <-> 0 <= x < (2 * h - 1) * (2 * w - 1))
    /\ length (remove_dups v) = Z.to_nat ((2 * h - 1) * (2 * w - 1)).
Proof.
  intros Hh Hw. exists (index_closed h w).
  split; [apply gen_relative_position_index_closed; assumption|].
  split; [apply length_table2|].
  split; [intros x; apply elem_of_index_closed; assumption|].
  transitivity (length (Z.of_nat <$> seq 0 (Z.to_nat ((2 * h - 1) * (2 * w - 1)))));
    [|rewrite length_fmap; apply length_seq].
  apply Permutation_length, NoDup_Permutation.
  - apply NoDup_remove_dups.
  - apply NoDup_fmap_2; [intros ???; lia | apply NoDup_seq].
  - intros x. rewrite elem_of_remove_dups, elem_of_index_closed by assumption.
    rewrite list_elem_of_fmap. split.
    + intros Hx. exists (Z.to_nat x). split; [lia|]. apply elem_of_seq. lia.
    + intros (i & -> & Hi). apply elem_of_seq in Hi. lia.
Qed.

Lemma index_table_flat_all_classes_witness :
  exists v,
    gen_relative_position_index (2, 2) None false = Ok (T1 v)
    /\ length v = (area 2 2 * area 2 2)%nat
    /\ (forall x, x ∈ v <-> 0 <= x < (2 * 2 - 1) * (2 * 2 - 1))
    /\ length (remove_dups v) = Z.to_nat ((2 * 2 - 1) * (2 * 2 - 1)).
Proof. apply (index_table_flat_all_classes 2 2); lia. Defined.

(** The table of the (2, 2) window, as returned. *)
Example index_table_2x2 :
  gen_relative_position_index (2, 2) None false
  = Ok (T1 [4; 3; 1; 0; 5; 4; 2; 1; 7; 6; 4; 3; 8; 7; 5; 4]).
Proof. vm_compute. reflexivity. Qed.

(** C2. With [class_token] set the call returns no table at all: for
    every window the padding step raises, so none of the three overwrites
    is reached. *)
Theorem class_token_table_raises h w :
  gen_relative_position_index (h, w) None true = Err RuntimeError.
Proof. apply class_token_raises. Qed.

(** The padding and the three overwrites, run on a rank-two table, give
    the layout with the corner holding the last class. *)
Example class_token_overwrites_on_matrix :
  (let* t := pad_1010 (T2 [[4; 3]; [5; 4]]) in
   let* t := set_row0 9 t in
   let* t := set_col0 10 t in
   set_00 11 t)
  = Ok (T2 [[11; 9; 9]; [10; 4; 3]; [10; 5; 4]]).
Proof. vm_compute. reflexivity. Qed.

(** C3. Without prefix token, two pairs of positions with the same
    coordinate difference carry the same class id. *)
Theorem index_symmetry h w :
  0 < h -> 0 < w ->
  exists t,
    gen_relative_position_index (h, w) None false = Ok t
    /\ forall a b c d,
        (a < area h w)%nat -> (b < area h w)%nat ->
        (c < area h w)%nat -> (d < area h w)%nat ->
        coord_diff w a b = coord_diff w c d ->
        exists v, pair_entry t (area h w) a b = Some v
                  /\ pair_entry t (area h w) c d = Some v.
Proof.
  intros Hh Hw. exists (T1 (index_closed h w)).
  split; [apply gen_relative_position_index_closed; assumption|].
  intros a b c d Ha Hb Hc Hd Heq.
  exists (offset_rank h w (coord_diff w a b)). split.
  - apply pair_entry_closed; assumption.
  - rewrite Heq. apply pair_entry_closed; assumption.
Qed.

Lemma index_symmetry_witness :
  exists t,
    gen_relative_position_index (2, 3) None false = Ok t
    /\ forall a b c d,
        (a < area 2 3)%nat -> (b < area 2 3)%nat ->
        (c < area 2 3)%nat -> (d < area 2 3)%nat ->
        coord_diff 3 a b = coord_diff 3 c d ->
        exists v, pair_entry t (area 2 3) a b = Some v
                  /\ pair_entry t (area 2 3) c d = Some v.
Proof. apply (index_symmetry 2 3); lia. Defined.




(** C9. Without prefix token and with the key size equal to the query
    size, the class id of a pair with coordinate difference (dr, dc) is
    (dr + h - 1) * (2w - 1) + (dc + w - 1): the rank of the offset in
    ascending lexicographic order. *)
Theorem class_id_is_lexicographic_rank h w (k_size : option (Z * Z)) :
  0 < h -> 0 < w ->
  k_size = None \/ k_size = Some (h, w) ->
  exists t,
    gen_relative_position_index (h, w) k_size false = Ok t
    /\ forall a b dr dc,
        (a < area h w)%nat -> (b < area h w)%nat ->
        coord_diff w a b = (dr, dc) ->
        pair_entry t (area h w) a b
        = Some ((dr + h - 1) * (2 * w - 1) + (dc + w - 1)).
Proof.
  intros Hh Hw Hk. exists (T1 (index_closed h w)). split.
  - destruct Hk as [->| ->].
    + apply gen_relative_position_index_closed; assumption.
    + apply gen_relative_position_index_closed_same; assumption.
  - intros a b dr dc Ha Hb Hd.
    rewrite pair_entry_closed by assumption. rewrite Hd. reflexivity.
Qed.

Lemma class_id_is_lexicographic_rank_witness :
  exists t,
    gen_relative_position_index (2, 3) (Some (2, 3)) false = Ok t
    /\ forall a b dr dc,
        (a < area 2 3)%nat -> (b < area 2 3)%nat ->
        coord_diff 3 a b = (dr, dc) ->
        pair_entry t (area 2 3) a b
        = Some ((dr + 2 - 1) * (2 * 3 - 1) + (dc + 3 - 1)).
Proof. apply (class_id_is_lexicographic_rank 2 3 (Some (2, 3))); [lia|lia|right; reflexivity]. Defined.

(** First appearance would number the offset of the pair (0, 0) with 0;
    the table numbers it 4, its rank among the nine sorted offsets. *)
Example class_id_not_first_appearance :
  exists t, gen_relative_position_index (2, 2) None false = Ok t
            /\ pair_entry t 4 0 0 = Some 4.
Proof. eexists. split; [vm_compute; reflexivity|]. reflexivity. Qed.

(** ** RelPosBias *)

(** With one prefix token the constructor asks the index generator for
    the class-token table, and whichever of its two steps fails, the
    allocation of the bias table or the index generator, the error is a
    RuntimeError. *)
Lemma relpos_bias_init_one h w num_heads sample :
  RelPosBias.init (h, w) num_heads 1 sample = Err RuntimeError.
Proof.
  unfold RelPosBias.init. cbn [negb Z.leb Z.compare fst snd].
  change (1 >? 0) with true. rewrite class_token_raises.
  unfold zeros2. destruct (_ || _); reflexivity.
Qed.


(** ** generate_lookup_tensor *)

(** A loop that keeps an invariant indexed by the number of iterations
    done runs to its end and establishes the invariant there. *)
Lemma fold_result_invariant {A St : Type} (f : St -> A -> result St)
  (P : nat -> St -> Prop) (l : list A) (s : St) :
  P O s ->
  (forall k s a, l !! k = Some a -> P k s -> exists s', f s a = Ok s' /\ P (S k) s') ->
  exists s', fold_result f l s = Ok s' /\ P (length l) s'.
Proof.
  revert P s. induction l as [|a l IH]; intros P s H0 Hstep; simpl.
  - eauto.
  - destruct (Hstep O s a eq_refl H0) as (s1 & -> & H1). simpl.
    apply (IH (fun k => P (S k)) s1 H1).
    intros k s2 b Hk HP. apply (Hstep (S k) s2 b Hk HP).
Qed.

Lemma lookup_range n k a : range n !! k = Some a -> a = Z.of_nat k /\ (k < Z.to_nat n)%nat.
Proof.
  unfold range. rewrite list_lookup_fmap. intros Hk.
  destruct (seq 0 (Z.to_nat n) !! k) as [j|] eqn:Hj; [|discriminate].
  apply lookup_seq in Hj as [-> Hlt]. injection Hk as <-. auto.
Qed.

Lemma length_range n : length (range n) = Z.to_nat n.
Proof. unfold range. rewrite length_fmap. apply length_seq. Qed.

Lemma zeros3_ok d0 d1 d2 :
  0 <= d0 -> 0 <= d1 -> 0 <= d2 ->
  zeros3 d0 d1 d2
  = Ok (replicate (Z.to_nat d0)
          (replicate (Z.to_nat d1) (replicate (Z.to_nat d2) (Fin 0)))).
Proof.
  intros. unfold zeros3.
  destruct (Z.ltb_spec d0 0); [lia|]. destruct (Z.ltb_spec d1 0); [lia|].
  destruct (Z.ltb_spec d2 0); [lia|]. reflexivity.
Qed.

Lemma shape3_replicate {A : Type} d0 d1 d2 (c : A) :
  shape3 d0 d1 d2 (replicate d0 (replicate d1 (replicate d2 c))).
Proof.
  split; [apply length_replicate|].
  apply Forall_replicate. split; [apply length_replicate|].
  apply Forall_replicate, length_replicate.
Qed.

Lemma lookup3_replicate {A : Type} d0 d1 d2 (c : A) i x v :
  (i < d0)%nat -> (x < d1)%nat -> (v < d2)%nat ->
  lookup3 (replicate d0 (replicate d1 (replicate d2 c))) i x v = Some c.
Proof.
  intros Hi Hx Hv. unfold lookup3.
  rewrite lookup_replicate_2 by assumption. rewrite lookup_replicate_2 by assumption.
  apply lookup_replicate_2. assumption.
Qed.

Lemma shape3_lookup {A : Type} d0 d1 d2 (t : list (list (list A))) i x :
  shape3 d0 d1 d2 t -> (i < d0)%nat -> (x < d1)%nat ->
  exists plane slice,
    t !! i = Some plane /\ plane !! x = Some slice
    /\ length plane = d1 /\ length slice = d2.
Proof.
  intros [Hlen Hall] Hi Hx. rewrite Forall_forall in Hall.
  destruct (lookup_lt_is_Some_2 t i) as [plane Hp]; [lia|].
  destruct (Hall plane (list_elem_of_lookup_2 _ _ _ Hp)) as [Hpl Hsl].
  rewrite Forall_forall in Hsl.
  destruct (lookup_lt_is_Some_2 plane x) as [slice Hs]; [lia|].
  exists plane, slice. repeat split; try assumption.
  apply Hsl. eapply list_elem_of_lookup_2, Hs.
Qed.

(** An in-bounds store changes the addressed entry and nothing else. *)
Lemma setitem3_in_bounds d0 d1 d2 (t : list (list (list f32))) (i x v : nat) c :
  shape3 d0 d1 d2 t -> (i < d0)%nat -> (x < d1)%nat -> (v < d2)%nat ->
  exists t',
    setitem3 t (Z.of_nat i) (Z.of_nat x) (Z.of_nat v) c = Ok t'
    /\ shape3 d0 d1 d2 t'
    /\ forall i' x' v',
        lookup3 t' i' x' v'
        = if decide (i' = i /\ x' = x /\ v' = v) then Some c else lookup3 t i' x' v'.
Proof.
  intros Hshape Hi Hx Hv.
  destruct (shape3_lookup _ _ _ _ i x Hshape Hi Hx) as (plane & slice & Hp & Hs & Hpl & Hsl).
  destruct Hshape as [Hlen Hall].
  unfold setitem3.
  rewrite norm_index_in_bounds, Nat2Z.id by lia. cbn [bind]. rewrite Hp.
  rewrite norm_index_in_bounds, Nat2Z.id by lia. cbn [bind]. rewrite Hs.
  rewrite norm_index_in_bounds, Nat2Z.id by lia. cbn [bind].
  eexists. split; [reflexivity|]. split.
  - split; [rewrite length_insert; exact Hlen|].
    apply Forall_insert; [exact Hall|].
    split; [rewrite length_insert; exact Hpl|].
    rewrite Forall_forall in Hall.
    destruct (Hall plane (list_elem_of_lookup_2 _ _ _ Hp)) as [_ Hsls].
    apply Forall_insert; [exact Hsls|]. rewrite length_insert. exact Hsl.
  - intros i' x' v'. unfold lookup3.
    rewrite list_lookup_insert.
    destruct (decide (i = i' /\ (i < length t)%nat)) as [[<- _]|Hni].
    + rewrite list_lookup_insert.
      destruct (decide (x = x' /\ (x < length plane)%nat)) as [[<- _]|Hnx].
      * rewrite list_lookup_insert.
        destruct (decide (v = v' /\ (v < length slice)%nat)) as [[<- _]|Hnv].
        -- rewrite decide_True by auto. reflexivity.
        -- rewrite decide_False by (intros (_ & _ & ->); apply Hnv; split; [reflexivity|lia]).
           rewrite Hp, Hs. reflexivity.
      * rewrite decide_False by (intros (_ & -> & _); apply Hnx; split; [reflexivity|lia]).
        rewrite Hp. reflexivity.
    + rewrite decide_False by (intros (-> & _ & _); apply Hni; split; [reflexivity|lia]).
      reflexivity.
Qed.

Ltac bool_cases :=
  repeat match goal with
    | |- context [(?a <? ?b)%nat] => destruct (Nat.ltb_spec a b)
    | |- context [(?a =? ?b)%nat] => destruct (Nat.eqb_spec a b)
    | |- context [?a <=? ?b] => destruct (Z.leb_spec a b)
    | |- context [?a =? ?b] => destruct (Z.eqb_spec a b)
    end;
  simpl; try reflexivity; try lia.

Section lookup_loops.
Variables (L V : nat) (m : Z).
Hypothesis Hm : 0 <= m.
Hypothesis HV : V = Z.to_nat (2 * m + 1).

Local Abbreviation filled := (filled L V m).

Lemma inner_loop (i : nat) ret :
  (i < L)%nat ->
  filled (fun i' _ => (i' <? i)%nat) ret ->
  exists ret',
    fold_result
      (fun ret x =>
         let v := x - Z.of_nat i + m in
         if Z.abs (x - Z.of_nat i) >? m then Ok ret
         else setitem3 ret (Z.of_nat i) x v (Fin 1))
      (range (Z.of_nat L)) ret = Ok ret'
    /\ filled (fun i' _ => (i' <? S i)%nat) ret'.
Proof.
  intros Hi H0.
  destruct (fold_result_invariant
              (fun ret x =>
                 let v := x - Z.of_nat i + m in
                 if Z.abs (x - Z.of_nat i) >? m then Ok ret
                 else setitem3 ret (Z.of_nat i) x v (Fin 1))
              (fun k => filled (fun i' x' => (i' <? i)%nat || ((i' =? i)%nat && (x' <? k)%nat)))
              (range (Z.of_nat L)) ret) as (ret' & Hfold & [Hshape Hfill]).
  - destruct H0 as [Hshape Hfill]. split; [exact Hshape|].
    intros i' x' v' Hi' Hx' Hv'. rewrite Hfill by assumption. f_equal. bool_cases.
  - intros k s a Hk [Hshape Hfill]. apply lookup_range in Hk as [-> Hk].
    rewrite Nat2Z.id in Hk. cbv zeta. rewrite Z.gtb_ltb.
    destruct (Z.ltb_spec m (Z.abs (Z.of_nat k - Z.of_nat i))) as [Hfar|Hnear].
    + exists s. split; [reflexivity|]. split; [exact Hshape|].
      intros i' x' v' Hi' Hx' Hv'. rewrite Hfill by assumption. f_equal.
      unfold one_hot. bool_cases.
    + destruct (setitem3_in_bounds L L V s i k
                  (Z.to_nat (Z.of_nat k - Z.of_nat i + m)) (Fin 1) Hshape Hi Hk)
        as (s' & Hset & Hshape' & Hlook); [lia|].
      rewrite Z2Nat.id in Hset by lia.
      exists s'. split; [exact Hset|]. split; [exact Hshape'|].
      intros i' x' v' Hi' Hx' Hv'. rewrite Hlook.
      destruct (decide _) as [(-> & -> & ->)|Hne].
      * f_equal. unfold one_hot. rewrite Z2Nat.id by lia. bool_cases.
      * rewrite Hfill by assumption. f_equal. unfold one_hot. bool_cases.
  - exists ret'. split; [exact Hfold|]. split; [exact Hshape|].
    intros i' x' v' Hi' Hx' Hv'. rewrite Hfill by assumption.
    rewrite length_range, Nat2Z.id. f_equal. bool_cases.
Qed.

Lemma outer_loop ret :
  filled (fun _ _ => false) ret ->
  exists ret',
    fold_result
      (fun ret i =>
         fold_result
           (fun ret x =>
              let v := x - i + m in
              if Z.abs (x - i) >? m then Ok ret
              else setitem3 ret i x v (Fin 1))
           (range (Z.of_nat L)) ret)
      (range (Z.of_nat L)) ret = Ok ret'
    /\ filled (fun _ _ => true) ret'.
Proof.
  intros H0.
  destruct (fold_result_invariant
              (fun ret i =>
                 fold_result
                   (fun ret x =>
                      let v := x - i + m in
                      if Z.abs (x - i) >? m then Ok ret
                      else setitem3 ret i x v (Fin 1))
                   (range (Z.of_nat L)) ret)
              (fun k => filled (fun i' _ => (i' <? k)%nat))
              (range (Z.of_nat L)) ret) as (ret' & Hfold & [Hshape Hfill]).
  - exact H0.
  - intros k s a Hk Hs. apply lookup_range in Hk as [-> Hk].
    rewrite Nat2Z.id in Hk. apply inner_loop; assumption.
  - exists ret'. split; [exact Hfold|]. split; [exact Hshape|].
    intros i' x' v' Hi' Hx' Hv'. rewrite Hfill by assumption.
    rewrite length_range, Nat2Z.id. f_equal. bool_cases.
Qed.

End lookup_loops.

(** The tensor returned for a positive length and a non-negative
    clipping distance, entry by entry. *)
Lemma generate_lookup_tensor_entries length mo m :
  0 < length ->
  m = match mo with None => length - 1 | Some m' => m' end ->
  0 <= m ->
  exists ret,
    generate_lookup_tensor length mo = Ok ret
    /\ shape3 (Z.to_nat length) (Z.to_nat length) (Z.to_nat (2 * m + 1)) ret
    /\ forall i x v,
        (i < Z.to_nat length)%nat -> (x < Z.to_nat length)%nat ->
        (v < Z.to_nat (2 * m + 1))%nat ->
        lookup3 ret i x v = Some (one_hot m (Z.of_nat i) (Z.of_nat x) (Z.of_nat v)).
Proof.
  intros Hlen Hm Hm0. unfold generate_lookup_tensor. rewrite <- Hm.
  rewrite zeros3_ok by lia. cbn [bind].
  replace (range length) with (range (Z.of_nat (Z.to_nat length)))
    by (rewrite Z2Nat.id by lia; reflexivity).
  destruct (outer_loop (Z.to_nat length) (Z.to_nat (2 * m + 1)) m Hm0 eq_refl
              (replicate (Z.to_nat length)
                 (replicate (Z.to_nat length) (replicate (Z.to_nat (2 * m + 1)) (Fin 0)))))
    as (ret & Hfold & Hshape & Hfill).
  - split; [apply shape3_replicate|].
    intros i x v Hi Hx Hv. apply lookup3_replicate; assumption.
  - exists ret. split; [exact Hfold|]. split; [exact Hshape|]. exact Hfill.
Qed.

Lemma one_hot_decide m i x v :
  one_hot m i x v
  = if decide (v = x - i + m /\ Z.abs (x - i) <= m) then Fin 1 else Fin 0.
Proof. unfold one_hot. destruct (decide _) as [[-> H]|Hn]; bool_cases. Qed.

Lemma Fin_1_neq_0 : Fin 1 <> Fin 0.
Proof. intros [= H]. exact (R1_neq_R0 H). Qed.

(** C7. For a positive length and a non-negative clipping distance m
    (length - 1 when omitted) the call returns a tensor of shape
    (length, length, 2m+1) with ret[i, x, v] = 1 exactly when
    v = x - i + m and |x - i| <= m, and 0 otherwise; so a slice (i, x)
    has at most one nonzero entry.  For length 3 and m = 1 the slice
    ret[0, 2, :] is zero and ret[1, 2, 2] is 1. *)
Theorem lookup_tensor_one_hot :
  (forall length mo m,
      0 < length ->
      m = match mo with None => length - 1 | Some m' => m' end ->
      0 <= m ->
      exists ret,
        generate_lookup_tensor length mo = Ok ret
        /\ shape3 (Z.to_nat length) (Z.to_nat length) (Z.to_nat (2 * m + 1)) ret
        /\ (forall i x v,
              (i < Z.to_nat length)%nat -> (x < Z.to_nat length)%nat ->
              (v < Z.to_nat (2 * m + 1))%nat ->
              lookup3 ret i x v
              = Some (if decide (Z.of_nat v = Z.of_nat x - Z.of_nat i + m
                                 /\ Z.abs (Z.of_nat x - Z.of_nat i) <= m)
                      then Fin 1 else Fin 0))
        /\ (forall i x v1 v2,
              (i < Z.to_nat length)%nat -> (x < Z.to_nat length)%nat ->
              (v1 < Z.to_nat (2 * m + 1))%nat -> (v2 < Z.to_nat (2 * m + 1))%nat ->
              lookup3 ret i x v1 <> Some (Fin 0) ->
              lookup3 ret i x v2 <> Some (Fin 0) ->
              v1 = v2))
  /\ exists ret,
      generate_lookup_tensor 3 (Some 1) = Ok ret
      /\ shape3 3 3 3 ret
      /\ (forall v, (v < 3)%nat -> lookup3 ret 0 2 v = Some (Fin 0))
      /\ lookup3 ret 1 2 2 = Some (Fin 1).
Proof.
  assert (Hgen : forall length mo m,
      0 < length ->
      m = match mo with None => length - 1 | Some m' => m' end ->
      0 <= m ->
      exists ret,
        generate_lookup_tensor length mo = Ok ret
        /\ shape3 (Z.to_nat length) (Z.to_nat length) (Z.to_nat (2 * m + 1)) ret
        /\ (forall i x v,
              (i < Z.to_nat length)%nat -> (x < Z.to_nat length)%nat ->
              (v < Z.to_nat (2 * m + 1))%nat ->
              lookup3 ret i x v
              = Some (if decide (Z.of_nat v = Z.of_nat x - Z.of_nat i + m
                                 /\ Z.abs (Z.of_nat x - Z.of_nat i) <= m)
                      then Fin 1 else Fin 0))).
  { intros length mo m Hlen Hm Hm0.
    destruct (generate_lookup_tensor_entries length mo m Hlen Hm Hm0)
      as (ret & Hret & Hshape & Hentries).
    exists ret. split; [exact Hret|]. split; [exact Hshape|].
    intros i x v Hi Hx Hv. rewrite Hentries by assumption.
    rewrite one_hot_decide. reflexivity. }
  split.
  - intros length mo m Hlen Hm Hm0.
    destruct (Hgen length mo m Hlen Hm Hm0) as (ret & Hret & Hshape & Hentries).
    exists ret. split; [exact Hret|]. split; [exact Hshape|].
    split; [exact Hentries|].
    intros i x v1 v2 Hi Hx Hv1 Hv2 H1 H2.
    rewrite Hentries in H1, H2 by assumption.
    destruct (decide _) as [[E1 _]|_] in H1; [|congruence].
    destruct (decide _) as [[E2 _]|_] in H2; [|congruence].
    lia.
  - destruct (Hgen 3 (Some 1) 1 ltac:(lia) eq_refl ltac:(lia))
      as (ret & Hret & Hshape & Hentries).
    exists ret. split; [exact Hret|]. split; [exact Hshape|]. split.
    + intros v Hv. rewrite (Hentries 0%nat 2%nat v) by (simpl; lia).
      rewrite decide_False by (simpl; lia). reflexivity.
    + rewrite (Hentries 1%nat 2%nat 2%nat) by (simpl; lia).
      rewrite decide_True by (simpl; lia). reflexivity.
Qed.

Lemma lookup_tensor_one_hot_witness :
  exists ret,
    generate_lookup_tensor 4 None = Ok ret
    /\ shape3 4 4 7 ret
    /\ lookup3 ret 3 0 0 = Some (Fin 1)
    /\ lookup3 ret 3 0 1 = Some (Fin 0).
Proof.
  destruct (proj1 lookup_tensor_one_hot 4 None 3 ltac:(lia) eq_refl ltac:(lia))
    as (ret & Hret & Hshape & Hentries & _).
  exists ret. split; [exact Hret|]. split; [exact Hshape|]. split.
  - rewrite (Hentries 3%nat 0%nat 0%nat) by (simpl; lia).
    rewrite decide_True by (simpl; lia). reflexivity.
  - rewrite (Hentries 3%nat 0%nat 1%nat) by (simpl; lia).
    rewrite decide_False by (simpl; lia). reflexivity.
Defined.

(** ** gen_relative_log_coords *)

Lemma arange_f_ok a b :
  a <= b ->
  arange_f a b = Ok ((fun i => f32_of_Z (a + Z.of_nat i)) <$> seq 0 (Z.to_nat (b - a))).
Proof. intros Hab. unfold arange_f. destruct (Z.ltb_spec b a); [lia|reflexivity]. Qed.

Lemma coords_table_fmap {A : Type} (fh fw : A -> f32) (lh lw : list A) :
  coords_table (fh <$> lh) (fw <$> lw)
  = (fun i => (fun j => (fh i, fw j)) <$> lw) <$> lh.
Proof.
  unfold coords_table, meshgrid. cbn [fst snd].
  rewrite <- !list_fmap_compose, zip_with_fmap_same.
  apply list_fmap_ext. intros _ a _. simpl.
  rewrite <- list_fmap_compose, zip_with_fmap_same. reflexivity.
Qed.

Lemma map2d_table {A B C : Type} (f : B -> C) (c : A -> A -> B) (lh lw : list A) :
  map2d f ((fun i => (fun j => c i j) <$> lw) <$> lh)
  = (fun i => (fun j => f (c i j)) <$> lw) <$> lh.
Proof.
  unfold map2d. rewrite <- list_fmap_compose.
  apply list_fmap_ext. intros _ a _. simpl.
  rewrite <- list_fmap_compose. reflexivity.
Qed.

(** The raw grid of offsets, before either branch. *)
Lemma raw_coords_table h w :
  1 <= h -> 1 <= w ->
  exists rh rw,
    arange_f (- (h - 1)) h = Ok rh /\ arange_f (- (w - 1)) w = Ok rw
    /\ coords_table rh rw = offset_table h w (fun x => x) (fun x => x).
Proof.
  intros Hh Hw. eexists _, _.
  split; [apply arange_f_ok; lia|]. split; [apply arange_f_ok; lia|].
  rewrite coords_table_fmap. unfold offset_table.
  replace (h - - (h - 1)) with (2 * h - 1) by lia.
  replace (w - - (w - 1)) with (2 * w - 1) by lia. reflexivity.
Qed.

Lemma offset_table_map_ch0 h w k f g :
  map_ch0 k (offset_table h w f g) = offset_table h w (fun x => k (f x)) g.
Proof. unfold map_ch0, offset_table. rewrite map2d_table. reflexivity. Qed.

Lemma offset_table_map_ch1 h w k f g :
  map_ch1 k (offset_table h w f g) = offset_table h w f (fun x => k (g x)).
Proof. unfold map_ch1, offset_table. rewrite map2d_table. reflexivity. Qed.

Lemma offset_table_map_all h w k f g :
  map_all k (offset_table h w f g)
  = offset_table h w (fun x => k (f x)) (fun x => k (g x)).
Proof. unfold map_all, offset_table. rewrite map2d_table. reflexivity. Qed.

(** The table returned in "swin" mode, for a window with positive sides. *)
Lemma gen_relative_log_coords_swin h w ph pw :
  1 <= h -> 1 <= w ->
  gen_relative_log_coords (h, w) (ph, pw) "swin"
  = Ok (offset_table h w
          (swin_squash (if ph >? 0 then ph - 1 else h - 1))
          (swin_squash (if ph >? 0 then pw - 1 else w - 1))).
Proof.
  intros Hh Hw. unfold gen_relative_log_coords.
  change (negb (String.eqb "swin" "swin" || String.eqb "swin" "cr")) with false.
  change (String.eqb "swin" "swin") with true. cbn [fst snd].
  destruct (raw_coords_table h w Hh Hw) as (rh & rw & Erh & Erw & Etab).
  rewrite Erh, Erw. cbn [bind]. rewrite Etab.
  f_equal. destruct (ph >? 0);
    rewrite offset_table_map_ch0, offset_table_map_ch1, !offset_table_map_all;
    reflexivity.
Qed.

(** The table returned in "cr" mode, for a window with positive sides. *)
Lemma gen_relative_log_coords_cr h w pre :
  1 <= h -> 1 <= w ->
  gen_relative_log_coords (h, w) pre "cr"
  = Ok (offset_table h w cr_squash cr_squash).
Proof.
  intros Hh Hw. unfold gen_relative_log_coords.
  change (negb (String.eqb "cr" "swin" || String.eqb "cr" "cr")) with false.
  change (String.eqb "cr" "swin") with false. cbn [fst snd].
  destruct (raw_coords_table h w Hh Hw) as (rh & rw & Erh & Erw & Etab).
  rewrite Erh, Erw. cbn [bind]. rewrite Etab.
  rewrite offset_table_map_all. reflexivity.
Qed.

Lemma lookup2_offset_table h w f g i j :
  (i < Z.to_nat (2 * h - 1))%nat -> (j < Z.to_nat (2 * w - 1))%nat ->
  lookup2 (offset_table h w f g) i j
  = Some (f (f32_of_Z (- (h - 1) + Z.of_nat i)), g (f32_of_Z (- (w - 1) + Z.of_nat j))).
Proof.
  intros Hi Hj. unfold lookup2, offset_table.
  rewrite list_lookup_fmap, lookup_seq_lt by exact Hi. simpl.
  rewrite list_lookup_fmap, lookup_seq_lt by exact Hj. reflexivity.
Qed.

Lemma offset_table_shape h w f g :
  length (offset_table h w f g) = Z.to_nat (2 * h - 1)
  /\ Forall (fun row => length row = Z.to_nat (2 * w - 1)) (offset_table h w f g).
Proof.
  unfold offset_table. split.
  - rewrite length_fmap. apply length_seq.
  - apply Forall_forall. intros row Hrow.
    apply list_elem_of_fmap in Hrow as (i & -> & _).
    rewrite length_fmap. apply length_seq.
Qed.

(** *** Real-number facts about the squash *)

Lemma ln_pos_gt1 x : (1 < x)%R -> (0 < ln x)%R.
Proof. intros Hx. rewrite <- ln_1. apply ln_increasing; lra. Qed.

Lemma ln_nonneg_ge1 x : (1 <= x)%R -> (0 <= ln x)%R.
Proof.
  intros [Hx| <-]; [left; apply ln_pos_gt1, Hx | rewrite ln_1; lra].
Qed.

Lemma ln_le_mono x y : (0 < x)%R -> (x <= y)%R -> (ln x <= ln y)%R.
Proof. intros Hx [Hxy| ->]; [left; apply ln_increasing; assumption | lra]. Qed.

Lemma math_log2_pos x : (1 < x)%R -> (0 < math_log2 x)%R.
Proof.
  intros Hx. unfold math_log2. apply Rdiv_lt_0_compat; apply ln_pos_gt1; lra.
Qed.

Lemma math_log2_nonneg x : (1 <= x)%R -> (0 <= math_log2 x)%R.
Proof.
  intros Hx. unfold math_log2. apply Rmult_le_pos; [apply ln_nonneg_ge1, Hx|].
  left. apply Rinv_0_lt_compat, ln_pos_gt1. lra.
Qed.

Lemma math_log2_le_mono x y : (0 < x)%R -> (x <= y)%R -> (math_log2 x <= math_log2 y)%R.
Proof.
  intros Hx Hxy. unfold math_log2, Rdiv. apply Rmult_le_compat_r.
  - left. apply Rinv_0_lt_compat, ln_pos_gt1. lra.
  - apply ln_le_mono; assumption.
Qed.

Lemma math_log2_lt_mono x y : (0 < x)%R -> (x < y)%R -> (math_log2 x < math_log2 y)%R.
Proof.
  intros Hx Hxy. unfold math_log2, Rdiv. apply Rmult_lt_compat_r.
  - apply Rinv_0_lt_compat, ln_pos_gt1. lra.
  - apply ln_increasing; assumption.
Qed.

Lemma swin_bound_gt_1 : (1 < swin_bound)%R.
Proof.
  unfold swin_bound.
  pose proof (math_log2_pos 8 ltac:(lra)) as H8.
  pose proof (math_log2_lt_mono 8 9 ltac:(lra) ltac:(lra)) as H89.
  apply (Rmult_lt_reg_r (math_log2 8)); [exact H8|].
  unfold Rdiv. rewrite Rmult_assoc, Rinv_l by lra. lra.
Qed.

Lemma Rsign_pos x : (0 < x)%R -> Rsign x = 1%R.
Proof. intros Hx. unfold Rsign. destruct (Rlt_dec 0 x); [reflexivity|contradiction]. Qed.

Lemma Rsign_neg x : (x < 0)%R -> Rsign x = (-1)%R.
Proof.
  intros Hx. unfold Rsign. destruct (Rlt_dec 0 x); [lra|].
  destruct (Rlt_dec x 0); [reflexivity|contradiction].
Qed.

Lemma Rsign_0 : Rsign 0 = 0%R.
Proof.
  unfold Rsign. destruct (Rlt_dec 0 0); [lra|]. destruct (Rlt_dec 0 0); [lra|reflexivity].
Qed.

Lemma swin_real_pos X :
  (0 < X)%R -> swin_real X = (math_log2 (1 + X) / math_log2 8)%R.
Proof.
  intros HX. unfold swin_real. rewrite Rsign_pos, Rabs_pos_eq by lra.
  unfold Rdiv. ring.
Qed.

Lemma swin_real_neg X :
  (X < 0)%R -> swin_real X = (- (math_log2 (1 - X) / math_log2 8))%R.
Proof.
  intros HX. unfold swin_real. rewrite Rsign_neg, Rabs_left by lra.
  unfold Rdiv, Rminus. ring.
Qed.

Lemma swin_real_0 : swin_real 0 = 0%R.
Proof. unfold swin_real. rewrite Rsign_0. unfold Rdiv. ring. Qed.

Lemma swin_real_sign X : Rsign (swin_real X) = Rsign X.
Proof.
  pose proof (math_log2_pos 8 ltac:(lra)) as H8.
  destruct (Rtotal_order X 0) as [Hneg|[->|Hpos]].
  - rewrite swin_real_neg, (Rsign_neg X) by assumption. apply Rsign_neg.
    pose proof (math_log2_pos (1 - X) ltac:(lra)) as HL.
    pose proof (Rdiv_lt_0_compat _ _ HL H8). lra.
  - rewrite swin_real_0. reflexivity.
  - rewrite swin_real_pos, (Rsign_pos X) by assumption. apply Rsign_pos.
    pose proof (math_log2_pos (1 + X) ltac:(lra)) as HL.
    apply Rdiv_lt_0_compat; assumption.
Qed.

Lemma swin_real_bound X :
  (Rabs X <= 8)%R -> (Rabs (swin_real X) <= swin_bound)%R.
Proof.
  intros HX. pose proof (math_log2_pos 8 ltac:(lra)) as H8.
  assert (Hinv : (0 < / math_log2 8)%R) by (apply Rinv_0_lt_compat, H8).
  assert (Hmono : forall y, (0 <= y <= 8)%R ->
            (0 <= math_log2 (1 + y) / math_log2 8 <= swin_bound)%R).
  { intros y Hy. unfold swin_bound, Rdiv. split.
    - apply Rmult_le_pos; [apply math_log2_nonneg; lra | lra].
    - apply Rmult_le_compat_r; [lra|]. apply math_log2_le_mono; lra. }
  apply Rabs_le.
  destruct (Rtotal_order X 0) as [Hneg|[->|Hpos]].
  - rewrite swin_real_neg by assumption. rewrite Rabs_left in HX by assumption.
    replace (1 - X)%R with (1 + - X)%R by ring.
    pose proof (Hmono (- X)%R ltac:(lra)). lra.
  - rewrite swin_real_0. pose proof swin_bound_gt_1. lra.
  - rewrite swin_real_pos by assumption. rewrite Rabs_pos_eq in HX by lra.
    pose proof (Hmono X ltac:(lra)). lra.
Qed.

(** *** The squash on the entries of the table *)

Lemma fdiv_fin a b : b <> 0%R -> fdiv (Fin a) (Fin b) = Fin (a / b).
Proof. intros Hb. unfold fdiv. destruct (Req_dec_T b 0); [contradiction|reflexivity]. Qed.

Lemma fdiv_fin_0 a : fdiv (Fin a) (Fin 0) = inf_of_sign a.
Proof. unfold fdiv. destruct (Req_dec_T 0 0); [reflexivity|contradiction]. Qed.

Lemma flog2_fin r : (0 < r)%R -> flog2 (Fin r) = Fin (math_log2 r).
Proof. intros Hr. unfold flog2. destruct (Rlt_dec 0 r); [reflexivity|contradiction]. Qed.

Lemma swin_squash_fin n d :
  n <> 0 -> swin_squash n (f32_of_Z d) = Fin (swin_real (IZR d / IZR n * 8)).
Proof.
  intros Hn. unfold swin_squash, f32_of_Z. cbv zeta.
  rewrite fdiv_fin by (intros E; apply eq_IZR_R0 in E; contradiction).
  cbn [fmul fsign fabs fadd].
  set (y := (IZR d / IZR n * 8)%R). pose proof (Rabs_pos y) as Hy.
  rewrite flog2_fin by lra. cbn [fmul].
  pose proof (math_log2_pos 8 ltac:(lra)) as H8.
  rewrite fdiv_fin by lra. reflexivity.
Qed.

(** With a zero divisor no finite value comes out of the "swin" squash. *)
Lemma inf_of_sign_pos r : (0 < r)%R -> inf_of_sign r = PInf.
Proof. intros Hr. unfold inf_of_sign. destruct (Rlt_dec 0 r); [reflexivity|contradiction]. Qed.

Lemma inf_of_sign_neg r : (r < 0)%R -> inf_of_sign r = NInf.
Proof.
  intros Hr. unfold inf_of_sign. destruct (Rlt_dec 0 r); [lra|].
  destruct (Rlt_dec r 0); [reflexivity|contradiction].
Qed.

Lemma inf_of_sign_0 : inf_of_sign 0 = NaN.
Proof.
  unfold inf_of_sign. destruct (Rlt_dec 0 0); [lra|]. destruct (Rlt_dec 0 0); [lra|reflexivity].
Qed.

Lemma fdiv_inf_log2_8 :
  fdiv PInf (Fin (math_log2 8)) = PInf /\ fdiv NInf (Fin (math_log2 8)) = NInf.
Proof.
  pose proof (math_log2_pos 8 ltac:(lra)) as H8. unfold fdiv.
  destruct (Rlt_dec (math_log2 8) 0); [lra|]. split; reflexivity.
Qed.

Lemma swin_squash_zero_divisor d :
  swin_squash 0 (f32_of_Z d)
  = if d >? 0 then PInf else if d <? 0 then NInf else NaN.
Proof.
  destruct fdiv_inf_log2_8 as [Hp Hn].
  unfold swin_squash, f32_of_Z. cbv zeta. rewrite fdiv_fin_0.
  rewrite Z.gtb_ltb.
  destruct (Z.ltb_spec 0 d) as [Hpos|Hle].
  - apply IZR_lt in Hpos. rewrite inf_of_sign_pos by assumption.
    cbn [fmul]. rewrite inf_of_sign_pos by lra.
    cbn [fsign fabs fadd flog2 fmul]. rewrite inf_of_sign_pos by lra. exact Hp.
  - destruct (Z.ltb_spec d 0) as [Hneg|Hge].
    + apply IZR_lt in Hneg. rewrite inf_of_sign_neg by assumption.
      cbn [fmul]. rewrite inf_of_sign_neg by lra.
      cbn [fsign fabs fadd flog2 fmul]. rewrite inf_of_sign_neg by lra. exact Hn.
    + assert (d = 0) by lia. subst d. rewrite inf_of_sign_0. reflexivity.
Qed.

Lemma swin_squash_zero_divisor_not_finite d :
  ~ is_finite (swin_squash 0 (f32_of_Z d)).
Proof.
  rewrite swin_squash_zero_divisor. intros [r Hr].
  destruct (d >? 0); [discriminate|]. destruct (d <? 0); discriminate.
Qed.

(** An offset divided by the largest one and scaled to [-8, 8]. *)
Lemma normalised_offset n d :
  0 < n -> - n <= d <= n ->
  (Rabs (IZR d / IZR n * 8) <= 8)%R
  /\ Rsign (IZR d / IZR n * 8) = Rsign (IZR d)
  /\ (d = 0 -> (IZR d / IZR n * 8)%R = 0%R)
  /\ (d = n -> (IZR d / IZR n * 8)%R = 8%R).
Proof.
  intros Hn [Hlo Hhi].
  assert (HnR : (0 < IZR n)%R) by (apply IZR_lt; exact Hn).
  assert (Hq : (0 < / IZR n)%R) by (apply Rinv_0_lt_compat, HnR).
  assert (Hnq : (IZR n * / IZR n)%R = 1%R) by (apply Rinv_r; lra).
  apply IZR_le in Hlo, Hhi. rewrite opp_IZR in Hlo.
  unfold Rdiv. set (q := (/ IZR n)%R) in *.
  pose proof (Rmult_le_pos (IZR n - IZR d) q ltac:(lra) ltac:(lra)) as H1.
  pose proof (Rmult_le_pos (IZR d + IZR n) q ltac:(lra) ltac:(lra)) as H2.
  repeat split.
  - apply Rabs_le. lra.
  - destruct (Rtotal_order (IZR d) 0) as [Hneg|[Hz|Hpos]].
    + rewrite (Rsign_neg (IZR d)) by assumption. apply Rsign_neg.
      pose proof (Rmult_lt_0_compat (- IZR d) q ltac:(lra) Hq). lra.
    + rewrite Hz. f_equal. ring.
    + rewrite (Rsign_pos (IZR d)) by assumption. apply Rsign_pos.
      pose proof (Rmult_lt_0_compat (IZR d) q Hpos Hq). lra.
  - intros ->. ring.
  - intros ->. lra.
Qed.

(** log2(9) / log2(8) lies below 17/16, since 9^16 < 8^17. *)
Lemma swin_bound_le : (swin_bound <= 17 / 16)%R.
Proof.
  unfold swin_bound, math_log2.
  pose proof (ln_pos_gt1 2 ltac:(lra)) as H2.
  pose proof (ln_pos_gt1 8 ltac:(lra)) as H8.
  replace (ln 9 / ln 2 / (ln 8 / ln 2))%R with (ln 9 / ln 8)%R by (field; lra).
  apply (Rmult_le_reg_r (ln 8)); [exact H8|].
  unfold Rdiv at 1. rewrite Rmult_assoc, Rinv_l, Rmult_1_r by lra.
  assert (Hpow : (ln (9 ^ 16) <= ln (8 ^ 17))%R).
  { apply ln_le_mono.
    - apply pow_lt. lra.
    - rewrite !pow_IZR. apply IZR_le. vm_compute. discriminate. }
  rewrite !ln_pow in Hpow by lra.
  change (INR 16) with (IZR (Z.of_nat 16)) in Hpow || rewrite !INR_IZR_INZ in Hpow.
  change (IZR (Z.of_nat 16)) with 16%R in Hpow.
  change (IZR (Z.of_nat 17)) with 17%R in Hpow. lra.
Qed.

Lemma Rsign_same_mult a b : Rsign a = Rsign b -> (0 <= a * b)%R.
Proof.
  unfold Rsign.
  destruct (Rlt_dec 0 a), (Rlt_dec a 0), (Rlt_dec 0 b), (Rlt_dec b 0);
    intros E; try lra; nra.
Qed.

(** C4. For a window with both sides at least 2, no pretrained window
    and mode "swin", the call returns a (2h-1, 2w-1, 2) table of finite
    values.  Their magnitude is at most 17/16: the largest one is about
    log2(9) / log2(8) = 1.0566, above 1, and both coordinates of the last
    cell exceed 1.  The centre cell is (0, 0).  No coordinate has the sign
    opposite to its offset, and it has the sign of its offset as long as
    the side is at most 2^24, the range in which float32 holds every
    offset exactly and tells 1 + 8 / (side - 1) from 1. *)
Theorem swin_log_coords_range h w :
  2 <= h -> 2 <= w ->
  exists t,
    gen_relative_log_coords (h, w) (0, 0) "swin" = Ok t
    /\ length t = Z.to_nat (2 * h - 1)
    /\ Forall (fun row => length row = Z.to_nat (2 * w - 1)) t
    /\ (forall i j,
          (i < Z.to_nat (2 * h - 1))%nat -> (j < Z.to_nat (2 * w - 1))%nat ->
          exists x y,
            lookup2 t i j = Some (Fin x, Fin y)
            /\ (Rabs x <= 17 / 16)%R /\ (Rabs y <= 17 / 16)%R
            /\ (0 <= x * IZR (Z.of_nat i - (h - 1)))%R
            /\ (0 <= y * IZR (Z.of_nat j - (w - 1)))%R
            /\ (h <= 2 ^ 24 -> Rsign x = Rsign (IZR (Z.of_nat i - (h - 1))))
            /\ (w <= 2 ^ 24 -> Rsign y = Rsign (IZR (Z.of_nat j - (w - 1)))))
    /\ lookup2 t (Z.to_nat (h - 1)) (Z.to_nat (w - 1)) = Some (Fin 0, Fin 0)
    /\ exists x y,
        lookup2 t (Z.to_nat (2 * h - 2)) (Z.to_nat (2 * w - 2)) = Some (Fin x, Fin y)
        /\ (1 < x)%R /\ (1 < y)%R.
Proof.
  intros Hh Hw. eexists. split; [apply gen_relative_log_coords_swin; lia|].
  change (0 >? 0) with false. cbv iota.
  destruct (offset_table_shape h w (swin_squash (h - 1)) (swin_squash (w - 1)))
    as [Hlen Hrows].
  split; [exact Hlen|]. split; [exact Hrows|]. split; [|split].
  - intros i j Hi Hj. rewrite lookup2_offset_table by assumption.
    rewrite !swin_squash_fin by lia.
    destruct (normalised_offset (h - 1) (- (h - 1) + Z.of_nat i) ltac:(lia) ltac:(lia))
      as (Hbx & Hsx & _).
    destruct (normalised_offset (w - 1) (- (w - 1) + Z.of_nat j) ltac:(lia) ltac:(lia))
      as (Hby & Hsy & _).
    replace (Z.of_nat i - (h - 1)) with (- (h - 1) + Z.of_nat i) by lia.
    replace (Z.of_nat j - (w - 1)) with (- (w - 1) + Z.of_nat j) by lia.
    pose proof swin_bound_le as Hb.
    pose proof (swin_real_bound _ Hbx) as Hx. pose proof (swin_real_bound _ Hby) as Hy.
    assert (Ex : Rsign (swin_real (IZR (- (h - 1) + Z.of_nat i) / IZR (h - 1) * 8))
                 = Rsign (IZR (- (h - 1) + Z.of_nat i)))
      by (rewrite swin_real_sign; exact Hsx).
    assert (Ey : Rsign (swin_real (IZR (- (w - 1) + Z.of_nat j) / IZR (w - 1) * 8))
                 = Rsign (IZR (- (w - 1) + Z.of_nat j)))
      by (rewrite swin_real_sign; exact Hsy).
    eexists _, _. split; [reflexivity|].
    split; [lra|]. split; [lra|].
    split; [apply Rsign_same_mult, Ex|]. split; [apply Rsign_same_mult, Ey|].
    split; intros _; assumption.
  - rewrite lookup2_offset_table by lia. rewrite !swin_squash_fin by lia.
    destruct (normalised_offset (h - 1) (- (h - 1) + Z.of_nat (Z.to_nat (h - 1)))
                ltac:(lia) ltac:(lia)) as (_ & _ & Hx & _).
    destruct (normalised_offset (w - 1) (- (w - 1) + Z.of_nat (Z.to_nat (w - 1)))
                ltac:(lia) ltac:(lia)) as (_ & _ & Hy & _).
    rewrite Hx, Hy by lia. rewrite swin_real_0. reflexivity.
  - rewrite lookup2_offset_table by lia. rewrite !swin_squash_fin by lia.
    destruct (normalised_offset (h - 1) (- (h - 1) + Z.of_nat (Z.to_nat (2 * h - 2)))
                ltac:(lia) ltac:(lia)) as (_ & _ & _ & Hx).
    destruct (normalised_offset (w - 1) (- (w - 1) + Z.of_nat (Z.to_nat (2 * w - 2)))
                ltac:(lia) ltac:(lia)) as (_ & _ & _ & Hy).
    rewrite Hx, Hy by lia. rewrite swin_real_pos by lra.
    replace (1 + 8)%R with 9%R by ring.
    eexists _, _. split; [reflexivity|]. split; exact swin_bound_gt_1.
Qed.

Lemma swin_log_coords_range_witness :
  exists t,
    gen_relative_log_coords (2, 3) (0, 0) "swin" = Ok t
    /\ lookup2 t 1 2 = Some (Fin 0, Fin 0)
    /\ exists x y, lookup2 t 2 4 = Some (Fin x, Fin y) /\ (1 < x)%R /\ (1 < y)%R.
Proof.
  destruct (swin_log_coords_range 2 3 ltac:(lia) ltac:(lia))
    as (t & Ht & _ & _ & _ & Hc & Hm).
  exists t. split; [exact Ht|]. split; [exact Hc | exact Hm].
Defined.

(** For the (2, 2) window the last cell of the "swin" table lies above 1. *)
Lemma swin_log_coords_exceed_one :
  exists t x y,
    gen_relative_log_coords (2, 2) (0, 0) "swin" = Ok t
    /\ lookup2 t 2 2 = Some (Fin x, Fin y)
    /\ (1 < x)%R /\ (1 < y)%R.
Proof.
  eexists _, _, _. split; [apply gen_relative_log_coords_swin; lia|].
  change (0 >? 0) with false. cbv iota.
  split; [rewrite lookup2_offset_table by (simpl; lia);
          rewrite !swin_squash_fin by lia; reflexivity|].
  assert (E : (IZR (- (2 - 1) + Z.of_nat 2) / IZR (2 - 1) * 8)%R = 8%R).
  { change (- (2 - 1) + Z.of_nat 2) with 1. change (2 - 1) with 1. lra. }
  rewrite E, swin_real_pos by lra.
  replace (1 + 8)%R with 9%R by ring.
  split; exact swin_bound_gt_1.
Qed.

(** C6. A reference size of 1 is no error: for every window with positive
    sides, every pretrained window size and both modes the call returns a
    table of shape (2h-1, 2w-1, 2).  In "swin" mode an axis whose divisor
    is zero holds no finite value. *)
Theorem log_coords_never_reject h w ph pw mode :
  1 <= h -> 1 <= w -> mode = "swin"%string \/ mode = "cr"%string ->
  exists t,
    gen_relative_log_coords (h, w) (ph, pw) mode = Ok t
    /\ length t = Z.to_nat (2 * h - 1)
    /\ Forall (fun row => length row = Z.to_nat (2 * w - 1)) t
    /\ (mode = "swin"%string ->
        forall i j,
          (i < Z.to_nat (2 * h - 1))%nat -> (j < Z.to_nat (2 * w - 1))%nat ->
          exists c,
            lookup2 t i j = Some c
            /\ ((if ph >? 0 then ph else h) = 1 -> ~ is_finite (fst c))
            /\ ((if ph >? 0 then pw else w) = 1 -> ~ is_finite (snd c))).
Proof.
  intros Hh Hw [-> | ->].
  - eexists. split; [apply gen_relative_log_coords_swin; assumption|].
    destruct (offset_table_shape h w
                (swin_squash (if ph >? 0 then ph - 1 else h - 1))
                (swin_squash (if ph >? 0 then pw - 1 else w - 1))) as [Hlen Hrows].
    split; [exact Hlen|]. split; [exact Hrows|].
    intros _ i j Hi Hj. rewrite lookup2_offset_table by assumption.
    eexists. split; [reflexivity|]. cbn [fst snd].
    split; intros Hone.
    + replace (if ph >? 0 then ph - 1 else h - 1) with 0
        by (destruct (ph >? 0); lia).
      apply swin_squash_zero_divisor_not_finite.
    + replace (if ph >? 0 then pw - 1 else w - 1) with 0
        by (destruct (ph >? 0); lia).
      apply swin_squash_zero_divisor_not_finite.
  - eexists. split; [apply gen_relative_log_coords_cr; assumption|].
    destruct (offset_table_shape h w cr_squash cr_squash) as [Hlen Hrows].
    split; [exact Hlen|]. split; [exact Hrows|]. intros [=].
Qed.

Lemma log_coords_never_reject_witness :
  exists t,
    gen_relative_log_coords (1, 4) (0, 0) "swin" = Ok t
    /\ length t = 1%nat.
Proof.
  destruct (log_coords_never_reject 1 4 0 0 "swin" ltac:(lia) ltac:(lia)
              ltac:(left; reflexivity)) as (t & Ht & Hlen & _).
  exists t. split; [exact Ht | exact Hlen].
Defined.

(** With a window side of 1 (or a pretrained side of 1) the call returns
    in both modes; in "swin" mode the degenerate axis is NaN. *)
Lemma log_coords_reference_size_one_returns :
  gen_relative_log_coords (1, 1) (0, 0) "swin" = Ok [[(NaN, NaN)]]
  /\ (exists t, gen_relative_log_coords (1, 1) (0, 0) "cr" = Ok t)
  /\ (exists t, gen_relative_log_coords (2, 2) (1, 1) "swin" = Ok t)
  /\ (exists t, gen_relative_log_coords (2, 2) (1, 1) "cr" = Ok t).
Proof.
  split; [|split; [|split]].
  - rewrite gen_relative_log_coords_swin by lia.
    change (0 >? 0) with false. cbv iota. unfold offset_table.
    change (1 - 1) with 0. change (Z.to_nat (2 * 1 - 1)) with 1%nat.
    cbn [seq fmap list_fmap]. rewrite swin_squash_zero_divisor. reflexivity.
  - eexists. apply gen_relative_log_coords_cr; lia.
  - eexists. apply gen_relative_log_coords_swin; lia.
  - eexists. apply gen_relative_log_coords_cr; lia.
Qed.

(** ** The two bias heads: repeated calls *)

Lemma cr_squash_fin r : cr_squash (Fin r) = Fin (Rsign r * ln (1 + Rabs r)).
Proof.
  unfold cr_squash. cbn [fsign fabs fadd]. unfold flog.
  pose proof (Rabs_pos r). destruct (Rlt_dec 0 (1 + Rabs r)); [|lra]. reflexivity.
Qed.

(** In evaluation mode the projection ignores the generator. *)
Lemma linear_mlp_eval (self : LinearMLP.t) x g :
  LinearMLP.forward self false x g
  = (map2d (LinearMLP.fc2 self)
       (map2d (fun c => frelu <$> LinearMLP.fc1 self c) x), g).
Proof. reflexivity. Qed.

Lemma relpos_mlp_eval (self : RelPosMlp.t) g1 g2 :
  RelPosMlp.training self = false ->
  fst (RelPosMlp.get_bias self g1) = fst (RelPosMlp.get_bias self g2)
  /\ snd (RelPosMlp.get_bias self g1) = g1.
Proof.
  intros Hev. unfold RelPosMlp.get_bias. rewrite Hev, !linear_mlp_eval.
  split; reflexivity.
Qed.

(** C5. [RelPosBias.get_bias] reads the bias table, the index buffer and
    the bias shape and nothing else, so two calls on unchanged state
    agree; [RelPosMlp.get_bias] in evaluation mode returns the same
    result whatever the state of the random generator, leaves the
    generator as it found it, and so returns the same result twice. *)
Theorem get_bias_repeatable :
  (forall s1 s2 : RelPosBias.t,
      RelPosBias.relative_position_bias_table s1
      = RelPosBias.relative_position_bias_table s2 ->
      RelPosBias.relative_position_index s1 = RelPosBias.relative_position_index s2 ->
      RelPosBias.bias_shape s1 = RelPosBias.bias_shape s2 ->
      RelPosBias.get_bias s1 = RelPosBias.get_bias s2)
  /\ (forall (self : RelPosMlp.t) (g1 g2 : generator),
        RelPosMlp.training self = false ->
        fst (RelPosMlp.get_bias self g1) = fst (RelPosMlp.get_bias self g2)
        /\ snd (RelPosMlp.get_bias self g1) = g1
        /\ fst (get_bias_twice self g1) = snd (get_bias_twice self g1)).
Proof.
  split.
  - intros s1 s2 Htab Hidx Hshape. unfold RelPosBias.get_bias.
    rewrite Htab, Hidx, Hshape. reflexivity.
  - intros self g1 g2 Hev.
    destruct (relpos_mlp_eval self g1 g2 Hev) as [Hout Hgen].
    split; [exact Hout|]. split; [exact Hgen|].
    unfold get_bias_twice.
    destruct (RelPosMlp.get_bias self g1) as [first g] eqn:Hfirst.
    simpl in Hgen. subst g. rewrite Hfirst. reflexivity.
Qed.

Lemma get_bias_repeatable_witness :
  let self :=
    RelPosMlp.Build false (1, 1) 1 0 1 (1, 1, 1) (fun x => x) None
      (LinearMLP.Build [(Fin 0, Fin 0)] [Fin 1] [[Fin 1]] (Some [Fin 0]) 0.125)
      (T1 [0]) [[(Fin 0, Fin 0)]] in
  fst (get_bias_twice self keep_then_drop) = snd (get_bias_twice self keep_then_drop).
Proof.
  intros self.
  apply (proj2 get_bias_repeatable self keep_then_drop keep_then_drop).
  reflexivity.
Defined.

(** A freshly constructed RelPosMlp head is in training mode, and two
    calls in a row on it can return different tensors: the dropout inside
    the projection keeps the hidden unit in the first call and drops it
    in the second. *)
Lemma relpos_mlp_training_calls_differ :
  exists self first second,
    RelPosMlp.init (1, 1) 1 1 0 "cr" (0, 0)
      (fun _ => (Fin 0, Fin 0)) (fun _ => Fin 1) (fun _ _ => Fin 1) (fun _ => Fin 0)
    = Ok self
    /\ get_bias_twice self keep_then_drop = (Ok first, Ok second)
    /\ first <> second.
Proof.
  eexists _, _, _. split.
  { unfold RelPosMlp.init. change (String.eqb "cr" "swin") with false. cbv iota beta.
    unfold LinearMLP.init. change ((1 <? 0) || (1 <? 0)) with false. cbv iota.
    change (Z.to_nat 1) with 1%nat. cbn [seq fmap list_fmap snd bind].
    rewrite gen_relative_position_index_closed by lia.
    rewrite gen_relative_log_coords_cr by lia. cbn [bind snd fst].
    reflexivity. }
  split.
  { unfold get_bias_twice, RelPosMlp.get_bias.
    cbn [RelPosMlp.mlp RelPosMlp.training RelPosMlp.rel_coords_log
         RelPosMlp.relative_position_index RelPosMlp.bias_shape RelPosMlp.bias_act
         RelPosMlp.bias_gain RelPosMlp.prefix_tokens].
    unfold offset_table. change (Z.to_nat (2 * 1 - 1)) with 1%nat.
    cbn [seq fmap list_fmap]. unfold f32_of_Z. rewrite cr_squash_fin.
    cbv -[Rplus Rmult Rminus Rdiv Rinv Rmax Rsign ln Rabs IZR Ropp].
    reflexivity. }
  intros [= E]. revert E.
  generalize (Rsign 0 * ln (1 + Rabs 0))%R. intros c.
  unfold Rmax. destruct (Rle_dec 0 (c * 0 + c * 0 + 1)); lra.
Qed.

(** * Further properties *)

(** ** gen_relative_position_index with separate query and key sizes *)

Section offsets2_facts.
Variables hq wq hk wk : Z.
Hypothesis Hhq : 0 < hq.
Hypothesis Hwq : 0 < wq.
Hypothesis Hhk : 0 < hk.
Hypothesis Hwk : 0 < wk.

Local Abbreviation inr2 := (in_range2 hq wq hk wk).
Local Abbreviation rank2 := (offset_rank2 wq hk wk).

Lemma offsets2_sorted : StronglySorted row_lt (offsets2 hq wq hk wk).
Proof.
  apply fmap_seq_sorted. intros i j Hij. unfold row_lt. simpl.
  assert (HW : 0 < wq + wk - 1) by lia.
  pose proof (Z.div_mod (Z.of_nat i) (wq + wk - 1) ltac:(lia)) as Hi.
  pose proof (Z.div_mod (Z.of_nat j) (wq + wk - 1) ltac:(lia)) as Hj.
  pose proof (Z.mod_pos_bound (Z.of_nat i) (wq + wk - 1) HW) as Bi.
  pose proof (Z.mod_pos_bound (Z.of_nat j) (wq + wk - 1) HW) as Bj.
  destruct (Z.lt_trichotomy (Z.of_nat i / (wq + wk - 1)) (Z.of_nat j / (wq + wk - 1)))
    as [?|[Heq|?]]; [lia| |nia].
  right. split; [lia|]. rewrite Heq in Hi. lia.
Qed.

Lemma offset_rank2_bounds d :
  inr2 d -> 0 <= rank2 d < (hq + hk - 1) * (wq + wk - 1).
Proof. unfold in_range2, offset_rank2. intros [H1 H2]. nia. Qed.

Lemma lookup_offsets2 d :
  inr2 d -> offsets2 hq wq hk wk !! Z.to_nat (rank2 d) = Some d.
Proof.
  intros Hd. pose proof (offset_rank2_bounds d Hd) as Hb.
  unfold offsets2. rewrite list_lookup_fmap, lookup_seq_lt by lia. simpl.
  rewrite Z2Nat.id by lia. destruct Hd as [H1 H2]. destruct d as [dr dc].
  unfold offset_rank2 in *. simpl in *. f_equal.
  assert (HW : 0 < wq + wk - 1) by lia.
  rewrite <- (Z.div_unique_pos ((dr + hk - 1) * (wq + wk - 1) + (dc + wk - 1))
                (wq + wk - 1) (dr + hk - 1) (dc + wk - 1)) by lia.
  rewrite <- (Z.mod_unique_pos ((dr + hk - 1) * (wq + wk - 1) + (dc + wk - 1))
                (wq + wk - 1) (dr + hk - 1) (dc + wk - 1)) by lia.
  f_equal; lia.
Qed.

Lemma elem_of_offsets2 d : d ∈ offsets2 hq wq hk wk <-> inr2 d.
Proof.
  split.
  - unfold offsets2. intros Hd. apply list_elem_of_fmap in Hd as (i & -> & Hi).
    apply elem_of_seq in Hi. unfold in_range2. simpl.
    assert (HW : 0 < wq + wk - 1) by lia.
    pose proof (Z.div_mod (Z.of_nat i) (wq + wk - 1) ltac:(lia)) as Hdm.
    pose proof (Z.mod_pos_bound (Z.of_nat i) (wq + wk - 1) HW) as Bi.
    assert (Hlt : Z.of_nat i < (hq + hk - 1) * (wq + wk - 1)) by lia.
    assert (0 <= Z.of_nat i / (wq + wk - 1)) by (apply Z.div_pos; lia).
    assert (Z.of_nat i / (wq + wk - 1) < hq + hk - 1) by nia.
    lia.
  - intros Hd. eapply list_elem_of_lookup_2, lookup_offsets2, Hd.
Qed.

Lemma coord_diff2_in_range a b :
  (a < area hq wq)%nat -> (b < area hk wk)%nat -> inr2 (coord_diff2 wq wk a b).
Proof.
  intros Ha Hb.
  pose proof (coord_bounds hq wq Hhq Hwq a Ha). pose proof (coord_bounds hk wk Hhk Hwk b Hb).
  unfold in_range2, coord_diff2. simpl. lia.
Qed.

Lemma coord_diff2_onto d :
  inr2 d ->
  exists a b, (a < area hq wq)%nat /\ (b < area hk wk)%nat /\ coord_diff2 wq wk a b = d.
Proof.
  intros [H1 H2]. destruct d as [dr dc]. simpl in *.
  destruct (coord_of_cell hq wq Hhq Hwq (Z.max dr 0) (Z.max dc 0)) as (Ha & Har & Hac);
    [lia|lia|].
  destruct (coord_of_cell hk wk Hhk Hwk (Z.max (- dr) 0) (Z.max (- dc) 0))
    as (Hb & Hbr & Hbc); [lia|lia|].
  eexists _, _. split; [exact Ha|]. split; [exact Hb|].
  unfold coord_diff2. rewrite Har, Hac, Hbr, Hbc. f_equal; lia.
Qed.

Lemma unique_rows_offsets2 :
  unique_rows (table2 (area hq wq) (area hk wk) (coord_diff2 wq wk))
  = offsets2 hq wq hk wk.
Proof.
  apply sorted_ext; [apply unique_rows_sorted | apply offsets2_sorted |].
  intros d. rewrite elem_of_unique_rows, elem_of_table2, elem_of_offsets2. split.
  - intros (a & b & Ha & Hb & ->). apply coord_diff2_in_range; assumption.
  - intros Hd. destruct (coord_diff2_onto d Hd) as (a & b & Ha & Hb & <-). eauto.
Qed.

Lemma index_of_offsets2 d :
  inr2 d -> Z.of_nat (index_of d (offsets2 hq wq hk wk)) = rank2 d.
Proof.
  intros Hd. rewrite (index_of_lookup _ (Z.to_nat (rank2 d))).
  - apply Z2Nat.id. apply offset_rank2_bounds, Hd.
  - apply offsets2_sorted.
  - apply lookup_offsets2, Hd.
Qed.

End offsets2_facts.

Lemma view_rows_relative n m (qr qc kr kc : nat -> Z) :
  view_rows (permute_120
               (relative_coords_of (qr <$> seq 0 n, qc <$> seq 0 n)
                                   (kr <$> seq 0 m, kc <$> seq 0 m)))
  = Ok (table2 n m (fun a b => (qr a - kr b, qc a - kc b))).
Proof. unfold view_rows. rewrite relative_rows. reflexivity. Qed.

(** The call with both sizes given and no prefix token, for sides that
    are not negative. *)
Lemma gen_two_windows_nonneg hq wq hk wk :
  0 <= hq -> 0 <= wq -> 0 <= hk -> 0 <= wk ->
  gen_relative_position_index (hq, wq) (Some (hk, wk)) false
  = Ok (snd (unique_dim0
               (table2 (area hq wq) (area hk wk) (coord_diff2 wq wk)))).
Proof.
  intros Hhq Hwq Hhk Hwk. unfold gen_relative_position_index.
  rewrite !grid_coords_linear by assumption. cbn [bind].
  rewrite view_rows_relative. reflexivity.
Qed.

(** Whatever goes wrong in the call is a RuntimeError of a primitive. *)
Lemma gen_relative_position_index_err q k ct e :
  gen_relative_position_index q k ct = Err e -> e = RuntimeError.
Proof.
  destruct ct; [rewrite class_token_raises; congruence|].
  unfold gen_relative_position_index.
  destruct (grid_coords q) as [qc|e1] eqn:Hq; simpl;
    [|intros [= <-]; apply grid_coords_err in Hq; exact Hq].
  destruct k as [ks|]; simpl.
  - destruct (grid_coords ks) as [kc|e1] eqn:Hk; simpl;
      [|intros [= <-]; apply grid_coords_err in Hk; exact Hk].
    discriminate.
  - discriminate.
Qed.

(** X1. The call returns exactly when [class_token] is off and no side
    of the query window, or of the key window when one is given, is
    negative; in every other case it raises a RuntimeError.  A window
    with a side of extent 0 is accepted and gets the empty index. *)
Theorem gen_relative_position_index_domain q_size k_size class_token :
  ((exists t, gen_relative_position_index q_size k_size class_token = Ok t)
   <-> class_token = false /\ sides_nonneg q_size k_size)
  /\ ((forall t, gen_relative_position_index q_size k_size class_token <> Ok t)
      -> gen_relative_position_index q_size k_size class_token = Err RuntimeError)
  /\ (class_token = false -> sides_nonneg q_size k_size ->
      fst q_size = 0 \/ snd q_size = 0 ->
      gen_relative_position_index q_size k_size class_token = Ok (T1 [])).
Proof.
  split; [|split].
  2:{ intros Hno.
      destruct (gen_relative_position_index q_size k_size class_token) as [t|e] eqn:Hg.
      - exfalso. apply (Hno t). reflexivity.
      - f_equal. eapply gen_relative_position_index_err, Hg. }
  2:{ intros -> Hs Hz. destruct q_size as [hq wq]. unfold sides_nonneg in Hs.
      cbn [fst snd] in Hs, Hz. destruct Hs as (Hhq & Hwq & Hk).
      pose proof (proj2 (area_zero hq wq Hhq Hwq) Hz) as Ha.
      destruct k_size as [[hk wk]|].
      - cbn [fst snd] in Hk. destruct Hk as [Hhk Hwk].
        rewrite gen_two_windows_nonneg by assumption. rewrite Ha. reflexivity.
      - rewrite gen_relative_position_index_closed_nonneg by assumption.
        rewrite index_closed_empty by exact Ha. reflexivity. }
  destruct q_size as [hq wq]. unfold sides_nonneg. cbn [fst snd]. split.
  - intros [t Ht]. destruct class_token; [rewrite class_token_raises in Ht; discriminate|].
    split; [reflexivity|].
    assert (Hq : 0 <= hq /\ 0 <= wq).
    { destruct (Z.ltb_spec hq 0); [|destruct (Z.ltb_spec wq 0); [|lia]];
        unfold gen_relative_position_index in Ht;
        rewrite grid_coords_neg in Ht by lia; discriminate. }
    destruct Hq as [Hhq Hwq]. split; [assumption|]. split; [assumption|].
    destruct k_size as [[hk wk]|]; [|exact I]. cbn [fst snd].
    destruct (Z.ltb_spec hk 0); [|destruct (Z.ltb_spec wk 0); [|lia]];
      unfold gen_relative_position_index in Ht;
      rewrite (grid_coords_linear hq wq) in Ht by assumption;
      cbn [bind] in Ht; rewrite (grid_coords_neg hk wk) in Ht by lia; discriminate.
  - intros (-> & Hhq & Hwq & Hk). destruct k_size as [[hk wk]|].
    + cbn [fst snd] in Hk. destruct Hk as [Hhk Hwk].
      rewrite gen_two_windows_nonneg by lia. eauto.
    + rewrite gen_relative_position_index_closed_nonneg by assumption. eauto.
Qed.

Lemma gen_relative_position_index_domain_witness :
  gen_relative_position_index (0, 3) None false = Ok (T1 [])
  /\ gen_relative_position_index (2, 3) (Some (3, -1)) false = Err RuntimeError.
Proof.
  split.
  - apply (proj2 (proj2 (gen_relative_position_index_domain (0, 3) None false)));
      [reflexivity | unfold sides_nonneg; cbn; repeat split; lia | left; reflexivity].
  - apply (proj1 (proj2 (gen_relative_position_index_domain (2, 3) (Some (3, -1)) false))).
    intros t Ht.
    destruct (proj1 (proj1 (gen_relative_position_index_domain (2, 3) (Some (3, -1)) false))
                (ex_intro _ t Ht)) as (_ & _ & _ & _ & Hpos).
    simpl in Hpos. lia.
Defined.

(** X2. For a query window (hq, wq) and a key window (hk, wk) with
    positive sides and no prefix token the call returns one class id per
    (query, key) pair, row by row: the pair with coordinate difference
    (dr, dc) gets (dr + hk - 1) * (wq + wk - 1) + (dc + wk - 1), and the
    ids used are exactly 0 .. (hq + hk - 1)(wq + wk - 1) - 1. *)
Theorem index_table_two_windows hq wq hk wk :
  0 < hq -> 0 < wq -> 0 < hk -> 0 < wk ->
  exists v,
    gen_relative_position_index (hq, wq) (Some (hk, wk)) false = Ok (T1 v)
    /\ length v = (area hq wq * area hk wk)%nat
    /\ (forall a b dr dc,
          (a < area hq wq)%nat -> (b < area hk wk)%nat ->
          coord_diff2 wq wk a b = (dr, dc) ->
          v !! (a * area hk wk + b)%nat
          = Some ((dr + hk - 1) * (wq + wk - 1) + (dc + wk - 1)))
    /\ (forall x, x ∈ v <-> 0 <= x < (hq + hk - 1) * (wq + wk - 1)).
Proof.
  intros Hhq Hwq Hhk Hwk.
  exists (table2 (area hq wq) (area hk wk)
            (fun a b => offset_rank2 wq hk wk (coord_diff2 wq wk a b))).
  assert (Hidx : forall a b, (a < area hq wq)%nat -> (b < area hk wk)%nat ->
            Z.of_nat (index_of (coord_diff2 wq wk a b) (offsets2 hq wq hk wk))
            = offset_rank2 wq hk wk (coord_diff2 wq wk a b)).
  { intros a b Ha Hb. apply index_of_offsets2; [assumption..|].
    apply coord_diff2_in_range; assumption. }
  split; [|split; [|split]].
  - rewrite gen_two_windows_nonneg by lia.
    unfold unique_dim0. cbn [snd]. do 2 f_equal.
    rewrite unique_rows_offsets2 by assumption. rewrite fmap_table2.
    apply table2_ext. exact Hidx.
  - apply length_table2.
  - intros a b dr dc Ha Hb Hd.
    rewrite (lookup_table2 _ _
               (fun a b => offset_rank2 wq hk wk (coord_diff2 wq wk a b)))
      by assumption.
    rewrite Hd. reflexivity.
  - intros x. rewrite elem_of_table2. split.
    + intros (a & b & Ha & Hb & ->).
      apply offset_rank2_bounds; [assumption..|]. apply coord_diff2_in_range; assumption.
    + intros Hx.
      assert (Hd : in_range2 hq wq hk wk
                     (x / (wq + wk - 1) - (hk - 1), x mod (wq + wk - 1) - (wk - 1))).
      { apply elem_of_offsets2; [assumption..|]. unfold offsets2.
        apply list_elem_of_fmap. exists (Z.to_nat x). rewrite Z2Nat.id by lia.
        split; [reflexivity|]. apply elem_of_seq. lia. }
      destruct (coord_diff2_onto hq wq hk wk Hhq Hwq Hhk Hwk _ Hd) as (a & b & Ha & Hb & Hab).
      exists a, b. split; [assumption|]. split; [assumption|].
      rewrite Hab. unfold offset_rank2. simpl.
      pose proof (Z.div_mod x (wq + wk - 1) ltac:(lia)). lia.
Qed.

Lemma index_table_two_windows_witness :
  exists v,
    gen_relative_position_index (2, 2) (Some (1, 3)) false = Ok (T1 v)
    /\ length v = 12%nat
    /\ v !! 0%nat = Some 2.
Proof.
  destruct (index_table_two_windows 2 2 1 3 ltac:(lia) ltac:(lia) ltac:(lia) ltac:(lia))
    as (v & Hv & Hlen & Hent & _).
  exists v. split; [exact Hv|]. split; [exact Hlen|].
  apply (Hent 0%nat 0%nat 0 0); [vm_compute; lia | vm_compute; lia | reflexivity].
Defined.

(** X3. In the table of one window the class ids of a pair and of the
    reversed pair add up to the largest id, (2h-1)(2w-1) - 1, and every
    pair of a position with itself carries the middle id,
    (h-1)(2w-1) + (w-1). *)
Theorem index_table_mirror h w :
  0 < h -> 0 < w ->
  exists t,
    gen_relative_position_index (h, w) None false = Ok t
    /\ (forall a b, (a < area h w)%nat -> (b < area h w)%nat ->
          exists u v,
            pair_entry t (area h w) a b = Some u
            /\ pair_entry t (area h w) b a = Some v
            /\ u + v = (2 * h - 1) * (2 * w - 1) - 1)
    /\ (forall a, (a < area h w)%nat ->
          pair_entry t (area h w) a a = Some ((h - 1) * (2 * w - 1) + (w - 1))).
Proof.
  intros Hh Hw. exists (T1 (index_closed h w)).
  split; [apply gen_relative_position_index_closed; assumption|]. split.
  - intros a b Ha Hb. eexists _, _.
    split; [apply pair_entry_closed; assumption|].
    split; [apply pair_entry_closed; assumption|].
    unfold offset_rank, coord_diff. cbn [fst snd]. ring.
  - intros a Ha. rewrite pair_entry_closed by assumption. f_equal.
    unfold offset_rank, coord_diff. cbn [fst snd]. ring.
Qed.

Lemma index_table_mirror_witness :
  exists t,
    gen_relative_position_index (2, 2) None false = Ok t
    /\ pair_entry t 4 1 1 = Some 4.
Proof.
  destruct (index_table_mirror 2 2 ltac:(lia) ltac:(lia)) as (t & Ht & _ & Hdiag).
  exists t. split; [exact Ht|]. apply (Hdiag 1%nat). vm_compute. lia.
Defined.

(** ** RelPosBias: construction and the bias it returns *)

Lemma concat_concat {A : Type} (groups : list (list (list A))) :
  concat (concat groups) = concat (@concat A <$> groups).
Proof.
  induction groups as [|g groups IH]; [reflexivity|].
  rewrite fmap_cons. cbn [concat]. rewrite concat_app, IH. reflexivity.
Qed.

Lemma chunks_concat {A : Type} n (ls : list (list A)) :
  Forall (fun l => length l = n) ls -> chunks n (length ls) (concat ls) = ls.
Proof.
  induction 1 as [|l ls Hl _ IH]; [reflexivity|].
  cbn [length chunks concat].
  rewrite take_app_length' by (symmetry; exact Hl).
  rewrite drop_app_length' by (symmetry; exact Hl).
  rewrite IH. reflexivity.
Qed.

(** Reshaping the rows of a (d0, d1, d2) tensor gives the tensor back. *)
Lemma view3_grid {A : Type} (d0 d1 d2 : Z) (groups : list (list (list A))) :
  0 <= d0 -> 0 <= d1 -> 0 <= d2 ->
  shape3 (Z.to_nat d0) (Z.to_nat d1) (Z.to_nat d2) groups ->
  view3 (d0, d1, d2) (concat groups) = Ok groups.
Proof.
  intros H0 H1 H2 [Hlen Hall]. unfold view3.
  destruct (Z.ltb_spec d0 0); [lia|]. destruct (Z.ltb_spec d1 0); [lia|].
  destruct (Z.ltb_spec d2 0); [lia|]. cbn [orb].
  assert (Hflat : Forall (fun l => length l = (Z.to_nat d1 * Z.to_nat d2)%nat)
                    (@concat A <$> groups)).
  { apply Forall_fmap. eapply Forall_impl; [exact Hall|]. intros g [Hg Hcells]. simpl.
    rewrite (length_concat_uniform (Z.to_nat d2)) by exact Hcells. rewrite Hg. reflexivity. }
  rewrite concat_concat.
  rewrite (length_concat_uniform _ _ Hflat), length_fmap, Hlen.
  replace (Z.of_nat (Z.to_nat d0 * (Z.to_nat d1 * Z.to_nat d2)) =? d0 * d1 * d2)
    with true by (symmetry; apply Z.eqb_eq; nia).
  cbn [negb]. f_equal.
  rewrite <- Hlen, <- (length_fmap (@concat A) groups), chunks_concat by exact Hflat.
  rewrite <- list_fmap_compose. rewrite <- (list_fmap_id groups) at 2.
  apply list_fmap_ext. intros i g Hg. simpl.
  rewrite Forall_forall in Hall.
  destruct (Hall g (list_elem_of_lookup_2 _ _ _ Hg)) as [Hgl Hcells].
  rewrite <- Hgl. apply chunks_concat, Hcells.
Qed.

Lemma lookup3_grid {A : Type} (f : nat -> nat -> nat -> A) d0 d1 d2 c a b :
  (c < d0)%nat -> (a < d1)%nat -> (b < d2)%nat ->
  lookup3 ((fun c => (fun a => f c a <$> seq 0 d2) <$> seq 0 d1) <$> seq 0 d0) c a b
  = Some (f c a b).
Proof.
  intros Hc Ha Hb. unfold lookup3.
  rewrite list_lookup_fmap, lookup_seq_lt by exact Hc. simpl.
  rewrite list_lookup_fmap, lookup_seq_lt by exact Ha. simpl.
  rewrite list_lookup_fmap, lookup_seq_lt by exact Hb. reflexivity.
Qed.

Lemma shape3_grid {A : Type} (f : nat -> nat -> nat -> A) d0 d1 d2 :
  shape3 d0 d1 d2 ((fun c => (fun a => f c a <$> seq 0 d2) <$> seq 0 d1) <$> seq 0 d0).
Proof.
  split; [rewrite length_fmap; apply length_seq|].
  apply Forall_fmap, Forall_forall. intros c _. simpl.
  split; [rewrite length_fmap; apply length_seq|].
  apply Forall_fmap, Forall_forall. intros a _. simpl.
  rewrite length_fmap. apply length_seq.
Qed.

(** Gathering cells by a rectangular index, reshaping to (n, m, heads)
    and moving the head axis to the front. *)
Lemma gather_view_permute (cells : list (list f32)) (n m : nat) (heads : Z)
  (cid : nat -> nat -> Z) :
  0 <= heads ->
  (forall a b, (a < n)%nat -> (b < m)%nat -> 0 <= cid a b < Z.of_nat (length cells)) ->
  Forall (fun cell => length cell = Z.to_nat heads) cells ->
  exists g r,
    index_select cells (table2 n m cid) = Ok g
    /\ view3 (Z.of_nat n, Z.of_nat m, heads) g = Ok r
    /\ permute_201 (Z.to_nat heads) r
       = (fun c => (fun a => (fun b => nth c (nth (Z.to_nat (cid a b)) cells []) (Fin 0))
                               <$> seq 0 m) <$> seq 0 n) <$> seq 0 (Z.to_nat heads).
Proof.
  intros Hheads Hcid Hcells. eexists _, _.
  split.
  { apply (index_select_in_bounds []).
    intros i Hi. apply elem_of_table2 in Hi as (a & b & Ha & Hb & ->). auto. }
  rewrite fmap_table2. unfold table2 at 1. split.
  { apply view3_grid; [lia | lia | assumption |].
    rewrite !Nat2Z.id. split; [rewrite length_fmap; apply length_seq|].
    apply Forall_fmap, Forall_forall. intros a Ha. apply elem_of_seq in Ha. simpl.
    split; [rewrite length_fmap; apply length_seq|].
    apply Forall_fmap, Forall_forall. intros b Hb. apply elem_of_seq in Hb. simpl.
    rewrite Forall_forall in Hcells. apply Hcells.
    apply list_elem_of_In, nth_In. specialize (Hcid a b ltac:(lia) ltac:(lia)). lia. }
  unfold permute_201, map2d.
  apply list_fmap_ext. intros _ c _. simpl.
  rewrite <- list_fmap_compose. apply list_fmap_ext. intros _ a _. simpl.
  rewrite <- list_fmap_compose. reflexivity.
Qed.

(** What the constructor stores when it returns. *)
Lemma relpos_bias_init_ok h w num_heads prefix_tokens sample :
  prefix_tokens <= 0 -> 0 <= h -> 0 <= w -> 0 <= num_heads ->
  0 <= (2 * h - 1) * (2 * w - 1) + 3 * prefix_tokens ->
  RelPosBias.init (h, w) num_heads prefix_tokens sample
  = Ok (RelPosBias.Build (h, w) (h * w)
          (h * w + prefix_tokens, h * w + prefix_tokens, num_heads)
          (trunc_normal_ sample
             (replicate (Z.to_nat ((2 * h - 1) * (2 * w - 1) + 3 * prefix_tokens))
                (replicate (Z.to_nat num_heads) (Fin 0))))
          (T1 (index_closed h w))).
Proof.
  intros Hp Hh Hw Hn HK. unfold RelPosBias.init.
  destruct (Z.leb_spec prefix_tokens 1); [|lia]. cbn [negb fst snd].
  unfold zeros2.
  destruct (Z.ltb_spec ((2 * h - 1) * (2 * w - 1) + 3 * prefix_tokens) 0); [lia|].
  destruct (Z.ltb_spec num_heads 0); [lia|]. cbn [orb bind].
  replace (prefix_tokens >? 0) with false by (symmetry; rewrite Z.gtb_ltb; apply Z.ltb_ge; lia).
  rewrite gen_relative_position_index_closed_nonneg by assumption. reflexivity.
Qed.

Lemma relpos_bias_init_many h w num_heads prefix_tokens sample :
  1 < prefix_tokens ->
  RelPosBias.init (h, w) num_heads prefix_tokens sample = Err AssertionError.
Proof.
  intros Hp. unfold RelPosBias.init.
  destruct (Z.leb_spec prefix_tokens 1); [lia|]. reflexivity.
Qed.

Lemma relpos_bias_init_returns h w num_heads prefix_tokens sample self :
  RelPosBias.init (h, w) num_heads prefix_tokens sample = Ok self ->
  prefix_tokens <= 0 /\ 0 <= h /\ 0 <= w /\ 0 <= num_heads
  /\ 0 <= (2 * h - 1) * (2 * w - 1) + 3 * prefix_tokens.
Proof.
  intros Hself.
  assert (Hp : prefix_tokens <= 0).
  { destruct (Z.lt_trichotomy prefix_tokens 1) as [?|[E|?]]; [lia| |].
    - subst. rewrite relpos_bias_init_one in Hself. discriminate.
    - rewrite relpos_bias_init_many in Hself by assumption. discriminate. }
  split; [exact Hp|]. unfold RelPosBias.init in Hself.
  destruct (negb (prefix_tokens <=? 1)); [discriminate|]. cbn [fst snd] in Hself.
  destruct (zeros2 _ num_heads) as [table|e] eqn:Hz; [|discriminate].
  apply zeros2_ok in Hz as (HK & Hn & _). cbn [bind] in Hself.
  replace (prefix_tokens >? 0) with false in Hself
    by (symmetry; rewrite Z.gtb_ltb; apply Z.ltb_ge; lia).
  destruct (gen_relative_position_index (h, w) None false) as [t|e] eqn:Hg;
    [|discriminate].
  apply gen_relative_position_index_returns in Hg. tauto.
Qed.

(** X4. The constructor returns exactly when prefix_tokens is at most 0,
    no window side is negative, num_heads is not negative and the bias
    table has a non-negative number of rows, (2h-1)(2w-1) + 3 *
    prefix_tokens; with prefix_tokens = 0 these are the windows with
    positive sides and the window (0, 0).  With prefix_tokens = 1 it
    always raises a RuntimeError (the index generator does), and with a
    larger prefix_tokens the assertion fails. *)
Theorem relpos_bias_init_domain h w num_heads prefix_tokens sample :
  ((exists self, RelPosBias.init (h, w) num_heads prefix_tokens sample = Ok self)
   <-> prefix_tokens <= 0 /\ 0 <= h /\ 0 <= w /\ 0 <= num_heads
       /\ 0 <= (2 * h - 1) * (2 * w - 1) + 3 * prefix_tokens)
  /\ (prefix_tokens = 0 ->
      (exists self, RelPosBias.init (h, w) num_heads prefix_tokens sample = Ok self)
      <-> 0 <= num_heads /\ ((0 < h /\ 0 < w) \/ (h = 0 /\ w = 0)))
  /\ (prefix_tokens = 1 ->
      RelPosBias.init (h, w) num_heads prefix_tokens sample = Err RuntimeError)
  /\ (1 < prefix_tokens ->
      RelPosBias.init (h, w) num_heads prefix_tokens sample = Err AssertionError).
Proof.
  assert (Hdom : (exists self,
                     RelPosBias.init (h, w) num_heads prefix_tokens sample = Ok self)
                 <-> prefix_tokens <= 0 /\ 0 <= h /\ 0 <= w /\ 0 <= num_heads
                     /\ 0 <= (2 * h - 1) * (2 * w - 1) + 3 * prefix_tokens).
  { split.
    - intros [self Hself]. eapply relpos_bias_init_returns, Hself.
    - intros (Hp & Hh & Hw & Hn & HK). eexists.
      apply relpos_bias_init_ok; assumption. }
  split; [exact Hdom|]. split; [|split].
  - intros Hp. rewrite Hdom. subst prefix_tokens. split.
    + intros (_ & Hh & Hw & Hn & HK). split; [exact Hn|]. nia.
    + intros (Hn & [[Hh Hw]|[-> ->]]); repeat split; try lia; nia.
  - intros ->. apply relpos_bias_init_one.
  - apply relpos_bias_init_many.
Qed.

Lemma relpos_bias_init_domain_witness :
  RelPosBias.init (3, 3) 4 1 (fun _ _ => Fin 0) = Err RuntimeError
  /\ RelPosBias.init (3, 3) 4 2 (fun _ _ => Fin 0) = Err AssertionError
  /\ exists self, RelPosBias.init (0, 0) 4 0 (fun _ _ => Fin 0) = Ok self.
Proof.
  split; [|split].
  - apply (proj1 (proj2 (proj2 (relpos_bias_init_domain 3 3 4 1 (fun _ _ => Fin 0))))).
    reflexivity.
  - apply (proj2 (proj2 (proj2 (relpos_bias_init_domain 3 3 4 2 (fun _ _ => Fin 0))))).
    lia.
  - apply (proj1 (proj2 (relpos_bias_init_domain 0 0 4 0 (fun _ _ => Fin 0))));
      [reflexivity|]. split; [lia|]. right. split; reflexivity.
Defined.

(** The bias returned by a constructed head without prefix token, cell by
    cell. *)
Lemma relpos_bias_get_bias_closed h w num_heads sample self :
  RelPosBias.init (h, w) num_heads 0 sample = Ok self ->
  0 <= h /\ 0 <= w /\ 0 <= num_heads
  /\ RelPosBias.relative_position_index self = T1 (index_closed h w)
  /\ length (RelPosBias.relative_position_bias_table self)
     = Z.to_nat ((2 * h - 1) * (2 * w - 1))
  /\ Forall (fun row => length row = Z.to_nat num_heads)
       (RelPosBias.relative_position_bias_table self)
  /\ RelPosBias.get_bias self
     = Ok [(fun c =>
              (fun a =>
                 (fun b =>
                    nth c (nth (Z.to_nat (offset_rank h w (coord_diff w a b)))
                             (RelPosBias.relative_position_bias_table self) [])
                      (Fin 0))
                   <$> seq 0 (area h w)) <$> seq 0 (area h w))
             <$> seq 0 (Z.to_nat num_heads)].
Proof.
  intros Hinit.
  destruct (relpos_bias_init_returns _ _ _ _ _ _ Hinit) as (_ & Hh & Hw & Hn & HK).
  rewrite relpos_bias_init_ok in Hinit by (try assumption; lia).
  injection Hinit as <-.
  cbn [RelPosBias.relative_position_index RelPosBias.relative_position_bias_table].
  replace ((2 * h - 1) * (2 * w - 1) + 3 * 0) with ((2 * h - 1) * (2 * w - 1)) by lia.
  destruct (trunc_normal_shape sample (Z.to_nat ((2 * h - 1) * (2 * w - 1)))
              (Z.to_nat num_heads)) as [Hlen Hrows].
  set (table := trunc_normal_ sample _) in *.
  repeat (split; [assumption || reflexivity|]).
  unfold RelPosBias.get_bias.
  cbn [RelPosBias.relative_position_index RelPosBias.relative_position_bias_table
       RelPosBias.bias_shape view_flat snd].
  destruct (gather_view_permute table (area h w) (area h w) num_heads
              (fun a b => offset_rank h w (coord_diff w a b)) Hn)
    as (g & r & Hsel & Hview & Hperm); [|exact Hrows|].
  { intros a b Ha Hb. rewrite Hlen.
    assert (Hpos : 0 < h /\ 0 < w) by (unfold area in Ha; nia).
    destruct Hpos as [Hh' Hw'].
    assert (0 <= offset_rank h w (coord_diff w a b) < (2 * h - 1) * (2 * w - 1))
      by (apply offset_rank_bounds; [assumption..|];
          apply coord_diff_in_range; assumption).
    lia. }
  unfold index_closed.
  replace (h * w + 0) with (Z.of_nat (area h w)) by (unfold area; nia).
  rewrite Hsel. cbn [bind]. rewrite Hview. cbn [bind]. rewrite Hperm. reflexivity.
Qed.

(** C10. No RelPosBias instance with a prefix token exists to read a
    bias from: with prefix_tokens = 1 the constructor raises, for every
    window, number of heads and initial table, because the index generator
    it calls with [class_token] set raises.  In every instance constructed
    with prefix_tokens = 0 the entries of the index buffer lie in
    [0, (2h-1)(2w-1)) and [get_bias] returns. *)
Theorem relpos_bias_prefix_token_raises h w num_heads sample :
  RelPosBias.init (h, w) num_heads 1 sample = Err RuntimeError
  /\ forall self,
      RelPosBias.init (h, w) num_heads 0 sample = Ok self ->
      Forall (fun v => 0 <= v < (2 * h - 1) * (2 * w - 1))
        (view_flat (RelPosBias.relative_position_index self))
      /\ exists bias, RelPosBias.get_bias self = Ok bias.
Proof.
  split; [apply relpos_bias_init_one|].
  intros self Hinit.
  destruct (relpos_bias_get_bias_closed _ _ _ _ _ Hinit)
    as (Hh & Hw & _ & Hidx & _ & _ & Hbias).
  split; [|eauto].
  rewrite Hidx. cbn [view_flat]. apply Forall_forall. intros v Hv.
  destruct (decide (h = 0 \/ w = 0)) as [Hz|Hz].
  - rewrite index_closed_empty in Hv by (apply area_zero; assumption).
    inversion Hv.
  - apply elem_of_index_closed in Hv; [exact Hv|lia|lia].
Qed.

Lemma relpos_bias_prefix_token_raises_witness :
  RelPosBias.init (2, 2) 3 1 (fun _ _ => Fin 0) = Err RuntimeError
  /\ exists self,
      RelPosBias.init (2, 2) 3 0 (fun _ _ => Fin 0) = Ok self
      /\ Forall (fun v => 0 <= v < (2 * 2 - 1) * (2 * 2 - 1))
           (view_flat (RelPosBias.relative_position_index self))
      /\ exists bias, RelPosBias.get_bias self = Ok bias.
Proof.
  split; [apply (proj1 (relpos_bias_prefix_token_raises 2 2 3 (fun _ _ => Fin 0)))|].
  eexists. split; [vm_compute; reflexivity|].
  apply (proj2 (relpos_bias_prefix_token_raises 2 2 3 (fun _ _ => Fin 0))).
  vm_compute. reflexivity.
Defined.

(** X5. For a head constructed without prefix token, [get_bias] returns
    a tensor of shape (1, num_heads, h*w, h*w) whose entry [0, c, a, b]
    is the bias table entry [index[a, b], c]: the row of the table
    selected by the class id of the pair, read at head [c]. *)
Theorem relpos_bias_entries h w num_heads sample self :
  RelPosBias.init (h, w) num_heads 0 sample = Ok self ->
  exists bias out,
    RelPosBias.get_bias self = Ok bias
    /\ bias = [out]
    /\ shape3 (Z.to_nat num_heads) (area h w) (area h w) out
    /\ forall c a b,
        (c < Z.to_nat num_heads)%nat -> (a < area h w)%nat -> (b < area h w)%nat ->
        exists k v,
          pair_entry (RelPosBias.relative_position_index self) (area h w) a b = Some k
          /\ table_entry (RelPosBias.relative_position_bias_table self) k c = Some v
          /\ bias_entry bias c a b = Some v.
Proof.
  intros Hinit.
  destruct (relpos_bias_get_bias_closed _ _ _ _ _ Hinit)
    as (Hh & Hw & Hn & Hidx & Hlen & Hrows & Hbias).
  eexists _, _. split; [exact Hbias|]. split; [reflexivity|].
  split; [apply shape3_grid|].
  intros c a b Hc Ha Hb. rewrite Hidx.
  set (table := RelPosBias.relative_position_bias_table self) in *.
  set (k := offset_rank h w (coord_diff w a b)).
  assert (Hpos : 0 < h /\ 0 < w) by (unfold area in Ha; nia).
  destruct Hpos as [Hh' Hw'].
  assert (Hk : 0 <= k < (2 * h - 1) * (2 * w - 1))
    by (apply offset_rank_bounds; [assumption..|];
        apply coord_diff_in_range; assumption).
  exists k, (nth c (nth (Z.to_nat k) table []) (Fin 0)).
  split; [apply pair_entry_closed; assumption|]. split.
  - unfold table_entry.
    destruct (nth_lookup_or_length table (Z.to_nat k) []) as [Hrow|Hge]; [|lia].
    rewrite Hrow. rewrite Forall_forall in Hrows.
    pose proof (Hrows _ (list_elem_of_lookup_2 _ _ _ Hrow)) as Hrl.
    destruct (nth_lookup_or_length (nth (Z.to_nat k) table []) c (Fin 0)) as [Hv|Hge];
      [exact Hv|lia].
  - unfold bias_entry.
    apply (lookup3_grid
             (fun c a b =>
                nth c (nth (Z.to_nat (offset_rank h w (coord_diff w a b))) table [])
                  (Fin 0))); assumption.
Qed.

Lemma relpos_bias_entries_witness :
  exists bias,
    (let* self := RelPosBias.init (2, 2) 2 0
                    (fun k c => f32_of_Z (Z.of_nat (10 * k + c))) in
     RelPosBias.get_bias self) = Ok bias
    /\ bias_entry bias 1 0 3 = Some (f32_of_Z 1).
Proof.
  destruct (RelPosBias.init (2, 2) 2 0 (fun k c => f32_of_Z (Z.of_nat (10 * k + c))))
    as [self|e] eqn:Hinit; [|vm_compute in Hinit; discriminate].
  destruct (relpos_bias_entries 2 2 2 _ self Hinit)
    as (bias & out & Hbias & _ & _ & Hent).
  exists bias. split; [exact Hbias|].
  destruct (Hent 1%nat 0%nat 3%nat ltac:(vm_compute; lia) ltac:(vm_compute; lia)
              ltac:(vm_compute; lia)) as (k & v & Hk & Hv & Hb).
  rewrite Hb, <- Hv. vm_compute in Hinit. injection Hinit as <-.
  vm_compute in Hk. injection Hk as <-. reflexivity.
Defined.

(** X6. The bias of a head constructed without prefix token depends on
    the pair of positions only through their coordinate difference: two
    pairs with the same difference get the same bias in every head. *)
Theorem relpos_bias_translation_invariant h w num_heads sample self :
  RelPosBias.init (h, w) num_heads 0 sample = Ok self ->
  exists bias,
    RelPosBias.get_bias self = Ok bias
    /\ forall c a b a' b',
        (c < Z.to_nat num_heads)%nat ->
        (a < area h w)%nat -> (b < area h w)%nat ->
        (a' < area h w)%nat -> (b' < area h w)%nat ->
        coord_diff w a b = coord_diff w a' b' ->
        exists v, bias_entry bias c a b = Some v /\ bias_entry bias c a' b' = Some v.
Proof.
  intros Hinit.
  destruct (relpos_bias_get_bias_closed _ _ _ _ _ Hinit)
    as (Hh & Hw & Hn & Hidx & Hlen & Hrows & Hbias).
  eexists. split; [exact Hbias|].
  intros c a b a' b' Hc Ha Hb Ha' Hb' Hd. unfold bias_entry.
  set (f := fun c a b =>
              nth c (nth (Z.to_nat (offset_rank h w (coord_diff w a b)))
                       (RelPosBias.relative_position_bias_table self) []) (Fin 0)).
  exists (f c a b). split.
  - apply (lookup3_grid f); assumption.
  - replace (f c a b) with (f c a' b') by (unfold f; rewrite Hd; reflexivity).
    apply (lookup3_grid f); assumption.
Qed.

Lemma relpos_bias_translation_invariant_witness :
  exists bias,
    (let* self := RelPosBias.init (2, 2) 1 0 (fun k _ => f32_of_Z (Z.of_nat k)) in
     RelPosBias.get_bias self) = Ok bias
    /\ bias_entry bias 0 0 1 = bias_entry bias 0 2 3.
Proof.
  destruct (RelPosBias.init (2, 2) 1 0 (fun k _ => f32_of_Z (Z.of_nat k)))
    as [self|e] eqn:Hinit; [|vm_compute in Hinit; discriminate].
  destruct (relpos_bias_translation_invariant 2 2 1 _ self Hinit) as (bias & Hbias & Hinv).
  exists bias. split; [exact Hbias|].
  destruct (Hinv 0%nat 0%nat 1%nat 2%nat 3%nat) as (v & -> & ->);
    (vm_compute; lia) || reflexivity.
Defined.

(** ** gen_relative_log_coords: domain, signs and symmetry *)

Lemma arange_f_err a b : b < a -> arange_f a b = Err RuntimeError.
Proof. intros Hab. unfold arange_f. destruct (Z.ltb_spec b a); [reflexivity|lia]. Qed.

Lemma mode_check mode :
  negb (String.eqb mode "swin" || String.eqb mode "cr") = false
  <-> mode = "swin"%string \/ mode = "cr"%string.
Proof.
  rewrite negb_false_iff, orb_true_iff, !String.eqb_eq. reflexivity.
Qed.

Lemma gen_relative_log_coords_bad_mode win pre mode :
  mode <> "swin"%string -> mode <> "cr"%string ->
  gen_relative_log_coords win pre mode = Err AssertionError.
Proof.
  intros Hs Hc. unfold gen_relative_log_coords.
  destruct (negb _) eqn:Hm; [reflexivity|].
  apply mode_check in Hm. tauto.
Qed.

Lemma gen_relative_log_coords_bad_window h w pre mode :
  mode = "swin"%string \/ mode = "cr"%string -> h <= 0 \/ w <= 0 ->
  gen_relative_log_coords (h, w) pre mode = Err RuntimeError.
Proof.
  intros Hmode Hwin. unfold gen_relative_log_coords.
  apply mode_check in Hmode. rewrite Hmode. cbn [fst snd].
  destruct (Z.leb_spec h 0) as [Hh|Hh].
  - rewrite (arange_f_err (- (h - 1)) h) by lia. reflexivity.
  - rewrite (arange_f_ok (- (h - 1)) h) by lia. cbn [bind].
    rewrite (arange_f_err (- (w - 1)) w) by lia. reflexivity.
Qed.

(** X7. The call returns exactly when the mode is "swin" or "cr" and both
    window sides are at least 1.  Any other mode fails the assertion,
    whatever the sizes; a valid mode with a side below 1 raises a
    RuntimeError. *)
Theorem gen_relative_log_coords_domain h w pre mode :
  ((exists t, gen_relative_log_coords (h, w) pre mode = Ok t)
   <-> (mode = "swin"%string \/ mode = "cr"%string) /\ 1 <= h /\ 1 <= w)
  /\ (mode <> "swin"%string -> mode <> "cr"%string ->
      gen_relative_log_coords (h, w) pre mode = Err AssertionError)
  /\ (mode = "swin"%string \/ mode = "cr"%string -> h <= 0 \/ w <= 0 ->
      gen_relative_log_coords (h, w) pre mode = Err RuntimeError).
Proof.
  split; [|split].
  - split.
    + intros [t Ht].
      destruct (String.eqb_spec mode "swin") as [Hs|Hs];
        [|destruct (String.eqb_spec mode "cr") as [Hc|Hc]].
      * split; [auto|].
        destruct (Z.leb_spec h 0); [|destruct (Z.leb_spec w 0); [|lia]];
          rewrite gen_relative_log_coords_bad_window in Ht by auto; discriminate.
      * split; [auto|].
        destruct (Z.leb_spec h 0); [|destruct (Z.leb_spec w 0); [|lia]];
          rewrite gen_relative_log_coords_bad_window in Ht by auto; discriminate.
      * rewrite gen_relative_log_coords_bad_mode in Ht by assumption. discriminate.
    + intros ([-> | ->] & Hh & Hw); destruct pre as [ph pw]; eexists.
      * apply gen_relative_log_coords_swin; assumption.
      * apply gen_relative_log_coords_cr; assumption.
  - apply gen_relative_log_coords_bad_mode.
  - apply gen_relative_log_coords_bad_window.
Qed.

Lemma gen_relative_log_coords_domain_witness :
  gen_relative_log_coords (0, 0) (0, 0) "rw" = Err AssertionError
  /\ gen_relative_log_coords (0, 4) (0, 0) "cr" = Err RuntimeError.
Proof.
  split.
  - apply (proj1 (proj2 (gen_relative_log_coords_domain 0 0 (0, 0) "rw")));
      discriminate.
  - apply (proj2 (proj2 (gen_relative_log_coords_domain 0 4 (0, 0) "cr")));
      [right; reflexivity | lia].
Defined.

(** *** The signed squash is odd and keeps the sign *)

Lemma Rsign_opp x : Rsign (- x) = (- Rsign x)%R.
Proof.
  destruct (Rtotal_order x 0) as [Hneg|[->|Hpos]].
  - rewrite (Rsign_neg x), Rsign_pos by lra. ring.
  - rewrite Ropp_0, Rsign_0. ring.
  - rewrite (Rsign_pos x), Rsign_neg by lra. reflexivity.
Qed.

Lemma Rsign_opposite_mult a b : Rsign a = (- Rsign b)%R -> (a * b <= 0)%R.
Proof.
  unfold Rsign.
  destruct (Rlt_dec 0 a), (Rlt_dec a 0), (Rlt_dec 0 b), (Rlt_dec b 0);
    intros E; try lra; nra.
Qed.

Section signed_squash_facts.
Variable phi : R -> R.

Lemma signed_squash_odd x : signed_squash phi (- x) = (- signed_squash phi x)%R.
Proof. unfold signed_squash. rewrite Rsign_opp, Rabs_Ropp. ring. Qed.

Lemma signed_squash_pos x : (0 < x)%R -> signed_squash phi x = phi (1 + x)%R.
Proof. intros Hx. unfold signed_squash. rewrite Rsign_pos, Rabs_pos_eq by lra. ring. Qed.

Lemma signed_squash_neg x : (x < 0)%R -> signed_squash phi x = (- phi (1 - x))%R.
Proof.
  intros Hx. unfold signed_squash. rewrite Rsign_neg, Rabs_left by lra.
  unfold Rminus. ring.
Qed.

Lemma signed_squash_0 : signed_squash phi 0 = 0%R.
Proof. unfold signed_squash. rewrite Rsign_0. ring. Qed.

End signed_squash_facts.

Lemma cr_squash_signed r : cr_squash (Fin r) = Fin (signed_squash ln r).
Proof. apply cr_squash_fin. Qed.

Lemma cr_real_sign x : Rsign (signed_squash ln x) = Rsign x.
Proof.
  destruct (Rtotal_order x 0) as [Hneg|[->|Hpos]].
  - rewrite signed_squash_neg, (Rsign_neg x) by assumption. apply Rsign_neg.
    pose proof (ln_pos_gt1 (1 - x) ltac:(lra)). lra.
  - rewrite signed_squash_0. reflexivity.
  - rewrite signed_squash_pos, (Rsign_pos x) by assumption. apply Rsign_pos.
    apply ln_pos_gt1. lra.
Qed.

Lemma swin_real_signed X :
  swin_real X = signed_squash (fun u => math_log2 u / math_log2 8)%R X.
Proof. unfold swin_real, signed_squash, Rdiv. ring. Qed.

Lemma swin_real_odd X : swin_real (- X) = (- swin_real X)%R.
Proof. rewrite !swin_real_signed. apply signed_squash_odd. Qed.

(** *** Scaling an offset by a divisor *)

Lemma scaled_offset_opp n d : (IZR (- d) / IZR n * 8)%R = (- (IZR d / IZR n * 8))%R.
Proof. rewrite opp_IZR. unfold Rdiv. ring. Qed.

Lemma scaled_offset_sign n d :
  0 < n -> Rsign (IZR d / IZR n * 8) = Rsign (IZR d).
Proof.
  intros Hn. apply IZR_lt in Hn.
  assert (Hq : (0 < / IZR n)%R) by (apply Rinv_0_lt_compat, Hn).
  unfold Rdiv.
  destruct (Rtotal_order (IZR d) 0) as [Hneg|[Hz|Hpos]].
  - rewrite (Rsign_neg (IZR d)) by assumption. apply Rsign_neg.
    pose proof (Rmult_lt_0_compat (- IZR d) (/ IZR n) ltac:(lra) Hq). lra.
  - rewrite Hz. f_equal. ring.
  - rewrite (Rsign_pos (IZR d)) by assumption. apply Rsign_pos.
    pose proof (Rmult_lt_0_compat (IZR d) (/ IZR n) Hpos Hq). lra.
Qed.

Lemma scaled_offset_sign_neg n d :
  n < 0 -> Rsign (IZR d / IZR n * 8) = (- Rsign (IZR d))%R.
Proof.
  intros Hn.
  replace (IZR d / IZR n * 8)%R with (- (IZR d / IZR (- n) * 8))%R.
  - rewrite Rsign_opp, scaled_offset_sign by lia. reflexivity.
  - rewrite opp_IZR. apply IZR_lt in Hn. field. lra.
Qed.

Lemma table_offsets h w i j :
  - (h - 1) + Z.of_nat i = row_offset h i /\ - (w - 1) + Z.of_nat j = col_offset w j.
Proof. unfold row_offset, col_offset. lia. Qed.

Lemma mirror_offsets h w i j :
  1 <= h -> 1 <= w ->
  (i < Z.to_nat (2 * h - 1))%nat -> (j < Z.to_nat (2 * w - 1))%nat ->
  (Z.to_nat (2 * h - 2) - i < Z.to_nat (2 * h - 1))%nat
  /\ (Z.to_nat (2 * w - 2) - j < Z.to_nat (2 * w - 1))%nat
  /\ row_offset h (Z.to_nat (2 * h - 2) - i) = - row_offset h i
  /\ col_offset w (Z.to_nat (2 * w - 2) - j) = - col_offset w j.
Proof. unfold row_offset, col_offset. lia. Qed.

(** The "cr" table, cell by cell. *)
Lemma cr_table_entry h w i j :
  (i < Z.to_nat (2 * h - 1))%nat -> (j < Z.to_nat (2 * w - 1))%nat ->
  lookup2 (offset_table h w cr_squash cr_squash) i j
  = Some (Fin (signed_squash ln (IZR (row_offset h i))),
          Fin (signed_squash ln (IZR (col_offset w j)))).
Proof.
  intros Hi Hj. rewrite lookup2_offset_table by assumption.
  destruct (table_offsets h w i j) as [-> ->].
  unfold f32_of_Z. rewrite !cr_squash_signed. reflexivity.
Qed.

(** The "swin" table for divisors that are not zero, cell by cell. *)
Lemma swin_table_entry h w n0 n1 i j :
  n0 <> 0 -> n1 <> 0 ->
  (i < Z.to_nat (2 * h - 1))%nat -> (j < Z.to_nat (2 * w - 1))%nat ->
  lookup2 (offset_table h w (swin_squash n0) (swin_squash n1)) i j
  = Some (Fin (swin_real (IZR (row_offset h i) / IZR n0 * 8)),
          Fin (swin_real (IZR (col_offset w j) / IZR n1 * 8))).
Proof.
  intros H0 H1 Hi Hj. rewrite lookup2_offset_table by assumption.
  destruct (table_offsets h w i j) as [-> ->].
  rewrite !swin_squash_fin by assumption. reflexivity.
Qed.

Lemma gen_relative_log_coords_swin_divisors h w pre :
  1 <= h -> 1 <= w ->
  gen_relative_log_coords (h, w) pre "swin"
  = Ok (offset_table h w
          (swin_squash (fst (swin_divisors (h, w) pre)))
          (swin_squash (snd (swin_divisors (h, w) pre)))).
Proof.
  intros Hh Hw. destruct pre as [ph pw].
  rewrite gen_relative_log_coords_swin by assumption.
  unfold swin_divisors. cbn [fst snd]. destruct (ph >? 0); reflexivity.
Qed.

(** X8. In "cr" mode, for a window with positive sides, the pretrained
    size plays no part.  Every coordinate of the table is finite and has
    the sign of its offset, so it is 0 exactly on the centre row or
    column, and the cell mirrored through the centre holds the negated
    coordinates. *)
Theorem cr_log_coords_sign_and_mirror h w pre :
  1 <= h -> 1 <= w ->
  exists t,
    gen_relative_log_coords (h, w) pre "cr" = Ok t
    /\ gen_relative_log_coords (h, w) (0, 0) "cr" = Ok t
    /\ forall i j,
        (i < Z.to_nat (2 * h - 1))%nat -> (j < Z.to_nat (2 * w - 1))%nat ->
        exists x y,
          lookup2 t i j = Some (Fin x, Fin y)
          /\ Rsign x = Rsign (IZR (row_offset h i))
          /\ Rsign y = Rsign (IZR (col_offset w j))
          /\ lookup2 t (Z.to_nat (2 * h - 2) - i) (Z.to_nat (2 * w - 2) - j)
             = Some (Fin (- x), Fin (- y)).
Proof.
  intros Hh Hw. eexists. split; [apply gen_relative_log_coords_cr; assumption|].
  split; [apply gen_relative_log_coords_cr; assumption|].
  intros i j Hi Hj. eexists _, _.
  split; [apply cr_table_entry; assumption|].
  split; [apply cr_real_sign|]. split; [apply cr_real_sign|].
  destruct (mirror_offsets h w i j Hh Hw Hi Hj) as (Hi' & Hj' & Hr & Hc).
  rewrite cr_table_entry by assumption. rewrite Hr, Hc, !opp_IZR.
  rewrite !signed_squash_odd. reflexivity.
Qed.

Lemma cr_log_coords_sign_and_mirror_witness :
  exists t,
    gen_relative_log_coords (2, 3) (7, 7) "cr" = Ok t
    /\ exists x y, lookup2 t 0 0 = Some (Fin x, Fin y)
                   /\ Rsign x = (-1)%R
                   /\ lookup2 t 2 4 = Some (Fin (- x), Fin (- y)).
Proof.
  destruct (cr_log_coords_sign_and_mirror 2 3 (7, 7) ltac:(lia) ltac:(lia))
    as (t & Ht & _ & Hent).
  exists t. split; [exact Ht|].
  destruct (Hent 0%nat 0%nat ltac:(simpl; lia) ltac:(simpl; lia))
    as (x & y & Hxy & Hsx & _ & Hmirror).
  exists x, y. split; [exact Hxy|]. split; [|exact Hmirror].
  rewrite Hsx. change (row_offset 2 0) with (-1). apply Rsign_neg. lra.
Defined.

(** X9. In "swin" mode with positive divisors on both axes (a pretrained
    window with sides of at least 2, or none and a window with sides of at
    least 2) every coordinate is finite, never has the sign opposite to
    its offset, and is negated in the cell mirrored through the centre.
    It has the sign of its offset as long as the divisor is at most 2^24,
    where float32 still tells 1 + 8 / divisor from 1.  On an axis where
    the window is no larger than the reference size the coordinate stays
    within 17/16 in magnitude (the largest value is about
    log2(9) / log2(8) = 1.0566). *)
Theorem swin_log_coords_sign_and_mirror h w pre n0 n1 :
  1 <= h -> 1 <= w ->
  swin_divisors (h, w) pre = (n0, n1) -> 0 < n0 -> 0 < n1 ->
  exists t,
    gen_relative_log_coords (h, w) pre "swin" = Ok t
    /\ forall i j,
        (i < Z.to_nat (2 * h - 1))%nat -> (j < Z.to_nat (2 * w - 1))%nat ->
        exists x y,
          lookup2 t i j = Some (Fin x, Fin y)
          /\ (0 <= x * IZR (row_offset h i))%R
          /\ (0 <= y * IZR (col_offset w j))%R
          /\ (n0 <= 2 ^ 24 -> Rsign x = Rsign (IZR (row_offset h i)))
          /\ (n1 <= 2 ^ 24 -> Rsign y = Rsign (IZR (col_offset w j)))
          /\ (h - 1 <= n0 -> (Rabs x <= 17 / 16)%R)
          /\ (w - 1 <= n1 -> (Rabs y <= 17 / 16)%R)
          /\ lookup2 t (Z.to_nat (2 * h - 2) - i) (Z.to_nat (2 * w - 2) - j)
             = Some (Fin (- x), Fin (- y)).
Proof.
  intros Hh Hw Hdiv Hn0 Hn1. eexists.
  split; [apply gen_relative_log_coords_swin_divisors; assumption|].
  rewrite Hdiv. cbn [fst snd].
  intros i j Hi Hj. eexists _, _.
  split; [apply swin_table_entry; assumption || lia|].
  assert (Ex : Rsign (swin_real (IZR (row_offset h i) / IZR n0 * 8))
               = Rsign (IZR (row_offset h i)))
    by (rewrite swin_real_sign; apply scaled_offset_sign; assumption).
  assert (Ey : Rsign (swin_real (IZR (col_offset w j) / IZR n1 * 8))
               = Rsign (IZR (col_offset w j)))
    by (rewrite swin_real_sign; apply scaled_offset_sign; assumption).
  pose proof swin_bound_le as Hb.
  split; [apply Rsign_same_mult, Ex|]. split; [apply Rsign_same_mult, Ey|].
  split; [intros _; exact Ex|]. split; [intros _; exact Ey|].
  split; [|split].
  - intros Hle.
    pose proof (swin_real_bound (IZR (row_offset h i) / IZR n0 * 8)) as Hx.
    apply Rle_trans with swin_bound; [|exact Hb]. apply Hx.
    apply (normalised_offset n0 (row_offset h i)); unfold row_offset; lia.
  - intros Hle.
    pose proof (swin_real_bound (IZR (col_offset w j) / IZR n1 * 8)) as Hy.
    apply Rle_trans with swin_bound; [|exact Hb]. apply Hy.
    apply (normalised_offset n1 (col_offset w j)); unfold col_offset; lia.
  - destruct (mirror_offsets h w i j Hh Hw Hi Hj) as (Hi' & Hj' & Hr & Hc).
    rewrite swin_table_entry by (assumption || lia).
    rewrite Hr, Hc, !scaled_offset_opp, !swin_real_odd. reflexivity.
Qed.

Lemma swin_log_coords_sign_and_mirror_witness :
  exists t,
    gen_relative_log_coords (3, 3) (5, 4) "swin" = Ok t
    /\ exists x y, lookup2 t 0 1 = Some (Fin x, Fin y)
                   /\ (Rabs x <= 17 / 16)%R
                   /\ lookup2 t 4 3 = Some (Fin (- x), Fin (- y)).
Proof.
  destruct (swin_log_coords_sign_and_mirror 3 3 (5, 4) 4 3 ltac:(lia) ltac:(lia)
              eq_refl ltac:(lia) ltac:(lia)) as (t & Ht & Hent).
  exists t. split; [exact Ht|].
  destruct (Hent 0%nat 1%nat ltac:(simpl; lia) ltac:(simpl; lia))
    as (x & y & Hxy & _ & _ & _ & _ & Hbx & _ & Hmirror).
  exists x, y. split; [exact Hxy|]. split; [apply Hbx; lia | exact Hmirror].
Defined.

(** X10. In "swin" mode only the first pretrained side decides whether
    the pretrained size is used.  With a positive first side and a second
    side of 0 or less the column divisor is negative: every column
    coordinate comes out finite and never with the sign of its offset,
    and with the opposite sign as long as the second side is at least
    -2^24; the row coordinate never has the sign opposite to its offset. *)
Theorem swin_log_coords_sign_reversed h w ph pw :
  1 <= h -> 1 <= w -> 2 <= ph -> pw <= 0 ->
  exists t,
    gen_relative_log_coords (h, w) (ph, pw) "swin" = Ok t
    /\ forall i j,
        (i < Z.to_nat (2 * h - 1))%nat -> (j < Z.to_nat (2 * w - 1))%nat ->
        exists x y,
          lookup2 t i j = Some (Fin x, Fin y)
          /\ (0 <= x * IZR (row_offset h i))%R
          /\ (y * IZR (col_offset w j) <= 0)%R
          /\ (ph <= 2 ^ 24 -> Rsign x = Rsign (IZR (row_offset h i)))
          /\ (- 2 ^ 24 <= pw -> Rsign y = (- Rsign (IZR (col_offset w j)))%R).
Proof.
  intros Hh Hw Hph Hpw. eexists.
  split; [apply gen_relative_log_coords_swin; assumption|].
  replace (ph >? 0) with true by (symmetry; rewrite Z.gtb_ltb; apply Z.ltb_lt; lia).
  intros i j Hi Hj. eexists _, _.
  split; [apply swin_table_entry; assumption || lia|].
  assert (Ex : Rsign (swin_real (IZR (row_offset h i) / IZR (ph - 1) * 8))
               = Rsign (IZR (row_offset h i)))
    by (rewrite swin_real_sign; apply scaled_offset_sign; lia).
  assert (Ey : Rsign (swin_real (IZR (col_offset w j) / IZR (pw - 1) * 8))
               = (- Rsign (IZR (col_offset w j)))%R)
    by (rewrite swin_real_sign; apply scaled_offset_sign_neg; lia).
  split; [apply Rsign_same_mult, Ex|]. split; [apply Rsign_opposite_mult, Ey|].
  split; intros _; assumption.
Qed.

Lemma swin_log_coords_sign_reversed_witness :
  exists t x y,
    gen_relative_log_coords (2, 2) (4, 0) "swin" = Ok t
    /\ lookup2 t 2 2 = Some (Fin x, Fin y)
    /\ Rsign x = 1%R /\ Rsign y = (-1)%R.
Proof.
  destruct (swin_log_coords_sign_reversed 2 2 4 0 ltac:(lia) ltac:(lia) ltac:(lia)
              ltac:(lia)) as (t & Ht & Hent).
  destruct (Hent 2%nat 2%nat ltac:(simpl; lia) ltac:(simpl; lia))
    as (x & y & Hxy & _ & _ & Hsx & Hsy).
  specialize (Hsx ltac:(lia)). specialize (Hsy ltac:(lia)).
  exists t, x, y. split; [exact Ht|]. split; [exact Hxy|].
  change (row_offset 2 2) with 1 in Hsx. change (col_offset 2 2) with 1 in Hsy.
  rewrite (Rsign_pos 1) in Hsx, Hsy by lra. split; [exact Hsx | rewrite Hsy; lra].
Defined.

(** ** generate_lookup_tensor: domain and structure *)

Lemma generate_lookup_tensor_bad length mo m :
  m = match mo with None => length - 1 | Some m' => m' end ->
  length < 0 \/ m < 0 ->
  generate_lookup_tensor length mo = Err RuntimeError.
Proof.
  intros Hm Hbad. unfold generate_lookup_tensor. rewrite <- Hm. unfold zeros3.
  destruct (Z.ltb_spec length 0); [reflexivity|].
  destruct (Z.ltb_spec (2 * m + 1) 0); [reflexivity|lia].
Qed.

Lemma generate_lookup_tensor_empty mo m :
  m = match mo with None => 0 - 1 | Some m' => m' end ->
  0 <= m ->
  generate_lookup_tensor 0 mo = Ok [].
Proof.
  intros Hm Hm0. unfold generate_lookup_tensor. rewrite <- Hm.
  rewrite zeros3_ok by lia. reflexivity.
Qed.

(** X11. The call returns exactly when the length is not negative and
    the clipping distance (length - 1 when omitted) is not negative;
    otherwise [torch.zeros] raises.  In particular a length of 0 with the
    distance omitted raises, while a length of 0 with a distance given
    returns the empty tensor. *)
Theorem generate_lookup_tensor_domain length mo m :
  m = match mo with None => length - 1 | Some m' => m' end ->
  ((exists ret, generate_lookup_tensor length mo = Ok ret) <-> 0 <= length /\ 0 <= m)
  /\ (length < 0 \/ m < 0 -> generate_lookup_tensor length mo = Err RuntimeError)
  /\ (length = 0 -> 0 <= m -> generate_lookup_tensor length mo = Ok []).
Proof.
  intros Hm. split; [|split].
  - split.
    + intros [ret Hret].
      destruct (Z.ltb_spec length 0) as [Hl|Hl];
        [rewrite (generate_lookup_tensor_bad length mo m) in Hret by auto; discriminate|].
      destruct (Z.ltb_spec m 0) as [Hneg|Hge];
        [rewrite (generate_lookup_tensor_bad length mo m) in Hret by auto; discriminate|].
      auto.
    + intros [Hl Hm0]. destruct (Z.eq_dec length 0) as [->|Hne].
      * exists []. apply (generate_lookup_tensor_empty mo m); assumption.
      * destruct (generate_lookup_tensor_entries length mo m ltac:(lia) Hm Hm0)
          as (ret & Hret & _). eauto.
  - apply generate_lookup_tensor_bad, Hm.
  - intros -> Hm0. apply (generate_lookup_tensor_empty mo m); assumption.
Qed.

Lemma generate_lookup_tensor_domain_witness :
  generate_lookup_tensor 0 None = Err RuntimeError
  /\ generate_lookup_tensor 0 (Some 2) = Ok []
  /\ generate_lookup_tensor 3 (Some (-1)) = Err RuntimeError.
Proof.
  split; [|split].
  - apply (proj1 (proj2 (generate_lookup_tensor_domain 0 None (-1) eq_refl))). lia.
  - apply (proj2 (proj2 (generate_lookup_tensor_domain 0 (Some 2) 2 eq_refl)));
      [reflexivity | lia].
  - apply (proj1 (proj2 (generate_lookup_tensor_domain 3 (Some (-1)) (-1) eq_refl))). lia.
Defined.

(** X12. The lookup tensor depends on the pair (i, x) only through
    x - i: moving both positions by one leaves a slice unchanged, and
    exchanging them reverses the slice. *)
Theorem lookup_tensor_shift_and_reverse length mo m :
  0 < length ->
  m = match mo with None => length - 1 | Some m' => m' end ->
  0 <= m ->
  exists ret,
    generate_lookup_tensor length mo = Ok ret
    /\ (forall i x v,
          (S i < Z.to_nat length)%nat -> (S x < Z.to_nat length)%nat ->
          (v < Z.to_nat (2 * m + 1))%nat ->
          lookup3 ret (S i) (S x) v = lookup3 ret i x v)
    /\ (forall i x v,
          (i < Z.to_nat length)%nat -> (x < Z.to_nat length)%nat ->
          (v < Z.to_nat (2 * m + 1))%nat ->
          lookup3 ret x i (Z.to_nat (2 * m) - v) = lookup3 ret i x v).
Proof.
  intros Hlen Hm Hm0.
  destruct (generate_lookup_tensor_entries length mo m Hlen Hm Hm0)
    as (ret & Hret & _ & Hent).
  exists ret. split; [exact Hret|]. split.
  - intros i x v Hi Hx Hv. rewrite !Hent by lia. f_equal.
    unfold one_hot. rewrite !Nat2Z.inj_succ.
    replace (Z.succ (Z.of_nat x) - Z.succ (Z.of_nat i)) with (Z.of_nat x - Z.of_nat i)
      by lia. reflexivity.
  - intros i x v Hi Hx Hv. rewrite !Hent by lia. f_equal.
    unfold one_hot. rewrite Nat2Z.inj_sub by lia. rewrite Z2Nat.id by lia.
    bool_cases.
Qed.

Lemma lookup_tensor_shift_and_reverse_witness :
  exists ret,
    generate_lookup_tensor 3 (Some 1) = Ok ret
    /\ lookup3 ret 1 2 2 = lookup3 ret 0 1 2
    /\ lookup3 ret 2 1 0 = lookup3 ret 1 2 2.
Proof.
  destruct (lookup_tensor_shift_and_reverse 3 (Some 1) 1 ltac:(lia) eq_refl ltac:(lia))
    as (ret & Hret & Hshift & Hrev).
  exists ret. split; [exact Hret|]. split.
  - apply (Hshift 0%nat 1%nat 2%nat); simpl; lia.
  - apply (Hrev 1%nat 2%nat 2%nat); simpl; lia.
Defined.

(** X13. When the clipping distance is at least length - 1, as it is
    when omitted, nothing is clipped: every slice (i, x) holds a single 1,
    at v = x - i + m, and 0 everywhere else. *)
Theorem lookup_tensor_full_coverage length mo m :
  0 < length ->
  m = match mo with None => length - 1 | Some m' => m' end ->
  length - 1 <= m ->
  exists ret,
    generate_lookup_tensor length mo = Ok ret
    /\ forall i x,
        (i < Z.to_nat length)%nat -> (x < Z.to_nat length)%nat ->
        exists v,
          Z.of_nat v = Z.of_nat x - Z.of_nat i + m
          /\ (v < Z.to_nat (2 * m + 1))%nat
          /\ lookup3 ret i x v = Some (Fin 1)
          /\ forall v', (v' < Z.to_nat (2 * m + 1))%nat -> v' <> v ->
                        lookup3 ret i x v' = Some (Fin 0).
Proof.
  intros Hlen Hm Hcov.
  destruct (generate_lookup_tensor_entries length mo m Hlen Hm ltac:(lia))
    as (ret & Hret & _ & Hent).
  exists ret. split; [exact Hret|]. intros i x Hi Hx.
  exists (Z.to_nat (Z.of_nat x - Z.of_nat i + m)).
  split; [lia|]. split; [lia|]. split.
  - rewrite Hent by lia. f_equal. unfold one_hot. rewrite Z2Nat.id by lia. bool_cases.
  - intros v' Hv' Hne. rewrite Hent by lia. f_equal. unfold one_hot. bool_cases.
Qed.

Lemma lookup_tensor_full_coverage_witness :
  exists ret,
    generate_lookup_tensor 2 None = Ok ret
    /\ lookup3 ret 1 0 0 = Some (Fin 1).
Proof.
  destruct (lookup_tensor_full_coverage 2 None 1 ltac:(lia) eq_refl ltac:(lia))
    as (ret & Hret & Hent).
  exists ret. split; [exact Hret|].
  destruct (Hent 1%nat 0%nat ltac:(simpl; lia) ltac:(simpl; lia))
    as (v & Hv & _ & Hone & _).
  replace v with 0%nat in Hone by lia. exact Hone.
Defined.

(** ** RelPosMlp: the bias in evaluation mode *)

Lemma lookup3_grid3 {A : Type} (f : nat -> nat -> nat -> A) d0 d1 d2 c a b :
  (c < d0)%nat -> (a < d1)%nat -> (b < d2)%nat ->
  lookup3 (grid3 d0 d1 d2 f) c a b = Some (f c a b).
Proof. apply lookup3_grid. Qed.

Lemma shape3_grid3 {A : Type} (f : nat -> nat -> nat -> A) d0 d1 d2 :
  shape3 d0 d1 d2 (grid3 d0 d1 d2 f).
Proof. apply shape3_grid. Qed.

Lemma map3d_grid3 {A B : Type} (k : A -> B) (f : nat -> nat -> nat -> A) d0 d1 d2 :
  map3d k (grid3 d0 d1 d2 f) = grid3 d0 d1 d2 (fun c a b => k (f c a b)).
Proof.
  unfold map3d, map2d, grid3. rewrite <- list_fmap_compose.
  apply list_fmap_ext. intros _ c _. simpl.
  rewrite <- list_fmap_compose. apply list_fmap_ext. intros _ a _. simpl.
  rewrite <- list_fmap_compose. reflexivity.
Qed.

Lemma first_row_length {A : Type} (g : nat -> list A) N :
  (forall a, length (g a) = N) ->
  match g <$> seq 0 N with [] => O | r :: _ => length r end = N.
Proof. intros Hg. destruct N as [|N']; [reflexivity|]. simpl. apply Hg. Qed.

(** Padding [p] zero rows and columns on the low side of every channel. *)
Lemma pad_prefix_grid3 (p : Z) (n N : nat) (f : nat -> nat -> nat -> f32) :
  0 <= p ->
  exists t,
    pad_prefix p (grid3 n N N f) = Ok t
    /\ shape3 n (Z.to_nat p + N) (Z.to_nat p + N) t
    /\ (forall c a b, (c < n)%nat -> (a < N)%nat -> (b < N)%nat ->
          lookup3 t c (Z.to_nat p + a) (Z.to_nat p + b) = Some (f c a b))
    /\ (forall c i j, (c < n)%nat ->
          (i < Z.to_nat p + N)%nat -> (j < Z.to_nat p + N)%nat ->
          (i < Z.to_nat p)%nat \/ (j < Z.to_nat p)%nat ->
          lookup3 t c i j = Some (Fin 0)).
Proof.
  intros Hp. unfold pad_prefix. destruct (Z.eqb_spec p 0) as [->|Hne].
  - exists (grid3 n N N f). split; [reflexivity|]. change (Z.to_nat 0) with O.
    split; [apply shape3_grid3|]. split.
    + intros c a b Hc Ha Hb. apply lookup3_grid3; assumption.
    + intros c i j _ _ _ [Hi|Hj]; lia.
  - unfold pad_low. destruct (Z.leb_spec 0 p); [|lia].
    set (P := Z.to_nat p).
    set (padm := fun m : list (list f32) =>
                   replicate P (replicate (P + match m with [] => O | r :: _ => length r end)
                                  (Fin 0))
                   ++ ((fun r => replicate P (Fin 0) ++ r) <$> m)).
    exists (padm <$> grid3 n N N f). split; [reflexivity|].
    assert (Hchan : forall c, (c < n)%nat ->
              (padm <$> grid3 n N N f) !! c
              = Some (replicate P (replicate (P + N) (Fin 0))
                        ++ ((fun a => replicate P (Fin 0) ++ (f c a <$> seq 0 N))
                              <$> seq 0 N))).
    { intros c Hc. unfold grid3. rewrite !list_lookup_fmap, lookup_seq_lt by exact Hc.
      simpl. unfold padm. f_equal. f_equal.
      - do 2 f_equal. rewrite (first_row_length (fun a => f c a <$> seq 0 N));
          [reflexivity|].
        intros a. rewrite length_fmap. apply length_seq.
      - rewrite <- list_fmap_compose. reflexivity. }
    split; [|split].
    + split; [rewrite length_fmap; unfold grid3; rewrite length_fmap; apply length_seq|].
      apply Forall_forall. intros m Hm. apply list_elem_of_lookup in Hm as [c Hm].
      assert (Hc : (c < n)%nat).
      { apply lookup_lt_Some in Hm. unfold grid3 in Hm.
        rewrite !length_fmap, length_seq in Hm. exact Hm. }
      rewrite Hchan in Hm by exact Hc. injection Hm as <-. split.
      * rewrite length_app, length_replicate, length_fmap, length_seq. lia.
      * apply Forall_app. split.
        -- apply Forall_replicate, length_replicate.
        -- apply Forall_fmap, Forall_forall. intros a _. simpl.
           rewrite length_app, length_replicate, length_fmap, length_seq. lia.
    + intros c a b Hc Ha Hb. unfold lookup3. rewrite Hchan by exact Hc.
      rewrite lookup_app_r by (rewrite length_replicate; lia).
      rewrite length_replicate. replace (P + a - P)%nat with a by lia.
      rewrite list_lookup_fmap, lookup_seq_lt by exact Ha. simpl.
      rewrite lookup_app_r by (rewrite length_replicate; lia).
      rewrite length_replicate. replace (P + b - P)%nat with b by lia.
      rewrite list_lookup_fmap, lookup_seq_lt by exact Hb. reflexivity.
    + intros c i j Hc Hi Hj Hlow. unfold lookup3. rewrite Hchan by exact Hc.
      destruct (decide (i < P)%nat) as [HiP|HiP].
      * rewrite lookup_app_l by (rewrite length_replicate; lia).
        rewrite lookup_replicate_2 by exact HiP.
        apply lookup_replicate_2. lia.
      * rewrite lookup_app_r by (rewrite length_replicate; lia).
        rewrite length_replicate.
        rewrite list_lookup_fmap, lookup_seq_lt by lia. simpl.
        rewrite lookup_app_l by (rewrite length_replicate; lia).
        apply lookup_replicate_2. lia.
Qed.

Lemma grid3_ext {A : Type} d0 d1 d2 (f g : nat -> nat -> nat -> A) :
  (forall c a b, (c < d0)%nat -> (a < d1)%nat -> (b < d2)%nat -> f c a b = g c a b) ->
  grid3 d0 d1 d2 f = grid3 d0 d1 d2 g.
Proof.
  intros Hfg. unfold grid3.
  apply list_fmap_ext. intros ? c Hc. apply list_elem_of_lookup_2, elem_of_seq in Hc.
  apply list_fmap_ext. intros ? a Ha. apply list_elem_of_lookup_2, elem_of_seq in Ha.
  apply list_fmap_ext. intros ? b Hb. apply list_elem_of_lookup_2, elem_of_seq in Hb.
  apply Hfg; lia.
Qed.

(** The call of [gen_relative_log_coords] returns only for a valid mode
    and a window with sides of at least 1. *)
Lemma gen_relative_log_coords_returns h w pre mode t :
  gen_relative_log_coords (h, w) pre mode = Ok t ->
  (mode = "swin"%string \/ mode = "cr"%string) /\ 1 <= h /\ 1 <= w.
Proof.
  intros Ht.
  assert (Hmode : mode = "swin"%string \/ mode = "cr"%string).
  { destruct (String.eqb_spec mode "swin") as [Hs|Hs]; [auto|].
    destruct (String.eqb_spec mode "cr") as [Hc|Hc]; [auto|].
    rewrite gen_relative_log_coords_bad_mode in Ht by assumption. discriminate. }
  split; [exact Hmode|].
  destruct (Z.leb_spec h 0); [|destruct (Z.leb_spec w 0); [|lia]];
    rewrite gen_relative_log_coords_bad_window in Ht by auto; discriminate.
Qed.

(** What the constructor of the projection stores when it returns. *)
Lemma linear_mlp_init_ok hidden out bias drop w1 b1 w2 b2 :
  0 <= hidden -> 0 <= out ->
  LinearMLP.init hidden out bias drop w1 b1 w2 b2
  = Ok (LinearMLP.Build (w1 <$> seq 0 (Z.to_nat hidden)) (b1 <$> seq 0 (Z.to_nat hidden))
          ((fun o => w2 o <$> seq 0 (Z.to_nat hidden)) <$> seq 0 (Z.to_nat out))
          (if snd bias then Some (b2 <$> seq 0 (Z.to_nat out)) else None) drop).
Proof.
  intros Hh Ho. unfold LinearMLP.init.
  destruct (Z.ltb_spec hidden 0); [lia|]. destruct (Z.ltb_spec out 0); [lia|].
  reflexivity.
Qed.

Lemma linear_mlp_init_returns hidden out bias drop w1 b1 w2 b2 m :
  LinearMLP.init hidden out bias drop w1 b1 w2 b2 = Ok m -> 0 <= hidden /\ 0 <= out.
Proof.
  unfold LinearMLP.init.
  destruct (Z.ltb_spec hidden 0); [discriminate|].
  destruct (Z.ltb_spec out 0); [discriminate|]. lia.
Qed.

Lemma mlp_cell_length w1 b1 w2 b2 p c (n : nat) :
  length w2 = n -> match b2 with Some bs => length bs = n | None => True end ->
  length (mlp_cell (LinearMLP.Build w1 b1 w2 b2 p) c) = n.
Proof.
  intros Hw2 Hb2. unfold mlp_cell, LinearMLP.fc2. cbn [LinearMLP.fc2_bias LinearMLP.fc2_weight].
  destruct b2 as [bs|].
  - rewrite length_zip_with. lia.
  - rewrite length_fmap. exact Hw2.
Qed.

(** A constructed projection has [out_features] outputs. *)
Lemma linear_mlp_init_cell_length hidden out bias drop w1 b1 w2 b2 m c :
  LinearMLP.init hidden out bias drop w1 b1 w2 b2 = Ok m ->
  length (mlp_cell m c) = Z.to_nat out.
Proof.
  intros Hm. destruct (linear_mlp_init_returns _ _ _ _ _ _ _ _ _ Hm) as [Hh Ho].
  rewrite linear_mlp_init_ok in Hm by assumption. injection Hm as <-.
  apply mlp_cell_length.
  - rewrite length_fmap. apply length_seq.
  - destruct (snd bias); [rewrite length_fmap; apply length_seq | exact I].
Qed.

(** What the constructor of the MLP head stores when it returns. *)
Lemma relpos_mlp_init_fields h w num_heads hidden_dim p mode pre w1 b1 w2 b2 self :
  RelPosMlp.init (h, w) num_heads hidden_dim p mode pre w1 b1 w2 b2 = Ok self ->
  1 <= h /\ 1 <= w /\ 0 <= num_heads /\ 0 <= hidden_dim
  /\ RelPosMlp.training self = true
  /\ RelPosMlp.prefix_tokens self = p
  /\ RelPosMlp.num_heads self = num_heads
  /\ RelPosMlp.bias_shape self = (h * w, h * w, num_heads)
  /\ RelPosMlp.relative_position_index self = T1 (index_closed h w)
  /\ (exists f1 f2, RelPosMlp.rel_coords_log self = offset_table h w f1 f2)
  /\ (forall c, length (mlp_cell (RelPosMlp.mlp self) c) = Z.to_nat num_heads)
  /\ ((mode = "swin"%string
       /\ RelPosMlp.bias_act self = fsigmoid /\ RelPosMlp.bias_gain self = Some 16
       /\ LinearMLP.init hidden_dim num_heads (true, false) 0.125 w1 b1 w2 b2
          = Ok (RelPosMlp.mlp self)
       /\ RelPosMlp.rel_coords_log self
          = offset_table h w (swin_squash (fst (swin_divisors (h, w) pre)))
              (swin_squash (snd (swin_divisors (h, w) pre))))
      \/ (mode = "cr"%string
          /\ RelPosMlp.bias_act self = (fun x => x) /\ RelPosMlp.bias_gain self = None
          /\ LinearMLP.init hidden_dim num_heads (true, true) 0.125 w1 b1 w2 b2
             = Ok (RelPosMlp.mlp self)
          /\ RelPosMlp.rel_coords_log self = offset_table h w cr_squash cr_squash)).
Proof.
  unfold RelPosMlp.init. cbn [fst snd].
  destruct (String.eqb mode "swin") eqn:Hmode; cbv iota beta.
  - apply String.eqb_eq in Hmode. subst mode.
    destruct (LinearMLP.init hidden_dim num_heads (true, false) 0.125 w1 b1 w2 b2)
      as [m|e] eqn:Hm; [|discriminate]. cbn [bind].
    destruct (gen_relative_position_index (h, w) None false) as [t|e] eqn:Hidx;
      [|discriminate]. cbn [bind].
    destruct (gen_relative_log_coords (h, w) pre "swin") as [co|e] eqn:Hco;
      [|discriminate]. cbn [bind]. intros [= <-].
    destruct (gen_relative_log_coords_returns _ _ _ _ _ Hco) as (_ & Hh & Hw).
    destruct (linear_mlp_init_returns _ _ _ _ _ _ _ _ _ Hm) as [Hhid Hn].
    rewrite gen_relative_position_index_closed in Hidx by lia. injection Hidx as <-.
    rewrite gen_relative_log_coords_swin_divisors in Hco by assumption.
    injection Hco as <-.
    cbn [RelPosMlp.training RelPosMlp.prefix_tokens RelPosMlp.bias_shape
         RelPosMlp.relative_position_index RelPosMlp.rel_coords_log
         RelPosMlp.bias_act RelPosMlp.bias_gain RelPosMlp.mlp RelPosMlp.num_heads].
    repeat (split; [assumption || reflexivity|]). split; [eauto|].
    split; [intros c; eapply linear_mlp_init_cell_length, Hm|].
    left. repeat split.
  - destruct (LinearMLP.init hidden_dim num_heads (true, true) 0.125 w1 b1 w2 b2)
      as [m|e] eqn:Hm; [|discriminate]. cbn [bind].
    destruct (gen_relative_position_index (h, w) None false) as [t|e] eqn:Hidx;
      [|discriminate]. cbn [bind].
    destruct (gen_relative_log_coords (h, w) pre mode) as [co|e] eqn:Hco;
      [|discriminate]. cbn [bind]. intros [= <-].
    destruct (gen_relative_log_coords_returns _ _ _ _ _ Hco) as (Hm' & Hh & Hw).
    destruct Hm' as [-> | ->]; [discriminate|].
    destruct (linear_mlp_init_returns _ _ _ _ _ _ _ _ _ Hm) as [Hhid Hn].
    rewrite gen_relative_position_index_closed in Hidx by lia. injection Hidx as <-.
    rewrite gen_relative_log_coords_cr in Hco by assumption. injection Hco as <-.
    cbn [RelPosMlp.training RelPosMlp.prefix_tokens RelPosMlp.bias_shape
         RelPosMlp.relative_position_index RelPosMlp.rel_coords_log
         RelPosMlp.bias_act RelPosMlp.bias_gain RelPosMlp.mlp RelPosMlp.num_heads].
    repeat (split; [assumption || reflexivity|]). split; [eauto|].
    split; [intros c; eapply linear_mlp_init_cell_length, Hm|].
    right. repeat split.
Qed.

(** The bias of a head in evaluation mode, before it is read cell by
    cell: the padded grid of projected, activated and scaled values. *)
Lemma relpos_mlp_get_bias_eval (self : RelPosMlp.t) h w num_heads f1 f2 g :
  0 < h -> 0 < w -> 0 < num_heads ->
  RelPosMlp.training self = false ->
  RelPosMlp.num_heads self = num_heads ->
  RelPosMlp.bias_shape self = (h * w, h * w, num_heads) ->
  RelPosMlp.relative_position_index self = T1 (index_closed h w) ->
  RelPosMlp.rel_coords_log self = offset_table h w f1 f2 ->
  (forall c, length (mlp_cell (RelPosMlp.mlp self) c) = Z.to_nat num_heads) ->
  RelPosMlp.get_bias self g
  = (let* t :=
       pad_prefix (RelPosMlp.prefix_tokens self)
         (grid3 (Z.to_nat num_heads) (area h w) (area h w)
            (fun c a b =>
               bias_post self
                 (nth c
                    (mlp_cell (RelPosMlp.mlp self)
                       (f1 (f32_of_Z (fst (coord_diff w a b))),
                        f2 (f32_of_Z (snd (coord_diff w a b)))))
                    (Fin 0)))) in
     Ok [t], g).
Proof.
  intros Hh Hw Hn Hev Hheads Hshape Hidx Hcoords Hcell.
  unfold RelPosMlp.get_bias. rewrite Hev, linear_mlp_eval, Hheads, Hshape, Hidx, Hcoords.
  cbn [view_flat snd]. f_equal.
  set (mlp := RelPosMlp.mlp self) in *.
  set (H' := Z.to_nat (2 * h - 1)). set (W' := Z.to_nat (2 * w - 1)).
  set (C := fun i j : nat => (f1 (f32_of_Z (- (h - 1) + Z.of_nat i)),
                              f2 (f32_of_Z (- (w - 1) + Z.of_nat j)))).
  assert (Hcells3 : map2d (LinearMLP.fc2 mlp)
                      (map2d (fun c => frelu <$> LinearMLP.fc1 mlp c)
                         (offset_table h w f1 f2))
                    = (fun i => (fun j => mlp_cell mlp (C i j)) <$> seq 0 W') <$> seq 0 H').
  { unfold offset_table. rewrite !map2d_table. reflexivity. }
  rewrite Hcells3.
  set (cells := table2 H' W' (fun i j => mlp_cell mlp (C i j))).
  assert (Hlen : length cells = (H' * W')%nat) by apply length_table2.
  assert (Hall : Forall (fun cell => length cell = Z.to_nat num_heads) cells).
  { apply Forall_forall. intros cell Hc.
    apply elem_of_table2 in Hc as (i & j & _ & _ & ->). apply Hcell. }
  assert (Hview : view_cells num_heads
                    ((fun i => (fun j => mlp_cell mlp (C i j)) <$> seq 0 W')
                       <$> seq 0 H') = Ok cells).
  { unfold view_cells. fold (table2 H' W' (fun i j => mlp_cell mlp (C i j))). fold cells.
    destruct (Z.leb_spec num_heads 0); [lia|].
    rewrite (length_concat_uniform _ _ Hall).
    rewrite Nat2Z.inj_mul, Z2Nat.id, Z_mod_mult by lia. cbn [Z.eqb negb].
    rewrite Nat.div_mul by lia. f_equal. apply chunks_concat, Hall. }
  rewrite Hview. cbn [bind].
  destruct (gather_view_permute cells (area h w) (area h w) num_heads
              (fun a b => offset_rank h w (coord_diff w a b)) ltac:(lia))
    as (gth & r & Hsel & Hv3 & Hperm); [|exact Hall|].
  { intros a b Ha Hb. rewrite Hlen.
    assert (0 <= offset_rank h w (coord_diff w a b) < (2 * h - 1) * (2 * w - 1))
      by (apply offset_rank_bounds; [assumption..|];
          apply coord_diff_in_range; assumption).
    unfold H', W'. nia. }
  unfold index_closed. rewrite Hsel. cbn [bind].
  replace (h * w) with (Z.of_nat (area h w)) by (unfold area; nia).
  rewrite Hv3. cbn [bind]. rewrite Hperm.
  fold (grid3 (Z.to_nat num_heads) (area h w) (area h w)
          (fun c a b =>
             nth c (nth (Z.to_nat (offset_rank h w (coord_diff w a b))) cells []) (Fin 0))).
  assert (Hpost : match RelPosMlp.bias_gain self with
                  | Some gain =>
                      map3d (fmul (f32_of_Z gain))
                        (map3d (RelPosMlp.bias_act self)
                           (grid3 (Z.to_nat num_heads) (area h w) (area h w)
                              (fun c a b =>
                                 nth c (nth (Z.to_nat (offset_rank h w (coord_diff w a b)))
                                          cells []) (Fin 0))))
                  | None =>
                      map3d (RelPosMlp.bias_act self)
                        (grid3 (Z.to_nat num_heads) (area h w) (area h w)
                           (fun c a b =>
                              nth c (nth (Z.to_nat (offset_rank h w (coord_diff w a b)))
                                       cells []) (Fin 0)))
                  end
                  = grid3 (Z.to_nat num_heads) (area h w) (area h w)
                      (fun c a b =>
                         bias_post self
                           (nth c
                              (mlp_cell mlp
                                 (f1 (f32_of_Z (fst (coord_diff w a b))),
                                  f2 (f32_of_Z (snd (coord_diff w a b)))))
                              (Fin 0)))).
  { unfold bias_post. destruct (RelPosMlp.bias_gain self) as [gain|];
      rewrite ?map3d_grid3; apply grid3_ext; intros c a b Hc Ha Hb;
      repeat f_equal.
    all: assert (Hin : in_range h w (coord_diff w a b))
           by (apply coord_diff_in_range; assumption).
    all: assert (Hb2 : 0 <= offset_rank h w (coord_diff w a b)
                       < (2 * h - 1) * (2 * w - 1))
           by (apply offset_rank_bounds; assumption).
    all: destruct Hin as [Hr1 Hr2].
    all: apply nth_lookup_Some.
    all: unfold cells.
    all: replace (Z.to_nat (offset_rank h w (coord_diff w a b)))
           with (Z.to_nat (fst (coord_diff w a b) + h - 1) * W'
                 + Z.to_nat (snd (coord_diff w a b) + w - 1))%nat
           by (unfold offset_rank, W'; nia).
    all: rewrite lookup_table2 by (unfold H', W'; lia).
    all: unfold C; rewrite !Z2Nat.id by lia.
    all: replace (- (h - 1) + (fst (coord_diff w a b) + h - 1))
           with (fst (coord_diff w a b)) by lia.
    all: replace (- (w - 1) + (snd (coord_diff w a b) + w - 1))
           with (snd (coord_diff w a b)) by lia.
    all: reflexivity. }
  unfold pad_prefix.
  destruct (RelPosMlp.prefix_tokens self =? 0); rewrite Hpost; reflexivity.
Qed.

(** X14. For a constructed MLP head put in evaluation mode, with a
    positive number of heads and a non-negative number [p] of prefix
    tokens, [get_bias] leaves the generator alone and returns a tensor of
    shape (1, num_heads, p + h*w, p + h*w).  Its first [p] rows and
    columns are zero in every head.  The entry of head [c] for the pair
    (a, b) is the activation and gain applied to output [c] of the
    projection of the log-coordinates stored for the coordinate
    difference of the pair, at cell (dr + h - 1, dc + w - 1) of the
    coordinate table. *)
Theorem relpos_mlp_eval_bias h w num_heads hidden_dim p mode pre w1 b1 w2 b2 self g :
  RelPosMlp.init (h, w) num_heads hidden_dim p mode pre w1 b1 w2 b2 = Ok self ->
  0 < num_heads -> 0 <= p ->
  exists bias out,
    RelPosMlp.get_bias (mlp_train false self) g = (Ok bias, g)
    /\ bias = [out]
    /\ shape3 (Z.to_nat num_heads) (Z.to_nat p + area h w) (Z.to_nat p + area h w) out
    /\ (forall c i j,
          (c < Z.to_nat num_heads)%nat ->
          (i < Z.to_nat p + area h w)%nat -> (j < Z.to_nat p + area h w)%nat ->
          (i < Z.to_nat p)%nat \/ (j < Z.to_nat p)%nat ->
          bias_entry bias c i j = Some (Fin 0))
    /\ (forall c a b dr dc,
          (c < Z.to_nat num_heads)%nat -> (a < area h w)%nat -> (b < area h w)%nat ->
          coord_diff w a b = (dr, dc) ->
          exists coords y,
            lookup2 (RelPosMlp.rel_coords_log self)
              (Z.to_nat (dr + h - 1)) (Z.to_nat (dc + w - 1)) = Some coords
            /\ mlp_cell (RelPosMlp.mlp self) coords !! c = Some y
            /\ bias_entry bias c (Z.to_nat p + a) (Z.to_nat p + b)
               = Some (bias_post self y)).
Proof.
  intros Hinit Hn Hp.
  destruct (relpos_mlp_init_fields _ _ _ _ _ _ _ _ _ _ _ _ Hinit)
    as (Hh & Hw & _ & _ & _ & Hpre & Hheads & Hshape & Hidx & (f1 & f2 & Hcoords)
        & Hcell & _).
  pose proof (relpos_mlp_get_bias_eval (mlp_train false self) h w num_heads f1 f2 g
                ltac:(lia) ltac:(lia) Hn eq_refl Hheads Hshape Hidx Hcoords Hcell)
    as Hbias.
  cbn [mlp_train RelPosMlp.prefix_tokens RelPosMlp.mlp] in Hbias.
  rewrite Hpre in Hbias.
  destruct (pad_prefix_grid3 p (Z.to_nat num_heads) (area h w)
              (fun c a b =>
                 bias_post (mlp_train false self)
                   (nth c
                      (mlp_cell (RelPosMlp.mlp self)
                         (f1 (f32_of_Z (fst (coord_diff w a b))),
                          f2 (f32_of_Z (snd (coord_diff w a b)))))
                      (Fin 0))) Hp) as (t & Hpad & Hsh & Hin & Hzero).
  rewrite Hpad in Hbias. cbn [bind] in Hbias.
  exists [t], t. split; [exact Hbias|]. split; [reflexivity|]. split; [exact Hsh|].
  split; [exact Hzero|].
  intros c a b dr dc Hc Ha Hb Hd.
  assert (Hrange : in_range h w (dr, dc))
    by (rewrite <- Hd; apply coord_diff_in_range; assumption || lia).
  destruct Hrange as [Hr1 Hr2]. cbn [fst snd] in Hr1, Hr2.
  eexists _, _. split.
  { rewrite Hcoords. apply lookup2_offset_table; lia. }
  rewrite !Z2Nat.id by lia.
  replace (- (h - 1) + (dr + h - 1)) with dr by lia.
  replace (- (w - 1) + (dc + w - 1)) with dc by lia.
  split.
  { destruct (nth_lookup_or_length (mlp_cell (RelPosMlp.mlp self)
                                      (f1 (f32_of_Z dr), f2 (f32_of_Z dc))) c (Fin 0))
      as [Hy|Hge]; [exact Hy|]. rewrite Hcell in Hge. lia. }
  unfold bias_entry. rewrite Hin by assumption. rewrite Hd. reflexivity.
Qed.

Lemma relpos_mlp_eval_bias_witness :
  exists self bias,
    RelPosMlp.init (1, 2) 1 1 1 "cr" (0, 0)
      (fun _ => (Fin 1, Fin 1)) (fun _ => Fin 0) (fun _ _ => Fin 1) (fun _ => Fin 0)
    = Ok self
    /\ RelPosMlp.get_bias (mlp_train false self) keep_then_drop
       = (Ok bias, keep_then_drop)
    /\ bias_entry bias 0 0 2 = Some (Fin 0).
Proof.
  destruct (RelPosMlp.init (1, 2) 1 1 1 "cr" (0, 0)
              (fun _ => (Fin 1, Fin 1)) (fun _ => Fin 0) (fun _ _ => Fin 1)
              (fun _ => Fin 0)) as [self|e] eqn:Hinit.
  2:{ unfold RelPosMlp.init in Hinit. change (String.eqb "cr" "swin") with false in Hinit.
      cbv iota beta in Hinit. rewrite linear_mlp_init_ok in Hinit by lia.
      cbn [bind] in Hinit.
      rewrite gen_relative_position_index_closed in Hinit by lia.
      rewrite gen_relative_log_coords_cr in Hinit by lia. discriminate. }
  destruct (relpos_mlp_eval_bias 1 2 1 1 1 "cr" (0, 0) _ _ _ _ self keep_then_drop Hinit
              ltac:(lia) ltac:(lia))
    as (bias & out & Hbias & _ & _ & Hzero & _).
  exists self, bias. split; [reflexivity|]. split; [exact Hbias|].
  apply Hzero; unfold area; simpl; lia.
Defined.

(** *** The sigmoid and the gain bound every value that is not NaN *)

Lemma sigmoid_gain_range (y : f32) :
  fmul (f32_of_Z 16) (fsigmoid y) = NaN
  \/ exists s, fmul (f32_of_Z 16) (fsigmoid y) = Fin s /\ (0 <= s <= 16)%R.
Proof.
  destruct y as [r| | |]; [| | |left; reflexivity]; right; eexists;
    (split; [reflexivity|]); [|lra|lra].
  pose proof (exp_pos (- r)) as He.
  assert (Hs : (0 < 1 / (1 + exp (- r)) < 1)%R).
  { split.
    - apply Rdiv_lt_0_compat; lra.
    - apply (Rmult_lt_reg_r (1 + exp (- r))); [lra|].
      unfold Rdiv. rewrite Rmult_assoc, Rinv_l by lra. lra. }
  lra.
Qed.

(** X15. In "swin" mode a constructed head in evaluation mode returns a
    tensor in which every entry is NaN or lies between 0 and 16, whatever
    the weights of the projection and the divisors of the coordinates:
    the sigmoid followed by the gain of 16 bounds every head, and the
    prefix rows and columns are zero. *)
Theorem relpos_mlp_swin_bias_range h w num_heads hidden_dim p pre w1 b1 w2 b2 self g :
  RelPosMlp.init (h, w) num_heads hidden_dim p "swin" pre w1 b1 w2 b2 = Ok self ->
  0 < num_heads -> 0 <= p ->
  exists bias,
    RelPosMlp.get_bias (mlp_train false self) g = (Ok bias, g)
    /\ forall c i j,
        (c < Z.to_nat num_heads)%nat ->
        (i < Z.to_nat p + area h w)%nat -> (j < Z.to_nat p + area h w)%nat ->
        exists v,
          bias_entry bias c i j = Some v
          /\ (v = NaN \/ exists r, v = Fin r /\ (0 <= r <= 16)%R).
Proof.
  intros Hinit Hn Hp.
  destruct (relpos_mlp_init_fields _ _ _ _ _ _ _ _ _ _ _ _ Hinit)
    as (Hh & Hw & _ & _ & _ & Hpre & Hheads & Hshape & Hidx & (f1 & f2 & Hcoords)
        & Hcell & Hmode).
  destruct Hmode as [(_ & Hact & Hgain & _)|(Hcr & _)]; [|discriminate].
  pose proof (relpos_mlp_get_bias_eval (mlp_train false self) h w num_heads f1 f2 g
                ltac:(lia) ltac:(lia) Hn eq_refl Hheads Hshape Hidx Hcoords Hcell)
    as Hbias.
  cbn [mlp_train RelPosMlp.prefix_tokens RelPosMlp.mlp] in Hbias.
  rewrite Hpre in Hbias.
  match type of Hbias with
  | context [grid3 _ _ _ ?f] =>
      destruct (pad_prefix_grid3 p (Z.to_nat num_heads) (area h w) f Hp)
        as (t & Hpad & _ & Hin & Hzero)
  end.
  rewrite Hpad in Hbias. cbn [bind] in Hbias.
  exists [t]. split; [exact Hbias|].
  intros c i j Hc Hi Hj. unfold bias_entry.
  destruct (decide (i < Z.to_nat p \/ j < Z.to_nat p)%nat) as [Hlow|Hhigh].
  - exists (Fin 0). split; [apply Hzero; assumption|]. right. exists 0%R.
    split; [reflexivity | lra].
  - replace i with (Z.to_nat p + (i - Z.to_nat p))%nat by lia.
    replace j with (Z.to_nat p + (j - Z.to_nat p))%nat by lia.
    rewrite Hin by lia. eexists. split; [reflexivity|].
    unfold bias_post. cbn [mlp_train RelPosMlp.bias_gain RelPosMlp.bias_act].
    rewrite Hgain, Hact. apply sigmoid_gain_range.
Qed.

Lemma relpos_mlp_swin_bias_range_witness :
  exists self bias v,
    RelPosMlp.init (2, 2) 1 1 0 "swin" (0, 0)
      (fun _ => (Fin 1, Fin 1)) (fun _ => Fin 0) (fun _ _ => Fin 1) (fun _ => Fin 0)
    = Ok self
    /\ RelPosMlp.get_bias (mlp_train false self) keep_then_drop
       = (Ok bias, keep_then_drop)
    /\ bias_entry bias 0 1 2 = Some v
    /\ (v = NaN \/ exists r, v = Fin r /\ (0 <= r <= 16)%R).
Proof.
  destruct (RelPosMlp.init (2, 2) 1 1 0 "swin" (0, 0)
              (fun _ => (Fin 1, Fin 1)) (fun _ => Fin 0) (fun _ _ => Fin 1)
              (fun _ => Fin 0)) as [self|e] eqn:Hinit.
  2:{ unfold RelPosMlp.init in Hinit. change (String.eqb "swin" "swin") with true in Hinit.
      cbv iota beta in Hinit. rewrite linear_mlp_init_ok in Hinit by lia.
      cbn [bind] in Hinit.
      rewrite gen_relative_position_index_closed in Hinit by lia.
      rewrite gen_relative_log_coords_swin in Hinit by lia. discriminate. }
  destruct (relpos_mlp_swin_bias_range 2 2 1 1 0 (0, 0) _ _ _ _ self keep_then_drop Hinit
              ltac:(lia) ltac:(lia)) as (bias & Hbias & Hent).
  destruct (Hent 0%nat 1%nat 2%nat) as (v & Hv & Hrange);
    [simpl; lia | unfold area; simpl; lia | unfold area; simpl; lia |].
  exists self, bias, v. split; [reflexivity|]. split; [exact Hbias|].
  split; [exact Hv | exact Hrange].
Defined.

(** X16. With a number of heads and a hidden width that are positive, so
    that the projection is allocated, the constructor of the MLP head
    returns exactly when both window sides are at least 1 and the mode is
    "swin" or "cr"; prefix_tokens is not checked.  A negative window side
    raises a RuntimeError in the index generator; otherwise any other
    mode, "rw" included, fails the assertion on the mode, and a valid
    mode with a side of 0 raises a RuntimeError. *)
Theorem relpos_mlp_init_domain h w num_heads hidden_dim p mode pre w1 b1 w2 b2 :
  0 < num_heads -> 0 < hidden_dim ->
  ((exists self,
       RelPosMlp.init (h, w) num_heads hidden_dim p mode pre w1 b1 w2 b2 = Ok self)
   <-> 1 <= h /\ 1 <= w /\ (mode = "swin"%string \/ mode = "cr"%string))
  /\ (h < 0 \/ w < 0 ->
      RelPosMlp.init (h, w) num_heads hidden_dim p mode pre w1 b1 w2 b2
      = Err RuntimeError)
  /\ (0 <= h -> 0 <= w -> mode <> "swin"%string -> mode <> "cr"%string ->
      RelPosMlp.init (h, w) num_heads hidden_dim p mode pre w1 b1 w2 b2
      = Err AssertionError)
  /\ (0 <= h -> 0 <= w -> h = 0 \/ w = 0 ->
      mode = "swin"%string \/ mode = "cr"%string ->
      RelPosMlp.init (h, w) num_heads hidden_dim p mode pre w1 b1 w2 b2
      = Err RuntimeError).
Proof.
  intros Hn Hhid.
  assert (Hmlp : forall bias, exists m,
             LinearMLP.init hidden_dim num_heads bias 0.125 w1 b1 w2 b2 = Ok m)
    by (intros bias; eexists; apply linear_mlp_init_ok; lia).
  split; [|split; [|split]].
  - split.
    + intros [self Hself].
      destruct (relpos_mlp_init_fields _ _ _ _ _ _ _ _ _ _ _ _ Hself)
        as (Hh & Hw & _ & _ & _ & _ & _ & _ & _ & _ & _ & Hmode).
      split; [exact Hh|]. split; [exact Hw|]. destruct Hmode as [[? _]|[? _]]; auto.
    + intros (Hh & Hw & [-> | ->]); unfold RelPosMlp.init.
      * change (String.eqb "swin" "swin") with true. cbv iota beta.
        destruct (Hmlp (true, false)) as [m ->]. cbn [bind].
        rewrite gen_relative_position_index_closed by lia. cbn [bind].
        rewrite gen_relative_log_coords_swin_divisors by lia. eexists. reflexivity.
      * change (String.eqb "cr" "swin") with false. cbv iota beta.
        destruct (Hmlp (true, true)) as [m ->]. cbn [bind].
        rewrite gen_relative_position_index_closed by lia. cbn [bind].
        rewrite gen_relative_log_coords_cr by lia. eexists. reflexivity.
  - intros Hneg. unfold RelPosMlp.init. cbn [fst snd].
    assert (Hidx : gen_relative_position_index (h, w) None false = Err RuntimeError).
    { unfold gen_relative_position_index. rewrite grid_coords_neg by exact Hneg.
      reflexivity. }
    destruct (String.eqb mode "swin"); cbv iota beta;
      [destruct (Hmlp (true, false)) as [m ->] | destruct (Hmlp (true, true)) as [m ->]];
      cbn [bind]; rewrite Hidx; reflexivity.
  - intros Hh Hw Hs Hc. unfold RelPosMlp.init. cbn [fst snd].
    destruct (String.eqb mode "swin"); cbv iota beta;
      [destruct (Hmlp (true, false)) as [m ->] | destruct (Hmlp (true, true)) as [m ->]];
      cbn [bind]; rewrite gen_relative_position_index_closed_nonneg by assumption;
      cbn [bind]; rewrite gen_relative_log_coords_bad_mode by assumption; reflexivity.
  - intros Hh Hw Hz Hmode. unfold RelPosMlp.init. cbn [fst snd].
    destruct (String.eqb mode "swin"); cbv iota beta;
      [destruct (Hmlp (true, false)) as [m ->] | destruct (Hmlp (true, true)) as [m ->]];
      cbn [bind]; rewrite gen_relative_position_index_closed_nonneg by assumption;
      cbn [bind]; rewrite gen_relative_log_coords_bad_window by (assumption || lia);
      reflexivity.
Qed.

Lemma relpos_mlp_init_domain_witness :
  RelPosMlp.init (7, 7) 8 256 0 "rw" (0, 0)
    (fun _ => (Fin 0, Fin 0)) (fun _ => Fin 0) (fun _ _ => Fin 0) (fun _ => Fin 0)
  = Err AssertionError
  /\ RelPosMlp.init (0, 7) 8 256 0 "cr" (0, 0)
       (fun _ => (Fin 0, Fin 0)) (fun _ => Fin 0) (fun _ _ => Fin 0) (fun _ => Fin 0)
     = Err RuntimeError.
Proof.
  split.
  - apply (proj1 (proj2 (proj2 (relpos_mlp_init_domain 7 7 8 256 0 "rw" (0, 0)
                                  (fun _ => (Fin 0, Fin 0)) (fun _ => Fin 0)
                                  (fun _ _ => Fin 0) (fun _ => Fin 0)
                                  ltac:(lia) ltac:(lia)))));
      [lia | lia | discriminate | discriminate].
  - apply (proj2 (proj2 (proj2 (relpos_mlp_init_domain 0 7 8 256 0 "cr" (0, 0)
                                  (fun _ => (Fin 0, Fin 0)) (fun _ => Fin 0)
                                  (fun _ _ => Fin 0) (fun _ => Fin 0)
                                  ltac:(lia) ltac:(lia)))));
      [lia | lia | left; reflexivity | right; reflexivity].
Defined.
